(** * Upload-and-processing lifecycle of the recording client

    A shallow embedding of the TypeScript sources of the client:
    - the zod schemas of the backend responses ([src/api/schemas.ts]),
    - [parseMarkersParam] (imported from [@/src/utils/params]),
    - [initRecording], [markUploadComplete] and [fetchRecordingStatus]
      ([src/api/client.ts]),
    - [uploadVideo] ([src/upload/uploadVideo.ts]),
    - the upload screen [UploadScreen] with [startUploadFlow] and
      [handleCancel] (route [/upload]),
    - the result screen [ResultScreen] with the [refetchInterval] callback
      of its query (route [/result]),
    followed by the properties of the upload flow, the transport, the
    response validation and the status polling.

    Conventions.  JavaScript exceptions are explicit: a computation that may
    throw returns a [JsResult].  Promises that may stay pending are explicit
    too.  JavaScript numbers are modelled by [number]: the finite values are
    rationals (binary64 rounding is not modelled), with [NaN] and the two
    infinities apart.  Integers that the platform produces (HTTP status codes,
    byte counts) are [Z]. *)

From Stdlib Require Import ZArith QArith Qround List String Ascii Bool Lia.
From Stdlib Require Import DecimalString DecimalZ.
Import ListNotations.

Local Open Scope string_scope.
Local Open Scope Z_scope.

(* ===================================================================== *)
(** ** JavaScript values *)
(* ===================================================================== *)

Module Js.

(** A JavaScript number. *)
Inductive number : Type :=
| NaN
| PosInfinity
| NegInfinity
| Fin (q : Q).

(** [Number.isNaN]. *)
Definition isNaN (n : number) : bool :=
  match n with NaN => true | _ => false end.

(** Truthiness of a number: [0] and [NaN] are falsy. *)
Definition truthy_number (n : number) : bool :=
  match n with
  | NaN => false
  | Fin q => negb (Qeq_bool q 0)
  | _ => true
  end.

(** [Math.round]: the nearest integer, halves rounded up. *)
Definition Math_round (n : number) : number :=
  match n with
  | Fin q => Fin (inject_Z (Qfloor (q + (1 # 2))))
  | other => other
  end.

(** Truthiness of a string: only the empty string is falsy. *)
Definition truthy_string (s : string) : bool :=
  match s with EmptyString => false | _ => true end.

(** Decimal rendering of an integer, as a template literal does it. *)
Definition string_of_Z (z : Z) : string :=
  NilZero.string_of_int (Z.to_int z).

(** The values [JSON.parse] produces.  The field list of [JObj] holds the
    own properties of the object, in the order in which the object
    enumerates them; a property read takes the first binding of the
    key. *)
#[warnings="-register-all"] Inductive Json : Type :=
| JNull
| JBool (b : bool)
| JNum (q : Q)
| JStr (s : string)
| JArr (items : list Json)
| JObj (fields : list (string * Json)).

(** [obj[key]]; [None] is [undefined]. *)
Fixpoint get (key : string) (fields : list (string * Json)) : option Json :=
  match fields with
  | [] => None
  | (k, v) :: rest => if String.eqb k key then Some v else get key rest
  end.

(** What [JSON.stringify] writes for a number. *)
Definition json_of_number (n : number) : Json :=
  match n with Fin q => JNum q | _ => JNull end.

(** The type name zod reports for a received value. *)
Definition typeName (v : option Json) : string :=
  match v with
  | None => "undefined"
  | Some JNull => "null"
  | Some (JBool _) => "boolean"
  | Some (JNum _) => "number"
  | Some (JStr _) => "string"
  | Some (JArr _) => "array"
  | Some (JObj _) => "object"
  end.

(** Validation issues of zod. *)
Inductive PathSeg : Type :=
| Key (k : string)
| Idx (i : nat).

Inductive IssueCode : Type :=
| invalid_type (expected received : string)
| invalid_string_url
| invalid_enum_value (received : string).

Record ZodIssue : Type := mkIssue {
  code : IssueCode;
  path : list PathSeg
}.

(** Thrown values.  [ThrownValue] stands for a thrown value that is not an
    instance of [Error]. *)
Inductive Exn : Type :=
| Error (message : string)
| TypeError (message : string)
| SyntaxError (message : string)
| DOMException (message name : string)
| ZodError (issues : list ZodIssue)
| ThrownValue (description : string).

Definition instanceofError (e : Exn) : bool :=
  match e with ThrownValue _ => false | _ => true end.

(** [err.message].  The text of a [ZodError] is written by the validation
    library from the issues; [zodMessage] is that rendering. *)
Definition message_of (zodMessage : list ZodIssue -> string) (e : Exn)
  : string :=
  match e with
  | Error m | TypeError m | SyntaxError m | DOMException m _ => m
  | ZodError issues => zodMessage issues
  | ThrownValue _ => ""
  end.

(** A computation that returns or throws. *)
Inductive JsResult (A : Type) : Type :=
| Return (a : A)
| Throw (e : Exn).
Arguments Return {A} a.
Arguments Throw {A} e.

Definition bind {A B} (r : JsResult A) (k : A -> JsResult B) : JsResult B :=
  match r with
  | Return a => k a
  | Throw e => Throw e
  end.

(** [array.map(f)] with a callback that may throw: the elements are
    converted in order and the first throw ends the map. *)
Fixpoint Array_map {A B} (f : A -> JsResult B) (l : list A)
  : JsResult (list B) :=
  match l with
  | [] => Return []
  | a :: rest =>
      bind (f a) (fun b => bind (Array_map f rest)
                             (fun bs => Return (b :: bs)))
  end.

(** [try { body } catch (err) { handler }]. *)
Definition try_catch {A} (body : JsResult A) (handler : Exn -> JsResult A)
  : JsResult A :=
  match body with
  | Return a => Return a
  | Throw e => handler e
  end.

End Js.
Import Js.

Declare Scope js_scope.
Delimit Scope js_scope with js.
Notation "x <- c ;; k" := (Js.bind c (fun x => k))
  (at level 61, c at next level, right associativity) : js_scope.

(* ===================================================================== *)
(** ** Response schemas ([src/api/schemas.ts]) *)
(* ===================================================================== *)

Module Schemas.

(** The result of validating one value: the typed value, or the issues
    found.  An object schema validates all its fields and gathers the
    issues of all of them. *)
Inductive Parsed (A : Type) : Type :=
| Valid (a : A)
| Invalid (issues : list ZodIssue).
Arguments Valid {A} a.
Arguments Invalid {A} issues.

Definition issues_of {A} (p : Parsed A) : list ZodIssue :=
  match p with Valid _ => [] | Invalid l => l end.

Definition pmap {A B} (f : A -> B) (p : Parsed A) : Parsed B :=
  match p with Valid a => Valid (f a) | Invalid l => Invalid l end.

(** Combination of a partly built object with its next field. *)
Definition ap {A B} (pf : Parsed (A -> B)) (pa : Parsed A) : Parsed B :=
  match pf, pa with
  | Valid f, Valid a => Valid (f a)
  | _, _ => Invalid (issues_of pf ++ issues_of pa)
  end.

(** A schema validates the value found at a path; [None] is [undefined]
    (an absent property). *)
Definition Schema (A : Type) : Type :=
  list PathSeg -> option Json -> Parsed A.

Definition wrong_type {A} (expected : string) (p : list PathSeg)
           (v : option Json) : Parsed A :=
  Invalid [mkIssue (invalid_type expected (typeName v)) p].

(** [z.string()] *)
Definition z_string : Schema string :=
  fun p v =>
    match v with
    | Some (JStr s) => Valid s
    | _ => wrong_type "string" p v
    end.

(** [z.number()] *)
Definition z_number : Schema Q :=
  fun p v =>
    match v with
    | Some (JNum q) => Valid q
    | _ => wrong_type "number" p v
    end.

(** [.optional()] *)
Definition optional {A} (s : Schema A) : Schema (option A) :=
  fun p v =>
    match v with
    | None => Valid None
    | Some _ => pmap Some (s p v)
    end.

(** Validation of the elements of an array, or of the entries of a
    record, each at its own path. *)
Fixpoint each {A B} (f : B -> Parsed A) (l : list B) : Parsed (list A) :=
  match l with
  | [] => Valid []
  | b :: rest => ap (pmap cons (f b)) (each f rest)
  end.

Fixpoint indexed {A} (i : nat) (l : list A) : list (nat * A) :=
  match l with
  | [] => []
  | a :: rest => (i, a) :: indexed (S i) rest
  end.

(** [z.array(s)] *)
Definition z_array {A} (s : Schema A) : Schema (list A) :=
  fun p v =>
    match v with
    | Some (JArr items) =>
        each (fun ia => s (p ++ [Idx (fst ia)])%list (Some (snd ia)))
             (indexed 0 items)
    | _ => wrong_type "array" p v
    end.

(** [z.record(z.string())]: the value of every entry is validated, and
    the validated record is assembled from the entries, in order, without
    an entry whose key is ["__proto__"], which zod does not copy. *)
Definition z_record_string : Schema (list (string * string)) :=
  fun p v =>
    match v with
    | Some (JObj fields) =>
        pmap (filter (fun kv => negb (String.eqb (fst kv) "__proto__")))
             (each (fun kv =>
                      pmap (pair (fst kv))
                           (z_string (p ++ [Key (fst kv)])%list
                                     (Some (snd kv))))
                   fields)
    | _ => wrong_type "object" p v
    end.

(** The field [key] of an object, validated by [s]. *)
Definition field {A} (key : string) (s : Schema A) (p : list PathSeg)
           (fields : list (string * Json)) : Parsed A :=
  s (p ++ [Key key])%list (get key fields).

Record InitRecordingResponse : Type := mkInitRecordingResponse {
  recordingId : string;
  uploadUrl : string;
  headers : option (list (string * string))
}.

Record Evidence : Type := mkEvidence {
  transcriptSnippet : option string;
  keyframeUrl : option string
}.

Record RecordingStep : Type := mkRecordingStep {
  index : Q;
  startSec : Q;
  endSec : Q;
  title : string;
  description : string;
  evidence : option Evidence
}.

Inductive Status : Type :=
| CREATED | UPLOADING | UPLOADED | PROCESSING | COMPLETED | FAILED.

Record RecordingStatusResponse : Type := mkRecordingStatusResponse {
  status_recordingId : string;
  status : Status;
  error : option string;
  steps : option (list RecordingStep)
}.

Definition status_of_string (s : string) : option Status :=
  if String.eqb s "CREATED" then Some CREATED
  else if String.eqb s "UPLOADING" then Some UPLOADING
  else if String.eqb s "UPLOADED" then Some UPLOADED
  else if String.eqb s "PROCESSING" then Some PROCESSING
  else if String.eqb s "COMPLETED" then Some COMPLETED
  else if String.eqb s "FAILED" then Some FAILED
  else None.

(** [z.enum(['CREATED', ..., 'FAILED'])] *)
Definition z_enum_status : Schema Status :=
  fun p v =>
    match v with
    | Some (JStr s) =>
        match status_of_string s with
        | Some st => Valid st
        | None => Invalid [mkIssue (invalid_enum_value s) p]
        end
    | _ =>
        wrong_type
          "'CREATED' | 'UPLOADING' | 'UPLOADED' | 'PROCESSING' | 'COMPLETED' | 'FAILED'"
          p v
    end.

Section WithUrlParser.

(** The URL check behind [z.string().url()]: whether the platform's URL
    parser accepts the string as an absolute URL. *)
Variable parsesAsUrl : string -> bool.

(** [z.string().url()] *)
Definition z_string_url : Schema string :=
  fun p v =>
    match z_string p v with
    | Valid s =>
        if parsesAsUrl s then Valid s
        else Invalid [mkIssue invalid_string_url p]
    | Invalid l => Invalid l
    end.

Definition initRecordingResponseSchema : Schema InitRecordingResponse :=
  fun p v =>
    match v with
    | Some (JObj o) =>
        ap (ap (ap (Valid mkInitRecordingResponse)
                   (field "recordingId" z_string p o))
               (field "uploadUrl" z_string_url p o))
           (field "headers" (optional z_record_string) p o)
    | _ => wrong_type "object" p v
    end.

Definition evidenceSchema : Schema (option Evidence) :=
  optional
    (fun p v =>
       match v with
       | Some (JObj o) =>
           ap (ap (Valid mkEvidence)
                  (field "transcriptSnippet" (optional z_string) p o))
              (field "keyframeUrl" (optional z_string_url) p o)
       | _ => wrong_type "object" p v
       end).

Definition recordingStepSchema : Schema RecordingStep :=
  fun p v =>
    match v with
    | Some (JObj o) =>
        ap (ap (ap (ap (ap (ap (Valid mkRecordingStep)
                               (field "index" z_number p o))
                           (field "startSec" z_number p o))
                       (field "endSec" z_number p o))
                   (field "title" z_string p o))
               (field "description" z_string p o))
           (field "evidence" evidenceSchema p o)
    | _ => wrong_type "object" p v
    end.

Definition recordingStatusSchema : Schema RecordingStatusResponse :=
  fun p v =>
    match v with
    | Some (JObj o) =>
        ap (ap (ap (ap (Valid mkRecordingStatusResponse)
                       (field "recordingId" z_string p o))
                   (field "status" z_enum_status p o))
               (field "error" (optional z_string) p o))
           (field "steps" (optional (z_array recordingStepSchema)) p o)
    | _ => wrong_type "object" p v
    end.

End WithUrlParser.

(** [schema.parse(input)]: the typed value, or a thrown [ZodError] that
    carries the issues. *)
Definition parse {A} (schema : Schema A) (input : Json) : JsResult A :=
  match schema [] (Some input) with
  | Valid a => Return a
  | Invalid issues => Throw (ZodError issues)
  end.

End Schemas.

(* ===================================================================== *)
(** ** Route parameters ([parseMarkersParam]) *)
(* ===================================================================== *)

Module Params.

(** The value of a route parameter: [string | string[] | undefined]. *)
Inductive RawParam : Type :=
| Undefined
| Single (s : string)
| Many (l : list string).

(** [!raw]: [undefined] and the empty string are falsy, every array is
    truthy. *)
Definition falsy (raw : RawParam) : bool :=
  match raw with
  | Undefined => true
  | Single s => negb (truthy_string s)
  | Many _ => false
  end.

Section WithBuiltins.

(** [JSON.parse] on a text: the parsed value, or a thrown [SyntaxError]. *)
Variable JSON_parse : string -> JsResult Json.

(** The number that a value converts to once it has been converted to a
    primitive ([ToNumber] of a primitive; for an object or an array, of
    the text that its [toString] gives). *)
Variable ToNumber : Json -> number.

(** Whether the conversion of a parsed value to a primitive throws.  A
    value of [JSON.parse] holds no function.  An object with an own
    property [toString] therefore has no callable [toString], and its
    [valueOf], own or inherited, gives no primitive: the conversion ends
    in a [TypeError].  An array is converted by joining the texts of its
    elements, so it throws when one of them does.  Every other value
    converts. *)
Fixpoint unconvertible (item : Json) : bool :=
  match item with
  | JArr items => existsb unconvertible items
  | JObj fields =>
      match get "toString" fields with Some _ => true | None => false end
  | _ => false
  end.

(** [Number(item)] *)
Definition Number (item : Json) : JsResult number :=
  if unconvertible item
  then Throw (TypeError "Cannot convert object to primitive value")
  else Return (ToNumber item).

(** [Array.isArray(raw) ? raw[0] : raw], then converted to the text that
    [JSON.parse] reads; the first element of an empty array is [undefined],
    whose text is ["undefined"]. *)
Definition value_text (raw : RawParam) : string :=
  match raw with
  | Undefined => "undefined"
  | Single s => s
  | Many [] => "undefined"
  | Many (s :: _) => s
  end.

(** The body of the [try] block: [None] when the block falls through to
    the final [return []]. *)
Definition parse_attempt (raw : RawParam) : JsResult (option (list number)) :=
  (parsed <- JSON_parse (value_text raw) ;;
   match parsed with
   | JArr items =>
       numbers <- Array_map Number items ;;
       Return (Some (filter (fun n => negb (isNaN n)) numbers))
   | _ => Return None
   end)%js.

Definition parseMarkersParam (raw : RawParam) : JsResult (list number) :=
  if falsy raw then Return []
  else
    (attempt <- try_catch (parse_attempt raw)
                          (fun err => (* console.warn *) Return None) ;;
     match attempt with
     | Some markers => Return markers
     | None => Return []
     end)%js.

End WithBuiltins.

End Params.

(* ===================================================================== *)
(** ** HTTP client ([src/api/client.ts]) *)
(* ===================================================================== *)

Module Http.

Record Request : Type := mkRequest {
  method : string;
  url : string;
  headers : list (string * string);
  body : option Json
}.

(** A received response: its status code and what [response.text()] and
    [response.json()] yield. *)
Record Response : Type := mkResponse {
  status : Z;
  text : JsResult string;
  json : JsResult Json
}.

(** [response.ok] *)
Definition ok (r : Response) : bool :=
  (200 <=? status r) && (status r <=? 299).

(** What [await fetch(...)] yields: a response, or a thrown error when no
    response is received. *)
Inductive FetchOutcome : Type :=
| Responded (r : Response)
| Failed (e : Exn).

(** The endpoints of the backend that the client calls. *)
Inductive Endpoint : Type := Init | Complete | GetStatus.

(** A function of the client issues one request to its endpoint and
    computes its result from what comes back. *)
Record Call (T : Type) : Type := mkCall {
  endpoint : Endpoint;
  request : Request;
  onResponse : Response -> JsResult T
}.
Arguments mkCall {T} endpoint request onResponse.
Arguments endpoint {T} c.
Arguments request {T} c.
Arguments onResponse {T} c.

(** [await fetch(request)] followed by the rest of the function. *)
Definition complete {T} (c : Call T) (o : FetchOutcome) : JsResult T :=
  match o with
  | Responded r => onResponse c r
  | Failed e => Throw e
  end.

End Http.

Module Client.
Import Schemas.

(** [SETTINGS] of [src/config]. *)
Record Settings : Type := mkSettings {
  apiBaseUrl : string;
  uploadContentType : string;
  pollIntervalMs : Z
}.

Record InitRecordingRequest : Type := mkInitRecordingRequest {
  fileName : string;
  contentType : string;
  sizeBytes : Z;
  durationSec : option number;
  stepMarkersSec : option (list number)
}.

(** A property whose value is [undefined] is left out by [JSON.stringify]. *)
Definition property {A} (key : string) (to_json : A -> Json) (v : option A)
  : list (string * Json) :=
  match v with
  | Some a => [(key, to_json a)]
  | None => []
  end.

(** The value that [JSON.stringify(payload)] writes. *)
Definition stringify (payload : InitRecordingRequest) : Json :=
  JObj ([("fileName", JStr (fileName payload));
         ("contentType", JStr (contentType payload));
         ("sizeBytes", JNum (inject_Z (sizeBytes payload)))]
          ++ property "durationSec" json_of_number (durationSec payload)
          ++ property "stepMarkersSec"
               (fun l => JArr (map json_of_number l)) (stepMarkersSec payload)).

Definition parseJson {T} (response : Http.Response) (schema : Schema T)
  : JsResult T :=
  (data <- Http.json response ;; parse schema data)%js.

Definition handleError {T} (response : Http.Response) : JsResult T :=
  let message :=
    ("Request failed (" ++ string_of_Z (Http.status response) ++ ")") in
  let message :=
    match Http.text response with
    | Return text =>
        if truthy_string text then (message ++ ": " ++ text)
        else message
    | Throw _ => message
    end in
  Throw (Error message).

Section WithEnvironment.

Variable parsesAsUrl : string -> bool.
Variable SETTINGS : Settings.

Definition initRecording (payload : InitRecordingRequest)
  : Http.Call InitRecordingResponse :=
  Http.mkCall Http.Init
    (Http.mkRequest "POST"
       (apiBaseUrl SETTINGS ++ "/api/recordings/init")
       [("Content-Type", "application/json")]%string
       (Some (stringify payload)))
    (fun response =>
       if negb (Http.ok response) then handleError response
       else parseJson response (initRecordingResponseSchema parsesAsUrl)).

Definition markUploadComplete (recordingId : string) : Http.Call unit :=
  Http.mkCall Http.Complete
    (Http.mkRequest "POST"
       (apiBaseUrl SETTINGS ++ "/api/recordings/" ++ recordingId ++ "/complete")
       [] None)
    (fun response =>
       if negb (Http.ok response) then handleError response
       else Return tt).

Definition fetchRecordingStatus (recordingId : string)
  : Http.Call RecordingStatusResponse :=
  Http.mkCall Http.GetStatus
    (Http.mkRequest "GET"
       (apiBaseUrl SETTINGS ++ "/api/recordings/" ++ recordingId)
       [] None)
    (fun response =>
       if negb (Http.ok response) then handleError response
       else parseJson response (recordingStatusSchema parsesAsUrl)).

End WithEnvironment.

End Client.

(* ===================================================================== *)
(** ** Upload transport ([src/upload/uploadVideo.ts]) *)
(* ===================================================================== *)

Module UploadVideo.

Record UploadParams : Type := mkUploadParams {
  fileUri : string;
  uploadUrl : string;
  headers : option (list (string * string));
  fileName : string;
  contentType : string;
  signal : bool;       (* whether an [AbortSignal] is passed *)
  onProgress : bool    (* whether a progress callback is passed *)
}.

(** The fields of a progress event that the transport reads. *)
Record ProgressEvent : Type := mkProgressEvent {
  lengthComputable : bool;
  loaded : Z;
  total : Z
}.

(** A call of [resolve] or of [reject]. *)
Inductive Settlement : Type :=
| Resolved
| Rejected (e : Exn).

(** The variables of the promise executor: the [settled] flag, the calls
    made to [resolve] and [reject] so far, and the values passed to
    [onProgress] so far (both oldest first). *)
Record Closure : Type := mkClosure {
  settled : bool;
  settlements : list Settlement;
  reported : list Q
}.

Definition settle (s : Settlement) (c : Closure) : Closure :=
  mkClosure true (settlements c ++ [s]) (reported c).

Definition rejectOnce (error : Exn) (c : Closure) : Closure :=
  if settled c then c else settle (Rejected error) c.

Definition onload (status : Z) (c : Closure) : Closure :=
  if settled c then c
  else if (200 <=? status) && (status <? 300) then settle Resolved c
  else settle (Rejected (Error ("Upload failed with status "
                                  ++ string_of_Z status))) c.

Definition onerror : Closure -> Closure :=
  rejectOnce (Error "Network error during upload").

Definition onabort : Closure -> Closure :=
  rejectOnce (DOMException "Upload aborted" "AbortError").

(** [event.total > 0 ? event.loaded / event.total : 0] *)
Definition fraction (event : ProgressEvent) : Q :=
  if 0 <? total event then inject_Z (loaded event) / inject_Z (total event)
  else 0%Q.

(** What [xhr.upload.onprogress] passes to [onProgress], if it calls it. *)
Definition emitted (params : UploadParams) (event : ProgressEvent) : option Q :=
  if lengthComputable event && onProgress params then Some (fraction event)
  else None.

Definition onprogress (params : UploadParams) (event : ProgressEvent)
           (c : Closure) : Closure :=
  match emitted params event with
  | Some progress =>
      mkClosure (settled c) (settlements c) (reported c ++ [progress])
  | None => c
  end.

(** The callbacks that the executor installs, and the [catch] around
    [xhr.send]. *)
Inductive Callback : Type :=
| OnLoad (status : Z)
| OnError
| OnAbort
| OnProgress (event : ProgressEvent)
| SendThrew (err : Exn).

Definition invoke (params : UploadParams) (cb : Callback) (c : Closure)
  : Closure :=
  match cb with
  | OnLoad status => onload status c
  | OnError => onerror c
  | OnAbort => onabort c
  | OnProgress event => onprogress params event c
  | SendThrew err => rejectOnce err c
  end.

(** The state of the promise: what the first call of [resolve] or
    [reject] delivered, [None] while pending. *)
Definition promise (c : Closure) : option Settlement :=
  hd_error (settlements c).

(** The request handed to the platform: [open('PUT', uploadUrl)], the
    caller's headers, then [Content-Type], and the file as body. *)
Record XhrRequest : Type := mkXhrRequest {
  xhr_method : string;
  xhr_url : string;
  xhr_headers : list (string * string);
  xhr_body : string * string * string   (* uri, type, name *)
}.

Definition request_of (params : UploadParams) : XhrRequest :=
  mkXhrRequest "PUT" (uploadUrl params)
    (match headers params with Some h => h | None => [] end
       ++ [("Content-Type", contentType params)])
    (fileUri params, contentType params, fileName params).

(** The part of the [XMLHttpRequest] that the transport reads. *)
Inductive ReadyState : Type := UNSENT | OPENED | DONE.

Record Xhr : Type := mkXhr {
  readyState : ReadyState;
  closure : Closure
}.

(** What happens to the request after [send]: the platform reports a
    response, a transport failure or upload progress, or the caller's
    signal is aborted. *)
Inductive XhrEvent : Type :=
| Load (status : Z)
| NetworkError
| Progress (event : ProgressEvent)
| SignalAbort.

Definition is_done (r : ReadyState) : bool :=
  match r with DONE => true | _ => false end.

(** Delivery of one event.  On [SignalAbort] the listener of the signal
    runs, if a signal was passed: unless the request is done it calls
    [xhr.abort()], which fires the abort event. *)
Definition deliver (params : UploadParams) (ev : XhrEvent) (x : Xhr) : Xhr :=
  match ev with
  | Load status => mkXhr DONE (invoke params (OnLoad status) (closure x))
  | NetworkError => mkXhr DONE (invoke params OnError (closure x))
  | Progress event =>
      mkXhr (readyState x) (invoke params (OnProgress event) (closure x))
  | SignalAbort =>
      if signal params && negb (is_done (readyState x))
      then mkXhr UNSENT (invoke params OnAbort (closure x))
      else x
  end.

(** The executor up to and including [xhr.send]; [sendThrows] is the
    exception that [send] raises, if it raises one. *)
Definition started (params : UploadParams) (sendThrows : option Exn) : Xhr :=
  let fresh := mkClosure false [] [] in
  match sendThrows with
  | Some err => mkXhr OPENED (invoke params (SendThrew err) fresh)
  | None => mkXhr OPENED fresh
  end.

(** One transfer attempt: the executor, then the events in order. *)
Definition uploadVideo (params : UploadParams) (sendThrows : option Exn)
           (events : list XhrEvent) : Xhr :=
  fold_left (fun x ev => deliver params ev x) events
            (started params sendThrows).

End UploadVideo.

(* ===================================================================== *)
(** ** Upload screen ([UploadScreen], route [/upload]) *)
(* ===================================================================== *)

Module UploadScreen.
Import UploadVideo.

(** [type UploadState = 'idle' | 'init' | 'uploading' | 'notifying' | 'done'
    | 'error'] *)
Inductive UploadState : Type :=
| S_idle | S_init | S_uploading | S_notifying | S_done | S_error.

(** The React state of the screen, and whether [abortRef.current] holds the
    controller of the running transfer. *)
Record Screen : Type := mkScreen {
  progress : Q;
  state : UploadState;
  error : option string;
  recordingId : option string;
  abortRef : bool
}.

(** What the screen asks of the outside, in order. *)
Inductive Action : Type :=
| GetInfoAsync (uri : string)
| Fetch (endpoint : Http.Endpoint) (request : Http.Request)
| XhrSend (request : XhrRequest)
| RouterReplace (pathname : string) (recordingId : string)
| ConsoleError (err : Exn).

Record World : Type := mkWorld {
  screen : Screen;
  actions : list Action
}.

(** An asynchronous function either completes, throws, or stays suspended
    at an [await] whose promise never settles. *)
Inductive Step (A : Type) : Type :=
| Done (a : A)
| Raised (e : Exn)
| Pending.
Arguments Done {A} a.
Arguments Raised {A} e.
Arguments Pending {A}.

Definition Flow (A : Type) : Type := World -> Step A * World.

Definition ret {A} (a : A) : Flow A := fun w => (Done a, w).

Definition throw {A} (e : Exn) : Flow A := fun w => (Raised e, w).

Definition bind {A B} (m : Flow A) (k : A -> Flow B) : Flow B :=
  fun w =>
    match m w with
    | (Done a, w') => k a w'
    | (Raised e, w') => (Raised e, w')
    | (Pending, w') => (Pending, w')
    end.

Definition tryCatch {A} (body : Flow A) (handler : Exn -> Flow A) : Flow A :=
  fun w =>
    match body w with
    | (Raised e, w') => handler e w'
    | other => other
    end.

Definition update (f : Screen -> Screen) : Flow unit :=
  fun w => (Done tt, mkWorld (f (screen w)) (actions w)).

Definition perform (a : Action) : Flow unit :=
  fun w => (Done tt, mkWorld (screen w) (actions w ++ [a])).

(** A promise that the flow awaits: it settles, with a value or an
    exception, or it stays pending for good. *)
Inductive Awaited (A : Type) : Type :=
| Settled (r : JsResult A)
| Unsettled.
Arguments Settled {A} r.
Arguments Unsettled {A}.

(** [await]: the function resumes with the value, throws the exception,
    or stays suspended. *)
Definition await {A} (promise : Awaited A) : Flow A :=
  match promise with
  | Settled (Return a) => ret a
  | Settled (Throw e) => throw e
  | Unsettled => fun w => (Pending, w)
  end.

Definition with_progress (v : Q) (s : Screen) : Screen :=
  mkScreen v (state s) (error s) (recordingId s) (abortRef s).
Definition with_state (v : UploadState) (s : Screen) : Screen :=
  mkScreen (progress s) v (error s) (recordingId s) (abortRef s).
Definition with_error (v : option string) (s : Screen) : Screen :=
  mkScreen (progress s) (state s) v (recordingId s) (abortRef s).
Definition with_recordingId (v : option string) (s : Screen) : Screen :=
  mkScreen (progress s) (state s) (error s) v (abortRef s).
Definition with_abortRef (v : bool) (s : Screen) : Screen :=
  mkScreen (progress s) (state s) (error s) (recordingId s) v.

Definition setProgress (v : Q) : Flow unit := update (with_progress v).
Definition setState (v : UploadState) : Flow unit := update (with_state v).
Definition setError (v : option string) : Flow unit := update (with_error v).
Definition setRecordingId (v : option string) : Flow unit :=
  update (with_recordingId v).

Declare Scope flow_scope.
Delimit Scope flow_scope with flow.
Notation "x <- c ;; k" := (bind c (fun x => k))
  (at level 61, c at next level, right associativity) : flow_scope.
Notation "c >> k" := (bind c (fun _ => k))
  (at level 61, right associativity) : flow_scope.

(** What [FileSystem.getInfoAsync(uri, { size: true })] resolves to. *)
Record FileInfo : Type := mkFileInfo {
  exists_ : bool;
  size : option Z
}.

(** The size when [!info.exists || !info.size] is false. *)
Definition readable_size (info : FileInfo) : option Z :=
  if exists_ info then
    match size info with
    | Some n => if n =? 0 then None else Some n
    | None => None
    end
  else None.

(** [uri.split('/').pop()], with [acc] the segment read so far. *)
Fixpoint last_segment (uri acc : string) : string :=
  match uri with
  | EmptyString => acc
  | String c rest =>
      if Ascii.eqb c "/" then last_segment rest ""
      else last_segment rest (acc ++ String c "")
  end.

(** [a || b] on strings. *)
Definition or_else (a b : string) : string :=
  if truthy_string a then a else b.

(** What reaches the screen while the transfer is awaited: an event of the
    request, or a press on "Cancel Upload". *)
Inductive UploadEvent : Type :=
| FromXhr (ev : XhrEvent)
| CancelPressed.

(** What the screen is given: the route parameters already converted
    ([videoUri], [durationSec], [markers]), the settings, and, of the
    schema library, the URL parser behind the schemas and the rendering
    of the message of a validation error. *)
Record Props : Type := mkProps {
  videoUri : string;
  durationSec : option number;
  markers : list number;
  SETTINGS : Client.Settings;
  parsesAsUrl : string -> bool;
  zodMessage : list ZodIssue -> string
}.

(** What the outside answers during one run.  The file inspection and
    the two calls of the client are awaited without a time limit: each
    settles, or never does ([None] for a call that gets no answer, or
    whose body never arrives). *)
Record Environment : Type := mkEnvironment {
  fileInfo : Awaited FileInfo;
  initOutcome : option Http.FetchOutcome;
  sendThrows : option Exn;
  uploadEvents : list UploadEvent;
  completeOutcome : option Http.FetchOutcome
}.

(** The promise of a call of the client, once its request is made. *)
Definition call_result {T} (c : Http.Call T) (o : option Http.FetchOutcome)
  : Awaited T :=
  match o with
  | Some outcome => Settled (Http.complete c outcome)
  | None => Unsettled
  end.

(** A mutation runs its function once: request, then result. *)
Definition mutateAsync {T} (c : Http.Call T) (o : option Http.FetchOutcome)
  : Flow T :=
  (perform (Fetch (Http.endpoint c) (Http.request c)) >>
   await (call_result c o))%flow.

(** [handleCancel] *)
Definition handleCancel (params : UploadParams) (x : Xhr) (s : Screen)
  : Xhr * Screen :=
  let x' := if abortRef s then deliver params SignalAbort x else x in
  (x', with_state S_error (with_error (Some "Upload cancelled.") s)).

(** One event while [uploadVideo] is awaited.  A progress event that the
    transport forwards runs the screen's [onProgress], which is
    [setProgress]. *)
Definition receive (params : UploadParams) (ev : UploadEvent) (x : Xhr)
           (s : Screen) : Xhr * Screen :=
  match ev with
  | FromXhr (Progress event) =>
      (deliver params (Progress event) x,
       match emitted params event with
       | Some value => with_progress value s
       | None => s
       end)
  | FromXhr other => (deliver params other x, s)
  | CancelPressed => handleCancel params x s
  end.

(** [await uploadVideo(...)]: events are received until the promise
    settles; the function then resumes, or stays suspended when the events
    end first. *)
Fixpoint awaiting (params : UploadParams) (events : list UploadEvent)
         (x : Xhr) : Flow unit :=
  fun w =>
    match promise (closure x) with
    | Some Resolved => (Done tt, w)
    | Some (Rejected e) => (Raised e, w)
    | None =>
        match events with
        | [] => (Pending, w)
        | ev :: rest =>
            let (x', s') := receive params ev x (screen w) in
            awaiting params rest x' (mkWorld s' (actions w))
        end
    end.

Definition awaitUploadVideo (params : UploadParams) (env : Environment)
  : Flow unit :=
  (perform (XhrSend (request_of params)) >>
   awaiting params (uploadEvents env) (started params (sendThrows env)))%flow.

(** The init request that [startUploadFlow] builds. *)
Definition initPayload (p : Props) (fileName : string) (size : Z)
  : Client.InitRecordingRequest :=
  Client.mkInitRecordingRequest
    fileName
    (Client.uploadContentType (SETTINGS p))
    size
    (match durationSec p with
     | Some d => if truthy_number d then Some (Math_round d) else None
     | None => None
     end)
    (match markers p with
     | [] => None
     | _ :: _ => Some (markers p)
     end).

Definition startUploadFlow (p : Props) (env : Environment) : Flow unit :=
  if negb (truthy_string (videoUri p)) then
    (setError (Some "Missing video to upload.") >> setState S_error)%flow
  else
    tryCatch
      (setError None >>
       setProgress 0 >>
       setState S_init >>
       perform (GetInfoAsync (videoUri p)) >>
       info <- await (fileInfo env) ;;
       match readable_size info with
       | None => throw (Error "Could not read video file.")
       | Some size =>
           let fileName :=
             or_else (last_segment (videoUri p) "") "recording.mp4" in
           initResponse <- mutateAsync
                             (Client.initRecording (parsesAsUrl p) (SETTINGS p)
                                (initPayload p fileName size))
                             (initOutcome env) ;;
           setRecordingId (Some (Schemas.recordingId initResponse)) >>
           setState S_uploading >>
           update (with_abortRef true) >>
           awaitUploadVideo
             (mkUploadParams (videoUri p)
                (Schemas.uploadUrl initResponse)
                (Schemas.headers initResponse)
                fileName
                (Client.uploadContentType (SETTINGS p))
                true true)
             env >>
           setState S_notifying >>
           mutateAsync
             (Client.markUploadComplete (SETTINGS p)
                (Schemas.recordingId initResponse))
             (completeOutcome env) >>
           setState S_done >>
           perform (RouterReplace "/result" (Schemas.recordingId initResponse))
       end)%flow
      (fun err =>
         perform (ConsoleError err) >>
         setError (Some (if instanceofError err
                         then message_of (zodMessage p) err
                         else "Upload failed.")) >>
         setState S_error)%flow.

(** The screen when it mounts. *)
Definition mounted : Screen := mkScreen 0 S_idle None None false.

(** One run of the flow, started on the screen [s0]: the mounted screen
    for the run that the effect starts, the screen left by the run before
    for a run started with "Retry". *)
Definition run (s0 : Screen) (p : Props) (env : Environment)
  : Step unit * World :=
  startUploadFlow p env (mkWorld s0 []).

(** The requests of a run, by kind. *)
Inductive RequestKind : Type := InitRequest | UploadTransfer | CompleteCall.

Definition request_kind (a : Action) : option RequestKind :=
  match a with
  | Fetch Http.Init _ => Some InitRequest
  | Fetch Http.Complete _ => Some CompleteCall
  | XhrSend _ => Some UploadTransfer
  | _ => None
  end.

Fixpoint requests (l : list Action) : list RequestKind :=
  match l with
  | [] => []
  | a :: rest =>
      match request_kind a with
      | Some k => k :: requests rest
      | None => requests rest
      end
  end.

End UploadScreen.

(* ===================================================================== *)
(** ** Result screen ([ResultScreen], route [/result]) *)
(* ===================================================================== *)

Module ResultScreen.
Import Schemas.

(** What the query library hands to the callback of [refetchInterval]:
    the data of the query, [undefined] until a fetch has succeeded, or the
    query object.  Which of the two depends on the version of the library,
    which the repository does not fix: [@tanstack/react-query] 4 calls
    [refetchInterval(data, query)], version 5 calls
    [refetchInterval(query)]. *)
Inductive CallbackArgument : Type :=
| TheData (queryData : option RecordingStatusResponse)
| TheQuery.

Inductive Library : Type :=
| PassesData
| PassesQuery.

Definition argument (library : Library)
           (queryData : option RecordingStatusResponse) : CallbackArgument :=
  match library with
  | PassesData => TheData queryData
  | PassesQuery => TheQuery
  end.

Section WithEnvironment.

Variable parsesAsUrl : string -> bool.
Variable SETTINGS : Client.Settings.

(** The route parameter, [''] when it is not a string. *)
Variable recordingId : string.

(** [queryData.status === 'COMPLETED' || queryData.status === 'FAILED'] *)
Definition terminal (queryData : RecordingStatusResponse) : bool :=
  match status queryData with
  | COMPLETED | FAILED => true
  | _ => false
  end.

(** The [refetchInterval] option of the query; [None] is [false].  The
    callback tests its argument for falsiness and reads its [status].  A
    query object is truthy, and the status it has, where it has one, is
    the state of the fetch, never ['COMPLETED'] or ['FAILED']. *)
Definition refetchInterval (queryData : CallbackArgument) : option Z :=
  match queryData with
  | TheData None => Some (Client.pollIntervalMs SETTINGS)
  | TheData (Some d) =>
      if terminal d then None else Some (Client.pollIntervalMs SETTINGS)
  | TheQuery => Some (Client.pollIntervalMs SETTINGS)
  end.

(** [queryFn] *)
Definition queryFn : Http.Call RecordingStatusResponse :=
  Client.fetchRecordingStatus parsesAsUrl SETTINGS recordingId.

(** [enabled: !!recordingId] *)
Definition enabled : bool := truthy_string recordingId.

(** The query as the screen observes it: the data of the last fetch that
    succeeded, whether the last fetch failed, the requests issued so far
    (oldest first), and whether a further fetch is scheduled.

    The scheduling itself is done by the query library, outside the
    repository.  It is modelled on the contract of its [refetchInterval]
    option: when a fetch ends, the data is replaced if the fetch
    succeeded and kept if it failed, the callback is asked, with the
    argument that the library passes, and a next fetch is scheduled
    exactly when the callback answers a positive number of
    milliseconds. *)
Record Query : Type := mkQuery {
  data : option RecordingStatusResponse;
  isError : bool;
  issued : list Http.Request;
  scheduled : bool
}.

Definition schedules (interval : option Z) : bool :=
  match interval with
  | Some ms => 0 <? ms
  | None => false
  end.

(** The query library in use. *)
Variable library : Library.

(** The end of one fetch. *)
Definition received (o : Http.FetchOutcome) (q : Query) : Query :=
  let result := Http.complete queryFn o in
  let data' := match result with Return d => Some d | Throw _ => data q end in
  let failed := match result with Return _ => false | Throw _ => true end in
  let again := schedules (refetchInterval (argument library data')) in
  mkQuery data' failed
          (issued q ++ (if again then [Http.request queryFn] else []))
          again.

(** The query when the screen mounts: the first fetch is issued at once
    when the query is enabled. *)
Definition mounted : Query :=
  if enabled then mkQuery None false [Http.request queryFn] true
  else mkQuery None false [] false.

(** The outcomes of the fetches, in the order in which they end; they are
    consumed as long as a fetch is outstanding. *)
Fixpoint polling (outcomes : list Http.FetchOutcome) (q : Query) : Query :=
  match outcomes with
  | [] => q
  | o :: rest => if scheduled q then polling rest (received o q) else q
  end.

Definition poll (outcomes : list Http.FetchOutcome) : Query :=
  polling outcomes mounted.

End WithEnvironment.

End ResultScreen.

(* ===================================================================== *)
(** ** Route parameters of the upload and result screens *)
(* ===================================================================== *)

Module Route.
Import Params.

(** A route parameter as a value: a string, or an array of strings. *)
Definition value_of (raw : RawParam) : option Json :=
  match raw with
  | Undefined => None
  | Single s => Some (JStr s)
  | Many l => Some (JArr (map JStr l))
  end.

(** [typeof param === 'string' ? param : ''], as the screens read [uri]
    and [recordingId]. *)
Definition string_or_empty (raw : RawParam) : string :=
  match raw with
  | Single s => s
  | _ => ""
  end.

(** What [useLocalSearchParams] gives the upload screen. *)
Record UploadRoute : Type := mkUploadRoute {
  uri : RawParam;
  duration : RawParam;
  markers : RawParam
}.

Section WithBuiltins.

Variable JSON_parse : string -> JsResult Json.
Variable ToNumber : Json -> number.

(** [params.duration ? Number(params.duration) : undefined].  The
    parameter is a string or an array of strings, whose conversion does
    not throw. *)
Definition durationSec_of (raw : RawParam) : option number :=
  if falsy raw then None
  else match value_of raw with
       | Some v =>
           match Number ToNumber v with
           | Return n => Some n
           | Throw _ => None
           end
       | None => None
       end.

(** [parseMarkersParam(params.markers)] *)
Definition markers_of (raw : RawParam) : JsResult (list number) :=
  parseMarkersParam JSON_parse ToNumber raw.

(** The values that [UploadScreen] derives from its route parameters
    before the flow runs: [videoUri], [durationSec] and [markers]. *)
Definition upload_props (settings : Client.Settings)
           (parsesAsUrl : string -> bool)
           (zodMessage : list ZodIssue -> string) (route : UploadRoute)
  : UploadScreen.Props :=
  UploadScreen.mkProps
    (string_or_empty (uri route))
    (durationSec_of (duration route))
    (match markers_of (markers route) with
     | Return l => l
     | Throw _ => []
     end)
    settings parsesAsUrl zodMessage.

End WithBuiltins.

End Route.

(* ===================================================================== *)
(** ** Record screen ([RecordScreen], route [/]) *)
(* ===================================================================== *)

Module RecordScreen.

(** [s.padStart(targetLength, pad)] for a pad of one character. *)
Fixpoint repeat_char (pad : ascii) (n : nat) : string :=
  match n with
  | O => EmptyString
  | S m => String pad (repeat_char pad m)
  end.

Definition padStart (targetLength : nat) (pad : ascii) (s : string) : string :=
  (repeat_char pad (targetLength - String.length s) ++ s)%string.

(** [formatTime] on a whole number of seconds: [Math.floor(seconds / 60)]
    is the quotient rounded down and [seconds % 60] the remainder with the
    sign of [seconds]. *)
Definition formatTime (seconds : Z) : string :=
  let mins := padStart 2 "0" (string_of_Z (seconds / 60)) in
  let secs := padStart 2 "0" (string_of_Z (Z.rem seconds 60)) in
  (mins ++ ":" ++ secs)%string.

(** The React state of the screen and the reference [startTimeRef]. *)
Record Screen : Type := mkScreen {
  isRecording : bool;
  elapsedSec : Z;
  markers : list Z;
  permissionError : option string;
  recordingError : option string;
  startTimeRef : option Z
}.

(** The parameters of the route [/preview]. *)
Record PreviewParams : Type := mkPreviewParams {
  uri : string;
  duration : string;
  markers_json : Json   (* the value that [JSON.stringify(markers)] writes *)
}.

Section WithSettings.

(** [SETTINGS.maxDurationSec] *)
Variable maxDurationSec : Z.

(** [!startTimeRef.current]: [null] and 0 are falsy. *)
Definition started_at (s : Screen) : option Z :=
  match startTimeRef s with
  | Some t => if t =? 0 then None else Some t
  | None => None
  end.

(** [Math.min(SETTINGS.maxDurationSec, Math.floor((now - start) / 1000))] *)
Definition elapsed (now start : Z) : Z :=
  Z.min maxDurationSec ((now - start) / 1000).

(** [Math.min(SETTINGS.maxDurationSec, Math.round((now - start) / 1000))] *)
Definition rounded (now start : Z) : Z :=
  Z.min maxDurationSec ((now - start + 500) / 1000).

(** The callback of the timer, which runs while [isRecording]. *)
Definition tick (now : Z) (s : Screen) : Screen :=
  match started_at s with
  | Some start =>
      mkScreen (isRecording s) (elapsed now start) (markers s)
               (permissionError s) (recordingError s) (startTimeRef s)
  | None => s
  end.

Definition markStep (now : Z) (s : Screen) : Screen :=
  if negb (isRecording s) then s
  else match started_at s with
       | None => s
       | Some start =>
           mkScreen (isRecording s) (elapsedSec s)
                    (markers s ++ [elapsed now start])
                    (permissionError s) (recordingError s) (startTimeRef s)
       end.

(** [handleRecordingFinished], with [closed] the [markers] of the render
    whose handler was given to the camera. *)
Definition handleRecordingFinished (closed : list Z) (video : option string)
           (now : Z) (s : Screen) : Screen * option PreviewParams :=
  let durationSec :=
    match startTimeRef s with
    | Some start => rounded now start
    | None => 0
    end in
  let s' := mkScreen false (elapsedSec s) (markers s) (permissionError s)
                     (recordingError s) None in
  match video with
  | Some u =>
      if truthy_string u
      then (s', Some (mkPreviewParams u (string_of_Z durationSec)
                        (JArr (map (fun m => JNum (inject_Z m)) closed))))
      else (mkScreen false (elapsedSec s) (markers s) (permissionError s)
                     (Some "No video captured. Please try again.") None,
            None)
  | None =>
      (mkScreen false (elapsedSec s) (markers s) (permissionError s)
                (Some "No video captured. Please try again.") None,
       None)
  end.

Definition handleRecordingError (s : Screen) : Screen :=
  mkScreen false (elapsedSec s) (markers s) (permissionError s)
           (Some "Recording failed. Please try again.") None.

(** [startRecording] up to the call of the camera: [permissionsGranted]
    and whether [cameraRef.current] is set are given. *)
Definition startRecording (permissionsGranted cameraReady : bool) (now : Z)
           (s : Screen) : Screen :=
  if negb permissionsGranted then
    mkScreen (isRecording s) (elapsedSec s) (markers s)
             (Some "Camera and microphone permissions are required.")
             (recordingError s) (startTimeRef s)
  else if negb cameraReady then
    mkScreen (isRecording s) (elapsedSec s) (markers s) (permissionError s)
             (Some "Camera not ready yet.") (startTimeRef s)
  else mkScreen true 0 [] None None (Some now).

(** The effect on [isRecording]: when it is false the elapsed time is set
    to 0. *)
Definition recordingEffect (s : Screen) : Screen :=
  if isRecording s then s
  else mkScreen false 0 (markers s) (permissionError s) (recordingError s)
                (startTimeRef s).

End WithSettings.

End RecordScreen.

(* ===================================================================== *)
(** ** Vocabulary of the properties *)
(* ===================================================================== *)

Import Schemas UploadVideo.

(** The closure before any callback has run. *)
Definition fresh : Closure := mkClosure false [] [].

(** The callbacks run in the given order. *)
Definition invoke_all (params : UploadParams) (cbs : list Callback)
           (c : Closure) : Closure :=
  fold_left (fun c cb => invoke params cb c) cbs c.

(** The events delivered in the given order. *)
Definition deliver_all (params : UploadParams) (events : list XhrEvent)
           (x : Xhr) : Xhr :=
  fold_left (fun x ev => deliver params ev x) events x.

(** The callbacks that settle the promise: all but the progress callback. *)
Definition settles (cb : Callback) : bool :=
  match cb with
  | OnProgress _ => false
  | _ => true
  end.

(** The text of the error for a response with a status outside 2xx. *)
Definition rejected_by_server (status : Z) : Exn :=
  Error ("Upload failed with status " ++ string_of_Z status).

Definition network_failure : Exn := Error "Network error during upload".

Definition cancelled : Exn := DOMException "Upload aborted" "AbortError".

Definition success_status (status : Z) : bool :=
  (200 <=? status) && (status <? 300).

(** The settlement of a transfer, [None] while it is pending. *)
Definition outcome (x : Xhr) : option Settlement := promise (closure x).

(** The fractions passed to [onProgress] during a transfer. *)
Definition fractions (x : Xhr) : list Q := reported (closure x).

Definition within_unit (v : Q) : Prop := (0 <= v /\ v <= 1)%Q.

Fixpoint nondecreasing (l : list Q) : Prop :=
  match l with
  | [] => True
  | a :: rest =>
      match rest with
      | [] => True
      | b :: _ => (a <= b)%Q /\ nondecreasing rest
      end
  end.

(** The progress events among the events of a transfer whose total is
    known ([lengthComputable]). *)
Fixpoint computable (events : list XhrEvent) : list ProgressEvent :=
  match events with
  | [] => []
  | Progress event :: rest =>
      if lengthComputable event then event :: computable rest
      else computable rest
  | _ :: rest => computable rest
  end.

(** Progress events as a transport reports them for one body: the bytes
    sent lie between 0 and the total, never go back, and the total does not
    change. *)
Fixpoint orderly (l : list ProgressEvent) : bool :=
  match l with
  | [] => true
  | a :: rest =>
      (0 <=? loaded a) && (loaded a <=? total a)
      && match rest with
         | [] => true
         | b :: _ => (loaded a <=? loaded b) && (total a =? total b)
         end
      && orderly rest
  end.

(** The last progress event with a known total reports the whole body as
    sent. *)
Definition ends_complete (l : list ProgressEvent) : bool :=
  match rev l with
  | [] => false
  | z :: _ => (0 <? total z) && (loaded z =? total z)
  end.

(** The progress property as the specification words it, for the events of
    one transfer with a progress callback: every fraction is in [0,1], the
    fractions never decrease, each is bytes sent over total, and, when the
    transfer succeeds and a total was known, the last one is 1. *)
Definition progress_as_stated (params : UploadParams)
           (events : list XhrEvent) : Prop :=
  let x := uploadVideo params None events in
  Forall within_unit (fractions x)
  /\ nondecreasing (fractions x)
  /\ fractions x
     = map (fun e => (inject_Z (loaded e) / inject_Z (total e))%Q)
           (computable events)
  /\ (outcome x = Some Resolved -> computable events <> [] ->
      exists v, last (map Some (fractions x)) None = Some v /\ (v == 1)%Q).

(** A transfer of the upload screen: signal and progress callback passed. *)
Definition sample_params : UploadParams :=
  mkUploadParams "file:///clips/a.mp4" "https://x/r1" None "a.mp4"
                 "video/mp4" true true.

Import UploadScreen.

(** The events that end the wait for the transfer: all but progress. *)
Definition decisive (ev : UploadEvent) : bool :=
  match ev with
  | FromXhr (Progress _) => false
  | _ => true
  end.

(** How a pending transfer of the screen ends on a decisive event. *)
Definition verdict (ev : UploadEvent) : Step unit :=
  match ev with
  | FromXhr (Load st) =>
      if success_status st then Done tt else Raised (rejected_by_server st)
  | FromXhr NetworkError => Raised network_failure
  | FromXhr SignalAbort => Raised cancelled
  | CancelPressed => Raised cancelled
  | FromXhr (Progress _) => Pending
  end.

(** How the transfer of a run ends, read off the environment: [send]
    throws, or the first decisive event decides, or the transfer stays
    pending. *)
Definition transfer_result (env : Environment) : Step unit :=
  match sendThrows env with
  | Some err => Raised err
  | None =>
      match find decisive (uploadEvents env) with
      | Some ev => verdict ev
      | None => Pending
      end
  end.

Definition transfer_fails (env : Environment) : bool :=
  match transfer_result env with
  | Raised _ => true
  | _ => false
  end.

(** The user cancels while the transfer is in flight: [send] did not
    throw, and the first decisive event is the press on "Cancel Upload". *)
Definition cancelled_in_flight (env : Environment) : bool :=
  match sendThrows env, find decisive (uploadEvents env) with
  | None, Some CancelPressed => true
  | _, _ => false
  end.

(** The lifecycle states of the specification (section 3). *)
Inductive LifecycleState : Type :=
| Idle | Initializing | Uploading | Notifying | Polling | Completed
| Failed | Cancelled.

(** The states of the screen read as lifecycle states: ['done'] is the
    hand-over to the result screen, which polls; ['error'] is the failed
    state. *)
Definition lifecycleState (s : UploadState) : LifecycleState :=
  match s with
  | S_idle => Idle
  | S_init => Initializing
  | S_uploading => Uploading
  | S_notifying => Notifying
  | S_done => Polling
  | S_error => Failed
  end.

(** A number other than zero ([NaN] is no number). *)
Definition nonzero_number (n : number) : Prop :=
  match n with
  | NaN => False
  | Fin q => ~ (q == 0)%Q
  | _ => True
  end.

(** A URL parser for the examples: it accepts the texts that start with
    ["https://"] and go on. *)
Definition https_prefixed (s : string) : bool :=
  String.eqb (substring 0 8 s) "https://" && (8 <? String.length s)%nat.

Definition sample_settings : Client.Settings :=
  Client.mkSettings "https://api.example" "video/mp4" 3000.

(** A rendering of validation errors for the examples: the number of
    issues. *)
Definition counted_issues (issues : list ZodIssue) : string :=
  "Invalid response: " ++ string_of_Z (Z.of_nat (List.length issues))
    ++ " issue(s)".

Definition sample_props : Props :=
  mkProps "file:///clips/a.mp4" (Some (Fin (12 # 1))) [Fin (3 # 1); Fin (8 # 1)]
          sample_settings https_prefixed counted_issues.

(** A response with the given status whose body is the JSON value [j]. *)
Definition json_response (st : Z) (j : Json) : Http.FetchOutcome :=
  Http.Responded (Http.mkResponse st (Return "") (Return j)).

Definition sample_init_body : Json :=
  JObj [("recordingId", JStr "r1"); ("uploadUrl", JStr "https://x/r1")].

Definition sample_file : Awaited FileInfo :=
  Settled (Return (mkFileInfo true (Some 1024))).

(** The upload answers with status 500. *)
Definition env_upload_500 : Environment :=
  mkEnvironment sample_file (Some (json_response 200 sample_init_body)) None
    [FromXhr (Progress (mkProgressEvent true 512 1024)); FromXhr (Load 500)]
    (Some (json_response 200 JNull)).

(** The user presses "Cancel Upload" during the transfer. *)
Definition env_cancel : Environment :=
  mkEnvironment sample_file (Some (json_response 200 sample_init_body)) None
    [FromXhr (Progress (mkProgressEvent true 512 1024)); CancelPressed]
    (Some (json_response 200 JNull)).

(** Everything succeeds, with three progress reports on the way. *)
Definition env_success : Environment :=
  mkEnvironment sample_file (Some (json_response 200 sample_init_body)) None
    [FromXhr (Progress (mkProgressEvent true 3 10));
     FromXhr (Progress (mkProgressEvent true 7 10));
     FromXhr (Progress (mkProgressEvent true 10 10));
     FromXhr (Load 200)]
    (Some (json_response 200 JNull)).

(** The final world of a run. *)
Definition final (s0 : Screen) (p : Props) (env : Environment) : World :=
  snd (run s0 p env).

(** The cancellation property as the specification words it: when the user
    cancels while the transfer is in flight, the transfer ends with the
    cancelled outcome, the screen ends in the [Cancelled] state, and no
    completion call is made. *)
Definition cancel_as_stated (s0 : Screen) (p : Props) (env : Environment)
  : Prop :=
  In UploadTransfer (requests (actions (final s0 p env))) ->
  cancelled_in_flight env = true ->
  transfer_result env = Raised cancelled
  /\ lifecycleState (state (screen (final s0 p env))) = Cancelled
  /\ ~ In CompleteCall (requests (actions (final s0 p env))).

(** *** The structural shape of the responses (specification, sections 3
    and 6): which properties an object has and of which type each is. *)

Definition is_valid {A} (p : Parsed A) : bool :=
  match p with Valid _ => true | Invalid _ => false end.

(** A failed validation reports at least one issue. *)
Definition reports {A} (p : Parsed A) : Prop :=
  is_valid p = false -> issues_of p <> [].

Definition is_string (v : option Json) : bool :=
  match v with Some (JStr _) => true | _ => false end.

Definition is_number (v : option Json) : bool :=
  match v with Some (JNum _) => true | _ => false end.

(** An optional property: absent, or of the given shape. *)
Definition absent_or (shape : option Json -> bool) (v : option Json) : bool :=
  match v with None => true | Some _ => shape v end.

Definition status_names : list string :=
  ["CREATED"; "UPLOADING"; "UPLOADED"; "PROCESSING"; "COMPLETED"; "FAILED"].

Definition is_status (v : option Json) : bool :=
  match v with
  | Some (JStr s) => existsb (String.eqb s) status_names
  | _ => false
  end.

(** A mapping of header name to value. *)
Definition is_header_map (v : option Json) : bool :=
  match v with
  | Some (JObj entries) => forallb (fun kv => is_string (Some (snd kv))) entries
  | _ => false
  end.

Section Shapes.

Variable parsesAsUrl : string -> bool.

Definition is_url (v : option Json) : bool :=
  match v with Some (JStr s) => parsesAsUrl s | _ => false end.

(** [{recordingId, uploadUrl, headers?}] *)
Definition init_response_shape (j : Json) : bool :=
  match j with
  | JObj o =>
      is_string (get "recordingId" o)
      && is_url (get "uploadUrl" o)
      && absent_or is_header_map (get "headers" o)
  | _ => false
  end.

(** [Evidence{ transcriptSnippet?, keyframeUrl? }] *)
Definition evidence_shape (v : option Json) : bool :=
  match v with
  | Some (JObj o) =>
      absent_or is_string (get "transcriptSnippet" o)
      && absent_or is_url (get "keyframeUrl" o)
  | _ => false
  end.

(** [Step]: index, startSec, endSec, title, description, optional
    evidence. *)
Definition step_shape (j : Json) : bool :=
  match j with
  | JObj o =>
      is_number (get "index" o)
      && is_number (get "startSec" o)
      && is_number (get "endSec" o)
      && is_string (get "title" o)
      && is_string (get "description" o)
      && absent_or evidence_shape (get "evidence" o)
  | _ => false
  end.

Definition is_step_list (v : option Json) : bool :=
  match v with
  | Some (JArr items) => forallb step_shape items
  | _ => false
  end.

(** [{recordingId, status, error?, steps?}] *)
Definition status_response_shape (j : Json) : bool :=
  match j with
  | JObj o =>
      is_string (get "recordingId" o)
      && is_status (get "status" o)
      && absent_or is_string (get "error" o)
      && absent_or is_step_list (get "steps" o)
  | _ => false
  end.

End Shapes.

Definition sample_payload : Client.InitRecordingRequest :=
  Client.mkInitRecordingRequest "a.mp4" "video/mp4" 1024 None None.

Definition empty_id_body : Json :=
  JObj [("recordingId", JStr ""); ("uploadUrl", JStr "https://x/r1")].

Definition missing_url_body : Json :=
  JObj [("recordingId", JStr "r1")].

(** The init property as the specification words it: a successful init
    for a request with a positive size yields a non-empty [recordingId] and
    an [uploadUrl] that parses as an absolute URL. *)
Definition init_as_stated (parsesAsUrl : string -> bool)
           (settings : Client.Settings)
           (payload : Client.InitRecordingRequest)
           (o : Http.FetchOutcome) : Prop :=
  0 < Client.sizeBytes payload ->
  forall r,
    Http.complete (Client.initRecording parsesAsUrl settings payload) o
    = Return r ->
    Schemas.recordingId r <> "" /\ parsesAsUrl (Schemas.uploadUrl r) = true.

(** *** The responses as section 3 of the specification describes them *)

Definition is_nonempty_string (v : option Json) : bool :=
  match v with
  | Some (JStr s) => truthy_string s
  | _ => false
  end.

Definition present (v : option Json) : bool :=
  match v with Some _ => true | None => false end.

Definition has_status (name : string) (v : option Json) : bool :=
  match v with
  | Some (JStr s) => String.eqb s name
  | _ => false
  end.

(** [InitResult]: a non-empty [recordingId], an absolute [uploadUrl],
    optional [headers]. *)
Definition section3_init_result (parsesAsUrl : string -> bool) (j : Json)
  : bool :=
  match j with
  | JObj o =>
      is_nonempty_string (get "recordingId" o)
      && is_url parsesAsUrl (get "uploadUrl" o)
      && absent_or is_header_map (get "headers" o)
  | _ => false
  end.

(** [RecordingStatus]: [recordingId], a [status] of the six, an optional
    [error] and optional steps, with the steps present exactly when the
    status is [COMPLETED] and the error exactly when it is [FAILED]. *)
Definition section3_recording_status (parsesAsUrl : string -> bool) (j : Json)
  : bool :=
  match j with
  | JObj o =>
      is_string (get "recordingId" o)
      && is_status (get "status" o)
      && absent_or is_string (get "error" o)
      && absent_or (is_step_list parsesAsUrl) (get "steps" o)
      && Bool.eqb (present (get "steps" o))
                  (has_status "COMPLETED" (get "status" o))
      && Bool.eqb (present (get "error" o))
                  (has_status "FAILED" (get "status" o))
  | _ => false
  end.

(** The validation property as the specification words it: a payload
    that does not fit the schema of section 3 makes the client function
    that receives it fail with the validation error. *)
Definition malformed_as_stated (parsesAsUrl : string -> bool)
           (settings : Client.Settings) (j : Json) : Prop :=
  (section3_init_result parsesAsUrl j = false ->
   forall payload, exists issues,
       Http.complete (Client.initRecording parsesAsUrl settings payload)
                     (json_response 200 j)
       = Throw (ZodError issues))
  /\ (section3_recording_status parsesAsUrl j = false ->
      forall id, exists issues,
          Http.complete (Client.fetchRecordingStatus parsesAsUrl settings id)
                        (json_response 200 j)
          = Throw (ZodError issues)).

(** A status response that says [COMPLETED] and carries no steps. *)
Definition completed_without_steps : Json :=
  JObj [("recordingId", JStr "r1"); ("status", JStr "COMPLETED")].

(** *** What a validation error tells *)

(** The properties that the schemas declare, each with the shape of its
    value. *)
Definition init_properties (parsesAsUrl : string -> bool)
  : list (string * (option Json -> bool)) :=
  [("recordingId", is_string);
   ("uploadUrl", is_url parsesAsUrl);
   ("headers", absent_or is_header_map)].

Definition status_properties (parsesAsUrl : string -> bool)
  : list (string * (option Json -> bool)) :=
  [("recordingId", is_string);
   ("status", is_status);
   ("error", absent_or is_string);
   ("steps", absent_or (is_step_list parsesAsUrl))].

(** The property [k] of the object [o] is declared and its value does
    not have the declared shape. *)
Definition lacks (properties : list (string * (option Json -> bool)))
           (o : list (string * Json)) (k : string) : Prop :=
  exists shape, In (k, shape) properties /\ shape (get k o) = false.

(** An issue whose path starts at the property [k]. *)
Definition under (k : string) (i : ZodIssue) : Prop :=
  hd_error (path i) = Some (Key k).

(** The issues locate the defects of the object: every property that
    lacks its shape has an issue at or under it, and every issue lies at
    or under such a property. *)
Definition locates (properties : list (string * (option Json -> bool)))
           (o : list (string * Json)) (issues : list ZodIssue) : Prop :=
  (forall k, lacks properties o k -> exists i, In i issues /\ under k i)
  /\ (forall i, In i issues -> exists k, lacks properties o k /\ under k i).

(** The issues of a schema lie at the validated path or below it. *)
Definition extends {A} (s : Schema A) : Prop :=
  forall p v i, In i (issues_of (s p v)) -> exists q, path i = (p ++ q)%list.

(** The issue for a value that is not of the expected type. *)
Definition type_issue (expected : string) (v : option Json)
           (p : list PathSeg) : ZodIssue :=
  mkIssue (invalid_type expected (typeName v)) p.

(** What the error of a rejected init response tells. *)
Definition init_detail (parsesAsUrl : string -> bool) (j : Json)
           (issues : list ZodIssue) : Prop :=
  match j with
  | JObj o =>
      locates (init_properties parsesAsUrl) o issues
      /\ (forall k, In k ["recordingId"; "uploadUrl"] ->
                    is_string (get k o) = false ->
                    In (type_issue "string" (get k o) [Key k]) issues)
      /\ (forall s, get "uploadUrl" o = Some (JStr s) ->
                    parsesAsUrl s = false ->
                    In (mkIssue invalid_string_url [Key "uploadUrl"]) issues)
  | _ => issues = [type_issue "object" (Some j) []]
  end.

(** What the error of a rejected status response tells. *)
Definition status_detail (parsesAsUrl : string -> bool) (j : Json)
           (issues : list ZodIssue) : Prop :=
  match j with
  | JObj o =>
      locates (status_properties parsesAsUrl) o issues
      /\ (is_string (get "recordingId" o) = false ->
          In (type_issue "string" (get "recordingId" o) [Key "recordingId"])
             issues)
      /\ (forall s, get "status" o = Some (JStr s) ->
                    existsb (String.eqb s) status_names = false ->
                    In (mkIssue (invalid_enum_value s) [Key "status"]) issues)
  | _ => issues = [type_issue "object" (Some j) []]
  end.

(** *** Examples for the route parameter and the polling *)

(** The text that [parseMarkersParam] hands to [JSON.parse], read off
    the parameter: none for [undefined] and for the empty string; the
    string itself; for an array its first element, which for the empty
    array is [undefined], read as the text ["undefined"]. *)
Definition parsed_text (raw : Params.RawParam) : option string :=
  match raw with
  | Params.Undefined => None
  | Params.Single "" => None
  | Params.Single s => Some s
  | Params.Many [] => Some "undefined"
  | Params.Many (s :: _) => Some s
  end.

(** A value that converts to a number without a detour: a primitive, or
    an object that has no property [toString] of its own. *)
Definition converts_plainly (item : Json) : Prop :=
  match item with
  | JArr _ => False
  | JObj fields => get "toString" fields = None
  | _ => True
  end.

(** The text [[3,{"toString":1}]]. *)
Definition shadowed_toString_text : string :=
  "[3,{" ++ String "034" "toString" ++ String "034" ":1}]".

(** A stand-in for [JSON.parse] that reads two texts and throws on every
    other. *)
Definition sample_JSON_parse (s : string) : JsResult Json :=
  if String.eqb s "[3,{},8]"
  then Return (JArr [JNum (3 # 1); JObj []; JNum (8 # 1)])
  else if String.eqb s shadowed_toString_text
  then Return (JArr [JNum (3 # 1); JObj [("toString", JNum (1 # 1))]])
  else Throw (SyntaxError "Unexpected token").

(** A stand-in for the numeric conversion on the values of the example: a
    number is itself, [null] is 0, an object is [NaN]. *)
Definition sample_ToNumber (j : Json) : number :=
  match j with
  | JNum q => Fin q
  | JNull => Fin 0
  | _ => NaN
  end.

(** A query that is live: a fetch is outstanding and no terminal status
    has arrived. *)
Definition live (q : ResultScreen.Query) : Prop :=
  ResultScreen.scheduled q = true
  /\ match ResultScreen.data q with
     | Some d => ResultScreen.terminal d = false
     | None => True
     end.

(** The terminal statuses (glossary): [COMPLETED] and [FAILED]. *)
Definition terminal_status (st : Status) : Prop :=
  st = COMPLETED \/ st = FAILED.

(** The intermediate statuses (section 4.3). *)
Definition intermediate_status (st : Status) : Prop :=
  st = CREATED \/ st = UPLOADING \/ st = UPLOADED \/ st = PROCESSING.

(** A fetch of the status of recording [id] that does not end the
    polling: it fails, or it delivers an intermediate status. *)
Definition goes_on (parsesAsUrl : string -> bool) (settings : Client.Settings)
           (id : string) (o : Http.FetchOutcome) : Prop :=
  match Http.complete (Client.fetchRecordingStatus parsesAsUrl settings id) o
  with
  | Return d => intermediate_status (status d)
  | Throw _ => True
  end.

Definition status_body (s : string) : Json :=
  JObj [("recordingId", JStr "r1"); ("status", JStr s)].

(** *** Vocabulary of the further properties *)

(** Two objects have the same properties under the given keys. *)
Definition agree_on (keys : list string) (o1 o2 : list (string * Json)) : Prop :=
  forall key, In key keys -> get key o1 = get key o2.

Definition init_keys : list string := ["recordingId"; "uploadUrl"; "headers"].

Definition status_keys : list string :=
  ["recordingId"; "status"; "error"; "steps"].

(** An entry of a payload object that a validated record keeps: every
    entry but one under the key ["__proto__"]. *)
Definition kept_entry (kv : string * Json) : bool :=
  match fst kv with
  | "__proto__" => false
  | _ => true
  end.

(** A header sent with a text as its value. *)
Definition text_entry (kv : string * Json) : Prop :=
  exists s, snd kv = JStr s.

(** The entries of a validated header map, as they were in the payload. *)
Definition header_entries (h : list (string * string)) : list (string * Json) :=
  map (fun kv => (fst kv, JStr (snd kv))) h.

(** A validated step has its required fields as the payload item has
    them. *)
Definition step_matches (item : Json) (s : RecordingStep) : Prop :=
  exists o,
    item = JObj o
    /\ get "index" o = Some (JNum (index s))
    /\ get "startSec" o = Some (JNum (startSec s))
    /\ get "endSec" o = Some (JNum (endSec s))
    /\ get "title" o = Some (JStr (title s))
    /\ get "description" o = Some (JStr (description s)).

Definition sample_step : Json :=
  JObj [("index", JNum 0); ("startSec", JNum 0); ("endSec", JNum (4 # 1));
        ("title", JStr "Open the valve"); ("description", JStr "Turn left")].

Definition completed_body : Json :=
  JObj [("recordingId", JStr "r1"); ("status", JStr "COMPLETED");
        ("steps", JArr [sample_step])].

Definition is_progress (ev : XhrEvent) : bool :=
  match ev with Progress _ => true | _ => false end.

Definition is_abort (ev : XhrEvent) : bool :=
  match ev with SignalAbort => true | _ => false end.

(** The screen after the wait for the transfer, read off the events: the
    progress events before the first decisive event set the progress, and
    a press on "Cancel Upload" leaves its message and the ['error']
    state. *)
Fixpoint screen_after_wait (params : UploadParams) (events : list UploadEvent)
         (s : Screen) : Screen :=
  match events with
  | [] => s
  | FromXhr (Progress e) :: rest =>
      screen_after_wait params rest
        (match emitted params e with
         | Some v => with_progress v s
         | None => s
         end)
  | CancelPressed :: _ =>
      with_state S_error (with_error (Some "Upload cancelled.") s)
  | _ :: _ => s
  end.

Definition waited (params : UploadParams) (env : Environment) (s : Screen)
  : Screen :=
  match sendThrows env with
  | Some _ => s
  | None => screen_after_wait params (uploadEvents env) s
  end.

(** The progress events that arrive before the first decisive event. *)
Fixpoint before_decision (events : list UploadEvent) : list ProgressEvent :=
  match events with
  | FromXhr (Progress e) :: rest => e :: before_decision rest
  | _ => []
  end.

(** The fractions that the screen is given during the wait. *)
Definition shown_fractions (env : Environment) : list Q :=
  match sendThrows env with
  | Some _ => []
  | None =>
      map fraction
          (filter lengthComputable (before_decision (uploadEvents env)))
  end.

(** Whether a text contains the character ["/"]. *)
Fixpoint has_slash (s : string) : bool :=
  match s with
  | EmptyString => false
  | String c rest => Ascii.eqb c "/" || has_slash rest
  end.

(** The file name that the flow derives from the URI of the video. *)
Definition fileName_of (uri : string) : string :=
  or_else (last_segment uri "") "recording.mp4".

(** The transfer that the flow starts after an init that answered [r]. *)
Definition transfer_params (p : Props) (r : InitRecordingResponse)
  : UploadParams :=
  mkUploadParams (videoUri p) (Schemas.uploadUrl r) (Schemas.headers r)
    (or_else (last_segment (videoUri p) "") "recording.mp4")
    (Client.uploadContentType (SETTINGS p)) true true.

(** The init call of a run for a file of the given size. *)
Definition init_call (p : Props) (size : Z)
  : Http.Call InitRecordingResponse :=
  Client.initRecording (parsesAsUrl p) (SETTINGS p)
    (initPayload p (or_else (last_segment (videoUri p) "") "recording.mp4")
                 size).

(** The init answers with upload headers. *)
Definition env_with_headers : Environment :=
  mkEnvironment sample_file
    (Some (json_response 200
             (JObj [("recordingId", JStr "r7");
                    ("uploadUrl", JStr "https://x/r7");
                    ("headers", JObj [("x-amz-acl", JStr "private")])])))
    None
    [FromXhr (Progress (mkProgressEvent true 5 10))]
    (Some (json_response 200 JNull)).

(** The decimal digit of a number below ten, and the two digits of a
    number below a hundred. *)
Definition digit (d : Z) : ascii := ascii_of_nat (48 + Z.to_nat d).

Definition two_digits (n : Z) : string :=
  String (digit (n / 10)) (String (digit (n mod 10)) EmptyString).

(** Steps marked at the clock readings [nows], in order. *)
Definition marked (maxDurationSec : Z) (nows : list Z)
           (s : RecordScreen.Screen) : RecordScreen.Screen :=
  fold_left (fun s now => RecordScreen.markStep maxDurationSec now s) nows s.

(** A recording: it starts at clock reading [t0] with permissions and
    camera at hand, and steps are marked at the readings [nows]. *)
Definition recording (maxDurationSec : Z) (s0 : RecordScreen.Screen)
           (t0 : Z) (nows : list Z) : RecordScreen.Screen :=
  marked maxDurationSec nows (RecordScreen.startRecording true true t0 s0).

(** Clock readings that start at [t0] and never go back. *)
Fixpoint clock_from (t0 : Z) (nows : list Z) : Prop :=
  match nows with
  | [] => True
  | now :: rest => t0 <= now /\ clock_from now rest
  end.

Fixpoint ascending (l : list Z) : Prop :=
  match l with
  | [] => True
  | a :: rest =>
      match rest with
      | [] => True
      | b :: _ => a <= b /\ ascending rest
      end
  end.

Definition not_NaN (n : number) : bool := negb (isNaN n).

Definition sample_route : Route.UploadRoute :=
  Route.mkUploadRoute (Params.Single "file:///clips/a.mp4")
                      (Params.Single "0") (Params.Single "[3,{},8]").

(** The text that the screen shows for a caught exception: the message
    of an error, which for a validation error is the text that the schema
    library writes for its issues, and ["Upload failed."] for a thrown
    value that is no [Error].  For a [DOMException] nothing is said: what
    it is an instance of is the platform's matter. *)
Definition shows (zodMessage : list ZodIssue -> string) (e : Exn)
           (text : string) : Prop :=
  match e with
  | Error m | TypeError m | SyntaxError m => text = m
  | ZodError issues => text = zodMessage issues
  | ThrownValue _ => text = "Upload failed."
  | DOMException _ _ => True
  end.

(** The init answers without [uploadUrl]. *)
Definition env_malformed_init : Environment :=
  mkEnvironment sample_file (Some (json_response 200 missing_url_body)) None
    [] None.

(** The init request gets no answer. *)
Definition env_init_unanswered : Environment :=
  mkEnvironment sample_file None None [] None.

(** The completion call gets no answer. *)
Definition env_complete_unanswered : Environment :=
  mkEnvironment sample_file (Some (json_response 200 sample_init_body)) None
    [FromXhr (Load 204)] None.

(** The completion call fails with status 500. *)
Definition env_complete_500 : Environment :=
  mkEnvironment sample_file (Some (json_response 200 sample_init_body)) None
    [FromXhr (Load 200)]
    (Some (Http.Responded
             (Http.mkResponse 500 (Return "busy") (Return JNull)))).

(* ===================================================================== *)
(** ** Properties of the upload transport *)
(* ===================================================================== *)

Local Open Scope list_scope.

Section Transport.

Variable params : UploadParams.

Lemma invoke_settled (cb : Callback) (c : Closure) :
  settled c = true ->
  settled (invoke params cb c) = true
  /\ settlements (invoke params cb c) = settlements c.
Proof.
  intros Hs.
  destruct cb as [st| | |ev|err]; simpl;
    unfold onload, onerror, onabort, rejectOnce, onprogress; rewrite ?Hs;
    auto.
  destruct (emitted params ev); simpl; auto.
Qed.

Lemma invoke_all_cons (cb : Callback) (cbs : list Callback) (c : Closure) :
  invoke_all params (cb :: cbs) c = invoke_all params cbs (invoke params cb c).
Proof. reflexivity. Qed.

Lemma invoke_all_settled (cbs : list Callback) :
  forall c, settled c = true ->
            settlements (invoke_all params cbs c) = settlements c.
Proof.
  induction cbs as [|cb cbs IH]; intros c Hs; [reflexivity|].
  destruct (invoke_settled cb c Hs) as [Hs' He].
  rewrite invoke_all_cons, IH; assumption.
Qed.

Lemma invoke_first (cb : Callback) (c : Closure) :
  settled c = false -> settles cb = true ->
  settled (invoke params cb c) = true
  /\ settlements (invoke params cb c)
     = settlements c ++ settlements (invoke params cb fresh).
Proof.
  intros Hs Hcb.
  destruct cb as [st| | |ev|err]; try discriminate; simpl;
    unfold onload, onerror, onabort, rejectOnce; rewrite Hs; simpl.
  - destruct ((200 <=? st) && (st <? 300)); simpl; auto.
  - auto.
  - auto.
  - auto.
Qed.

Lemma invoke_progress (cb : Callback) (c : Closure) :
  settles cb = false ->
  settled (invoke params cb c) = settled c
  /\ settlements (invoke params cb c) = settlements c.
Proof.
  destruct cb as [st| | |ev|err]; try discriminate. intros _. simpl.
  unfold onprogress. destruct (emitted params ev); simpl; auto.
Qed.

Lemma invoke_all_first (cbs : list Callback) :
  forall c, settled c = false ->
    settlements (invoke_all params cbs c)
    = settlements c
      ++ match find settles cbs with
         | Some cb => settlements (invoke params cb fresh)
         | None => []
         end.
Proof.
  induction cbs as [|cb cbs IH]; intros c Hs.
  - simpl. now rewrite app_nil_r.
  - rewrite invoke_all_cons. simpl find.
    destruct (settles cb) eqn:Hcb.
    + destruct (invoke_first cb c Hs Hcb) as [Hs' He].
      rewrite invoke_all_settled; assumption.
    + destruct (invoke_progress cb c Hcb) as [Hs' He].
      rewrite IH by congruence. now rewrite He.
Qed.

Lemma settlement_single (cb : Callback) :
  settles cb = true ->
  exists s, settlements (invoke params cb fresh) = [s].
Proof.
  destruct cb as [st| | |ev|err]; try discriminate; intros _; simpl;
    unfold onload, onerror, onabort, rejectOnce; simpl; eauto.
  destruct ((200 <=? st) && (st <? 300)); simpl; eauto.
Qed.

(** C8.  The promise of [uploadVideo] is settled once: whatever callbacks
    run and in whatever order (load, error, abort, a throwing [send],
    progress), the calls made to [resolve] and [reject] are exactly those
    of the first settling callback, which is a single call; every later
    callback settles nothing. *)
Theorem uploadVideo_settles_once (cbs : list Callback) :
  settlements (invoke_all params cbs fresh)
  = match find settles cbs with
    | Some cb => settlements (invoke params cb fresh)
    | None => []
    end
  /\ (List.length (settlements (invoke_all params cbs fresh)) <= 1)%nat
  /\ (forall later : list Callback,
         find settles cbs <> None ->
         (exists s, settlements (invoke_all params cbs fresh) = [s])
         /\ settlements (invoke_all params (cbs ++ later) fresh)
            = settlements (invoke_all params cbs fresh)).
Proof.
  assert (E : forall l, settlements (invoke_all params l fresh)
                        = match find settles l with
                          | Some cb => settlements (invoke params cb fresh)
                          | None => []
                          end).
  { intros l. now rewrite invoke_all_first. }
  split; [apply E|]. split.
  - rewrite E. destruct (find settles cbs) as [cb|] eqn:F; simpl; [|lia].
    apply find_some in F. destruct F as [_ F].
    destruct (settlement_single cb F) as [s ->]. simpl. lia.
  - intros later Hf. rewrite !E.
    destruct (find settles cbs) as [cb|] eqn:F; [|congruence].
    split; [apply settlement_single; now apply find_some in F|].
    clear Hf E. revert F. induction cbs as [|a l IH]; simpl; [discriminate|].
    destruct (settles a); intros F; [now injection F as ->|]. now apply IH.
Qed.

Lemma string_of_Z_inj (a b : Z) : string_of_Z a = string_of_Z b -> a = b.
Proof.
  unfold string_of_Z. intros H.
  assert (P : forall z, NilZero.int_of_string
                          (NilZero.string_of_int (Z.to_int z))
                        = Some (Z.to_int z)).
  { intros z. apply NilZero.isi; destruct z; simpl; try discriminate;
      intros E; injection E as E;
      now apply DecimalPos.Unsigned.to_uint_nonnil in E. }
  apply DecimalZ.to_int_inj.
  generalize (P a). rewrite H, P. congruence.
Qed.

Lemma deliver_settled (ev : XhrEvent) (x : Xhr) :
  settled (closure x) = true ->
  settled (closure (deliver params ev x)) = true
  /\ settlements (closure (deliver params ev x)) = settlements (closure x).
Proof.
  intros Hs. destruct ev as [st| |pe|]; simpl.
  - apply (invoke_settled (OnLoad st)), Hs.
  - apply (invoke_settled OnError), Hs.
  - apply (invoke_settled (OnProgress pe)), Hs.
  - destruct (signal params && negb (is_done (readyState x))); simpl; auto.
    apply (invoke_settled OnAbort), Hs.
Qed.

Lemma deliver_all_settled (events : list XhrEvent) :
  forall x, settled (closure x) = true ->
            settlements (closure (deliver_all params events x))
            = settlements (closure x).
Proof.
  induction events as [|ev events IH]; intros x Hs; [reflexivity|].
  destruct (deliver_settled ev x Hs) as [Hs' He].
  change (deliver_all params (ev :: events) x)
    with (deliver_all params events (deliver params ev x)).
  rewrite IH; assumption.
Qed.

Lemma deliver_progress (pre : list ProgressEvent) :
  forall x,
    settled (closure (deliver_all params (map Progress pre) x))
    = settled (closure x)
    /\ settlements (closure (deliver_all params (map Progress pre) x))
       = settlements (closure x)
    /\ readyState (deliver_all params (map Progress pre) x) = readyState x.
Proof.
  induction pre as [|pe pre IH]; intros x; [now simpl|].
  change (deliver_all params (map Progress (pe :: pre)) x)
    with (deliver_all params (map Progress pre)
                      (deliver params (Progress pe) x)).
  destruct (IH (deliver params (Progress pe) x)) as (-> & -> & ->).
  simpl. unfold onprogress. destruct (emitted params pe); simpl; auto.
Qed.

Lemma deliver_all_app (a b : list XhrEvent) (x : Xhr) :
  deliver_all params (a ++ b) x = deliver_all params b (deliver_all params a x).
Proof. apply fold_left_app. Qed.

(** The settlement after a run of progress events followed by a settling
    callback of a request that was pending. *)
Lemma first_decides (pre : list ProgressEvent) (ev : XhrEvent)
      (post : list XhrEvent) (cb : Callback) (x : Xhr) :
  settled (closure x) = false -> settlements (closure x) = [] ->
  settles cb = true ->
  (forall y, readyState y = readyState x ->
             closure (deliver params ev y) = invoke params cb (closure y)) ->
  settlements (closure (deliver_all params (map Progress pre ++ ev :: post) x))
  = settlements (invoke params cb fresh).
Proof.
  intros Hs He Hcb Hev.
  rewrite deliver_all_app.
  destruct (deliver_progress pre x) as (Hs' & He' & Hr).
  set (y := deliver_all params (map Progress pre) x) in *.
  change (deliver_all params (ev :: post) y)
    with (deliver_all params post (deliver params ev y)).
  rewrite Hs in Hs'. rewrite He in He'.
  destruct (invoke_first cb (closure y) Hs' Hcb) as [Hs2 He2].
  rewrite deliver_all_settled; rewrite (Hev y Hr); [|assumption].
  now rewrite He2, He'.
Qed.

Lemma resolution_needs_success (ev : XhrEvent) (x : Xhr) :
  outcome (deliver params ev x) = Some Resolved ->
  outcome x = Some Resolved
  \/ exists st, ev = Load st /\ success_status st = true.
Proof.
  unfold outcome, promise.
  destruct x as [r [flag calls reps]].
  destruct ev as [st| |pe|]; simpl;
    unfold onload, onerror, onabort, rejectOnce, onprogress, settle; simpl.
  - destruct flag; simpl; auto.
    fold (success_status st). destruct (success_status st) eqn:S; simpl.
    + right. now exists st.
    + destruct calls; simpl; [discriminate|auto].
  - destruct flag; simpl; auto.
    destruct calls; simpl; [discriminate|auto].
  - destruct (emitted params pe); simpl; auto.
  - destruct (signal params && negb (is_done r)); simpl; auto.
    destruct flag; simpl; auto.
    destruct calls; simpl; [discriminate|auto].
Qed.

Lemma resolved_by_success (events : list XhrEvent) :
  forall x, outcome (deliver_all params events x) = Some Resolved ->
    outcome x = Some Resolved
    \/ exists before st after,
        events = before ++ Load st :: after /\ success_status st = true.
Proof.
  induction events as [|ev events IH]; intros x H; [now left|].
  change (deliver_all params (ev :: events) x)
    with (deliver_all params events (deliver params ev x)) in H.
  destruct (IH _ H) as [H1 | (before & st & after & -> & S)].
  - destruct (resolution_needs_success ev x H1) as [H2 | (st & -> & S)];
      [now left|].
    right. now exists [], st, events.
  - right. now exists (ev :: before), st, after.
Qed.

(** C4.  A transfer whose first event other than progress is the response
    of the endpoint with status code [N] resolves when [N] is in 2xx and is
    otherwise rejected with the error that names [N]; one whose first such
    event is a transport failure is rejected with the network error.  No
    transfer resolves without a 2xx response, the error text determines the
    status code, and it differs from the network error. *)
Theorem uploadVideo_succeeds_iff_2xx (pre : list ProgressEvent)
        (post : list XhrEvent) (N : Z) :
  outcome (uploadVideo params None (map Progress pre ++ Load N :: post))
  = Some (if success_status N then Resolved
          else Rejected (rejected_by_server N))
  /\ (outcome (uploadVideo params None (map Progress pre ++ Load N :: post))
      = Some Resolved <-> 200 <= N < 300)
  /\ outcome (uploadVideo params None
                (map Progress pre ++ NetworkError :: post))
     = Some (Rejected network_failure)
  /\ (forall (sendThrows : option Exn) (events : list XhrEvent),
        outcome (uploadVideo params sendThrows events) = Some Resolved ->
        exists before st after,
          events = before ++ Load st :: after /\ 200 <= st < 300)
  /\ (forall M : Z, rejected_by_server N = rejected_by_server M -> N = M)
  /\ rejected_by_server N <> network_failure.
Proof.
  assert (L : outcome (uploadVideo params None
                         (map Progress pre ++ Load N :: post))
              = Some (if success_status N then Resolved
                      else Rejected (rejected_by_server N))).
  { unfold outcome, promise, uploadVideo.
    fold (deliver_all params (map Progress pre ++ Load N :: post)
                      (started params None)).
    rewrite (first_decides pre (Load N) post (OnLoad N)); try reflexivity.
    simpl. unfold onload. simpl. fold (success_status N).
    now destruct (success_status N). }
  split; [exact L|]. split; [|split; [|split; [|split]]].
  - rewrite L. unfold success_status.
    destruct (200 <=? N) eqn:A; destruct (N <? 300) eqn:B; simpl;
      split; intros H; try discriminate; try reflexivity; try lia.
  - unfold outcome, promise, uploadVideo.
    fold (deliver_all params (map Progress pre ++ NetworkError :: post)
                      (started params None)).
    now rewrite (first_decides pre NetworkError post OnError).
  - intros sendThrows events H. unfold uploadVideo in H.
    fold (deliver_all params events (started params sendThrows)) in H.
    destruct (resolved_by_success events _ H)
      as [H1 | (before & st & after & -> & S)].
    + destruct sendThrows; discriminate.
    + exists before, st, after. split; [reflexivity|].
      unfold success_status in S. lia.
  - intros M H. unfold rejected_by_server in H.
    injection H as H. now apply string_of_Z_inj.
  - unfold rejected_by_server, network_failure. intros H.
    injection H as H. discriminate.
Qed.

End Transport.

Lemma uploadVideo_settles_once_witness :
  settlements
    (invoke_all sample_params
       ([OnAbort; OnLoad 200] ++ [OnError; SendThrew (Error "late")]) fresh)
  = settlements (invoke_all sample_params [OnAbort; OnLoad 200] fresh).
Proof.
  destruct (uploadVideo_settles_once sample_params [OnAbort; OnLoad 200])
    as (_ & _ & H).
  apply H. discriminate.
Defined.

Lemma uploadVideo_succeeds_iff_2xx_witness :
  exists before st after,
    [Progress (mkProgressEvent true 10 10); Load 204]
    = before ++ Load st :: after
    /\ 200 <= st < 300.
Proof.
  destruct (uploadVideo_succeeds_iff_2xx sample_params [] [] 204)
    as (_ & _ & _ & H & _).
  exact (H None [Progress (mkProgressEvent true 10 10); Load 204] eq_refl).
Defined.

(* ===================================================================== *)
(** ** Progress reports *)
(* ===================================================================== *)

Section Progress.

Variable params : UploadParams.

Lemma reported_deliver (ev : XhrEvent) (x : Xhr) :
  reported (closure (deliver params ev x))
  = reported (closure x)
    ++ match ev with
       | Progress e =>
           match emitted params e with Some v => [v] | None => [] end
       | _ => []
       end.
Proof.
  destruct x as [r [flag calls reps]].
  destruct ev as [st| |pe|]; simpl;
    unfold onload, onerror, onabort, rejectOnce, onprogress, settle; simpl.
  - destruct flag; [|destruct (_ && _)]; simpl; now rewrite app_nil_r.
  - destruct flag; simpl; now rewrite app_nil_r.
  - destruct (emitted params pe); simpl; [reflexivity|now rewrite app_nil_r].
  - destruct (signal params && negb (is_done r)); simpl;
      [destruct flag|]; simpl; now rewrite app_nil_r.
Qed.

Lemma reported_deliver_all (events : list XhrEvent) :
  forall x,
    reported (closure (deliver_all params events x))
    = reported (closure x)
      ++ (if onProgress params then map fraction (computable events) else []).
Proof.
  induction events as [|ev events IH]; intros x.
  - simpl. destruct (onProgress params); now rewrite app_nil_r.
  - change (deliver_all params (ev :: events) x)
      with (deliver_all params events (deliver params ev x)).
    rewrite IH, reported_deliver, <- app_assoc. f_equal.
    destruct ev as [st| |pe|]; simpl; try reflexivity.
    unfold emitted.
    destruct (lengthComputable pe), (onProgress params); reflexivity.
Qed.

Lemma fraction_within_unit (e : ProgressEvent) :
  0 <= loaded e <= total e -> within_unit (fraction e).
Proof.
  intros [H0 H1]. unfold within_unit, fraction.
  destruct (0 <? total e) eqn:T.
  - apply Z.ltb_lt in T.
    assert (Tq : (0 < inject_Z (total e))%Q).
    { change (inject_Z 0 < inject_Z (total e))%Q. now rewrite <- Zlt_Qlt. }
    split.
    + apply Qle_shift_div_l; [assumption|].
      rewrite Qmult_0_l.
      change (inject_Z 0 <= inject_Z (loaded e))%Q. now rewrite <- Zle_Qle.
    + apply Qle_shift_div_r; [assumption|].
      rewrite Qmult_1_l. now rewrite <- Zle_Qle.
  - split; [apply Qle_refl|discriminate].
Qed.

Lemma fraction_monotone (a b : ProgressEvent) :
  loaded a <= loaded b -> total a = total b ->
  (fraction a <= fraction b)%Q.
Proof.
  intros Hl Ht. unfold fraction. rewrite Ht.
  destruct (0 <? total b) eqn:T; [|apply Qle_refl].
  apply Z.ltb_lt in T. unfold Qdiv.
  apply Qmult_le_compat_r; [now rewrite <- Zle_Qle|].
  apply Qinv_le_0_compat.
  change (inject_Z 0 <= inject_Z (total b))%Q. rewrite <- Zle_Qle. lia.
Qed.

Lemma orderly_fractions (l : list ProgressEvent) :
  orderly l = true ->
  Forall within_unit (map fraction l) /\ nondecreasing (map fraction l).
Proof.
  induction l as [|a rest IH]; intros H; [split; [constructor|exact I]|].
  simpl in H. apply andb_prop in H. destruct H as [H Hrest].
  apply andb_prop in H. destruct H as [Ha Hab].
  apply andb_prop in Ha. destruct Ha as [H0 H1].
  apply Z.leb_le in H0, H1.
  destruct (IH Hrest) as [IU IN]. split.
  - constructor; [apply fraction_within_unit; lia|assumption].
  - destruct rest as [|b rest']; [exact I|].
    apply andb_prop in Hab. destruct Hab as [Hl Ht].
    apply Z.leb_le in Hl. apply Z.eqb_eq in Ht.
    split; [now apply fraction_monotone|assumption].
Qed.

Lemma complete_fraction (l : list ProgressEvent) :
  ends_complete l = true ->
  exists v, last (map Some (map fraction l)) None = Some v /\ (v == 1)%Q.
Proof.
  unfold ends_complete. intros H.
  destruct (rev l) as [|z r] eqn:R; [discriminate|].
  apply andb_prop in H. destruct H as [T E].
  assert (L : l = rev r ++ [z]).
  { rewrite <- (rev_involutive l), R. reflexivity. }
  exists (fraction z). split.
  - rewrite L, !map_app. simpl. apply last_last.
  - unfold fraction. rewrite T. apply Z.eqb_eq in E. rewrite E.
    apply Z.ltb_lt in T. unfold Qdiv. apply Qmult_inv_r.
    intros Q0. apply (inject_Z_injective (total z) 0) in Q0. lia.
Qed.

(** C5, as the code has it.  The transport forwards what the platform
    reports and adds nothing of its own: the fractions passed to
    [onProgress] are, in order, those of the progress events whose total is
    known, [loaded / total] for a positive total and 0 otherwise; an event
    with an unknown total reports nothing, and nothing is reported without
    a callback.  Hence the fractions lie in [0,1] and never decrease when
    the platform's events are orderly, and the last one is 1 when the last
    event with a known total reports the whole body as sent. *)
Theorem progress_follows_events (events : list XhrEvent) :
  fractions (uploadVideo params None events)
  = (if onProgress params then map fraction (computable events) else [])
  /\ (forall e : ProgressEvent,
        0 < total e ->
        fraction e = (inject_Z (loaded e) / inject_Z (total e))%Q)
  /\ (forall e : ProgressEvent, total e <= 0 -> fraction e = 0%Q)
  /\ (forall e : ProgressEvent,
        lengthComputable e = false -> emitted params e = None)
  /\ (onProgress params = true -> orderly (computable events) = true ->
      Forall within_unit (fractions (uploadVideo params None events))
      /\ nondecreasing (fractions (uploadVideo params None events)))
  /\ (onProgress params = true -> ends_complete (computable events) = true ->
      exists v,
        last (map Some (fractions (uploadVideo params None events))) None
        = Some v /\ (v == 1)%Q).
Proof.
  assert (F : fractions (uploadVideo params None events)
              = (if onProgress params then map fraction (computable events)
                 else [])).
  { unfold fractions, uploadVideo.
    fold (deliver_all params events (started params None)).
    now rewrite reported_deliver_all. }
  split; [exact F|]. split; [|split; [|split; [|split]]].
  - intros e H. unfold fraction. apply Z.ltb_lt in H. now rewrite H.
  - intros e H. unfold fraction.
    destruct (0 <? total e) eqn:T; [|reflexivity].
    apply Z.ltb_lt in T. lia.
  - intros e H. unfold emitted. now rewrite H.
  - intros P O. rewrite F, P. now apply orderly_fractions.
  - intros P E. rewrite F, P. now apply complete_fraction.
Qed.

End Progress.

(** C5, as worded, fails: the platform reports half of the body as sent and
    then a response with status 200; the transfer succeeds and the last
    fraction reported is 1/2. *)
Lemma progress_as_stated_fails :
  ~ progress_as_stated sample_params
      [Progress (mkProgressEvent true 512 1024); Load 200].
Proof.
  intros (_ & _ & _ & H).
  destruct H as (v & Hv & E); [reflexivity|discriminate|].
  vm_compute in Hv. injection Hv as <-. vm_compute in E. discriminate.
Qed.

Lemma progress_follows_events_witness :
  Forall within_unit
    (fractions (uploadVideo sample_params None
       [Progress (mkProgressEvent true 3 10);
        Progress (mkProgressEvent false 5 0);
        Progress (mkProgressEvent true 7 10);
        Progress (mkProgressEvent true 10 10); Load 200]))
  /\ exists v,
      last (map Some
              (fractions (uploadVideo sample_params None
                 [Progress (mkProgressEvent true 3 10);
                  Progress (mkProgressEvent false 5 0);
                  Progress (mkProgressEvent true 7 10);
                  Progress (mkProgressEvent true 10 10); Load 200]))) None
      = Some v /\ (v == 1)%Q.
Proof.
  destruct (progress_follows_events sample_params
              [Progress (mkProgressEvent true 3 10);
               Progress (mkProgressEvent false 5 0);
               Progress (mkProgressEvent true 7 10);
               Progress (mkProgressEvent true 10 10); Load 200])
    as (_ & _ & _ & _ & O & C).
  split.
  - apply O; reflexivity.
  - apply C; reflexivity.
Defined.

(* ===================================================================== *)
(** ** The upload flow *)
(* ===================================================================== *)

Section Waiting.

Variable params : UploadParams.
Hypothesis with_signal : signal params = true.

Lemma awaiting_actions (events : list UploadEvent) :
  forall x w, actions (snd (awaiting params events x w)) = actions w.
Proof.
  induction events as [|ev rest IH]; intros x w; simpl.
  - destruct (promise (closure x)) as [[|e]|]; reflexivity.
  - destruct (promise (closure x)) as [[|e]|]; try reflexivity.
    destruct (receive params ev x (screen w)) as [x' s'].
    now rewrite IH.
Qed.

Lemma awaiting_settled (events : list UploadEvent) (x : Xhr) (w : World)
      (s : Settlement) :
  promise (closure x) = Some s ->
  awaiting params events x w
  = (match s with Resolved => Done tt | Rejected e => Raised e end, w).
Proof.
  intros H. destruct events; simpl; rewrite H; now destruct s.
Qed.

(** The wait ends as the first decisive event says. *)
Lemma awaiting_verdict (events : list UploadEvent) :
  forall x w,
    settled (closure x) = false -> settlements (closure x) = [] ->
    readyState x = OPENED -> abortRef (screen w) = true ->
    fst (awaiting params events x w)
    = match find decisive events with
      | Some ev => verdict ev
      | None => Pending
      end.
Proof.
  induction events as [|ev rest IH]; intros x w Hs He Hr Ha.
  - simpl. unfold promise. now rewrite He.
  - cbn [awaiting]. unfold promise at 1. rewrite He. cbn [hd_error find].
    destruct x as [r [flag calls reps]]. simpl in Hs, He, Hr. subst.
    destruct ev as [[st| |pe|]|]; cbn [decisive receive].
    + cbn [deliver invoke closure]. unfold onload. cbn [settled].
      fold (success_status st).
      destruct (success_status st) eqn:S;
        erewrite awaiting_settled by reflexivity; simpl; now rewrite ?S.
    + erewrite awaiting_settled by reflexivity. reflexivity.
    + apply IH; simpl; try reflexivity;
        try (unfold onprogress; destruct (emitted params pe); reflexivity).
      destruct (emitted params pe); simpl; assumption.
    + cbn [deliver readyState is_done negb]. rewrite with_signal.
      cbn [andb]. erewrite awaiting_settled by reflexivity. reflexivity.
    + unfold handleCancel. rewrite Ha.
      cbn [deliver readyState is_done negb]. rewrite with_signal.
      cbn [andb]. erewrite awaiting_settled by reflexivity. reflexivity.
Qed.

End Waiting.

(** The transfer awaited by the flow ends as [transfer_result] reads it
    off the environment, and makes no request of its own. *)
Lemma awaiting_started (params : UploadParams) (env : Environment) (w : World) :
  signal params = true -> abortRef (screen w) = true ->
  exists s',
    awaiting params (uploadEvents env) (started params (sendThrows env)) w
    = (transfer_result env, mkWorld s' (actions w)).
Proof.
  intros Hsig Ha.
  destruct (awaiting params (uploadEvents env)
                     (started params (sendThrows env)) w) as [res w1] eqn:A.
  assert (Hact := awaiting_actions params (uploadEvents env)
                    (started params (sendThrows env)) w).
  rewrite A in Hact. simpl in Hact.
  exists (screen w1). destruct w1 as [s1 a1]. simpl in *. subst a1.
  f_equal. unfold transfer_result.
  destruct (sendThrows env) as [err|] eqn:S.
  - unfold started in A. simpl in A.
    erewrite awaiting_settled in A by reflexivity. now injection A as <- _.
  - rewrite <- (awaiting_verdict params Hsig (uploadEvents env)
                  (started params None) w); try reflexivity; try assumption.
    now rewrite A.
Qed.

Ltac unfold_flow :=
  unfold tryCatch, bind, setError, setProgress, setState, setRecordingId,
    update, perform, await, mutateAsync, awaitUploadVideo, ret, throw;
  cbn [fst snd screen actions app negb].

(** The completion call of a run: it returns, throws, or stays pending. *)
Ltac split_completion C :=
  match goal with
  | |- context [call_result ?c (completeOutcome ?env)] =>
      let e := fresh "e" in
      destruct (call_result c (completeOutcome env)) as [[[]|e]|] eqn:C
  | _ : context [call_result ?c (completeOutcome ?env)] |- _ =>
      let e := fresh "e" in
      destruct (call_result c (completeOutcome env)) as [[[]|e]|] eqn:C
  end; unfold_flow.

(** The walk through [startUploadFlow] up to the wait for the transfer:
    the cases that end earlier are left to [early]. *)
Ltac walk_to_transfer p env early :=
  unfold final, run, startUploadFlow;
  destruct (truthy_string (videoUri p)) eqn:Huri; unfold_flow;
  [ destruct (fileInfo env) as [[info|einfo]|] eqn:Hinfo; unfold_flow;
    [ destruct (readable_size info) as [size|] eqn:Hsize; unfold_flow;
      [ match goal with
        | |- context [call_result ?c (initOutcome env)] =>
            destruct (call_result c (initOutcome env)) as [[r|einit]|]
              eqn:Hinit
        end; unfold_flow;
        [ match goal with
          | |- context [awaiting ?ps (uploadEvents env) ?x ?w] =>
              let s' := fresh "s'" in
              let Hw := fresh "Hw" in
              destruct (awaiting_started ps env w eq_refl eq_refl) as [s' Hw];
              rewrite Hw; clear Hw
          end
        | early
        | early ]
      | early ]
    | early
    | early ]
  | early ].

(** C1.  In every run of [startUploadFlow] the init request, the upload
    transfer and the completion call are made at most once each and in
    that order: the requests of the run are an initial part of that
    sequence.  When the transfer was attempted and fails (a status outside
    2xx, a transport failure, an abort, a throwing [send]), the run ends in
    the ['error'] state and the completion call is not made; for a
    response with status [N] outside 2xx the error shown names [N]. *)
Theorem startUploadFlow_requests_in_order (s0 : Screen) (p : Props)
        (env : Environment) :
  (exists n, requests (actions (final s0 p env))
             = firstn n [InitRequest; UploadTransfer; CompleteCall])
  /\ (In UploadTransfer (requests (actions (final s0 p env))) ->
      transfer_fails env = true ->
      fst (run s0 p env) = Done tt
      /\ state (screen (final s0 p env)) = S_error
      /\ ~ In CompleteCall (requests (actions (final s0 p env))))
  /\ (forall N : Z,
        In UploadTransfer (requests (actions (final s0 p env))) ->
        transfer_result env = Raised (rejected_by_server N) ->
        error (screen (final s0 p env))
        = Some ("Upload failed with status " ++ string_of_Z N)%string).
Proof.
  split; [|split].
  - walk_to_transfer p env ltac:(idtac).
    + destruct (transfer_result env) as [[]|e|]; unfold_flow.
      * split_completion C; now exists 3%nat.
      * now exists 2%nat.
      * now exists 2%nat.
    + now exists 1%nat.
    + now exists 1%nat.
    + now exists 0%nat.
    + now exists 0%nat.
    + now exists 0%nat.
    + now exists 0%nat.
  - intros Hin Hfail. revert Hin. unfold transfer_fails in Hfail.
    walk_to_transfer p env ltac:(cbn; intuition discriminate).
    destruct (transfer_result env) as [[]|e|]; try discriminate.
    unfold_flow. cbn. intuition discriminate.
  - intros N Hin Hres. revert Hin.
    walk_to_transfer p env ltac:(cbn; intuition discriminate).
    rewrite Hres. unfold_flow. cbn. reflexivity.
Qed.

Lemma startUploadFlow_requests_in_order_witness :
  state (screen (final mounted sample_props env_upload_500)) = S_error
  /\ ~ In CompleteCall
         (requests (actions (final mounted sample_props env_upload_500)))
  /\ error (screen (final mounted sample_props env_upload_500))
     = Some "Upload failed with status 500"%string.
Proof.
  destruct (startUploadFlow_requests_in_order mounted sample_props
              env_upload_500)
    as (_ & F & M).
  assert (T : In UploadTransfer
                 (requests
                    (actions (final mounted sample_props env_upload_500)))).
  { vm_compute. auto. }
  destruct (F T eq_refl) as (_ & S & C).
  split; [exact S|]. split; [exact C|].
  exact (M 500 T eq_refl).
Defined.

(** C2, as worded, fails: the user cancels during the transfer and the
    screen ends in the ['error'] state, which is the failed state, not a
    cancelled one; the screen has no cancelled state. *)
Lemma cancel_as_stated_fails :
  ~ cancel_as_stated mounted sample_props env_cancel.
Proof.
  intros H. unfold cancel_as_stated in H.
  destruct H as (_ & L & _); [vm_compute; auto|reflexivity|].
  vm_compute in L. discriminate.
Qed.

(** C2, as the code has it.  When the user cancels while the transfer is
    in flight, the transfer is aborted and [uploadVideo] rejects with the
    [AbortError] exception, which differs from the errors of a transport
    failure and of a response outside 2xx, and which is what the flow
    catches; the run ends in the ['error'] state, the state of every
    failure; and no completion call is made. *)
Theorem cancel_ends_without_completion (s0 : Screen) (p : Props)
        (env : Environment) :
  In UploadTransfer (requests (actions (final s0 p env))) ->
  cancelled_in_flight env = true ->
  fst (run s0 p env) = Done tt
  /\ state (screen (final s0 p env)) = S_error
  /\ In (ConsoleError cancelled) (actions (final s0 p env))
  /\ ~ In CompleteCall (requests (actions (final s0 p env)))
  /\ (forall (params : UploadParams) (pre : list ProgressEvent)
             (post : list XhrEvent),
         signal params = true ->
         outcome (uploadVideo params None
                    (map Progress pre ++ SignalAbort :: post))
         = Some (Rejected cancelled))
  /\ cancelled <> network_failure
  /\ (forall N : Z, cancelled <> rejected_by_server N).
Proof.
  intros Hin Hc.
  assert (R : transfer_result env = Raised cancelled).
  { unfold cancelled_in_flight in Hc. unfold transfer_result.
    destruct (sendThrows env); [discriminate|].
    destruct (find decisive (uploadEvents env)) as [[ev|]|];
      try discriminate; reflexivity. }
  split; [|split; [|split; [|split; [|split; [|split]]]]].
  - revert Hin. walk_to_transfer p env ltac:(cbn; intuition discriminate).
    rewrite R. reflexivity.
  - revert Hin. walk_to_transfer p env ltac:(cbn; intuition discriminate).
    rewrite R. reflexivity.
  - revert Hin. walk_to_transfer p env ltac:(cbn; intuition discriminate).
    rewrite R. unfold_flow. cbn. intros _. auto 10.
  - revert Hin. walk_to_transfer p env ltac:(cbn; intuition discriminate).
    rewrite R. unfold_flow. cbn. intuition discriminate.
  - intros params pre post Hsig. unfold outcome, promise, uploadVideo.
    fold (deliver_all params (map Progress pre ++ SignalAbort :: post)
                      (started params None)).
    rewrite (first_decides params pre SignalAbort post OnAbort);
      try reflexivity.
    intros y Hy. simpl. rewrite Hsig, Hy. reflexivity.
  - discriminate.
  - intros N. discriminate.
Qed.

Lemma cancel_ends_without_completion_witness :
  state (screen (final mounted sample_props env_cancel)) = S_error
  /\ ~ In CompleteCall
         (requests (actions (final mounted sample_props env_cancel))).
Proof.
  assert (T : In UploadTransfer
                 (requests (actions (final mounted sample_props env_cancel)))).
  { vm_compute. auto. }
  destruct (cancel_ends_without_completion mounted sample_props env_cancel
              T eq_refl)
    as (_ & S & _ & C & _).
  split; [exact S|exact C].
Defined.

(* ===================================================================== *)
(** ** The init request *)
(* ===================================================================== *)

Lemma truthy_nonzero (d : number) :
  truthy_number d = true <-> nonzero_number d.
Proof.
  destruct d as [| | |q]; simpl; try (split; [discriminate|tauto]);
    try (split; auto).
  - intros H E. apply Qeq_bool_iff in E. rewrite E in H. discriminate.
  - intros H. destruct (Qeq_bool q 0) eqn:E; [|reflexivity].
    apply Qeq_bool_iff in E. contradiction.
Qed.

Lemma stringify_optional (payload : Client.InitRecordingRequest) :
  exists fields,
    Client.stringify payload = JObj fields
    /\ get "durationSec" fields
       = option_map json_of_number (Client.durationSec payload)
    /\ get "stepMarkersSec" fields
       = option_map (fun l => JArr (map json_of_number l))
                    (Client.stepMarkersSec payload).
Proof.
  unfold Client.stringify. eexists. split; [reflexivity|].
  destruct (Client.durationSec payload), (Client.stepMarkersSec payload);
    split; reflexivity.
Qed.

Lemma init_request_of_run (s0 : Screen) (p : Props) (env : Environment)
      (req : Http.Request) :
  In (Fetch Http.Init req) (actions (final s0 p env)) ->
  exists fileName size,
    req = Http.request (Client.initRecording (parsesAsUrl p) (SETTINGS p)
                          (initPayload p fileName size)).
Proof.
  walk_to_transfer p env ltac:(cbn; intuition (try discriminate)).
  - destruct (transfer_result env) as [[]|e|]; unfold_flow.
    + split_completion C; cbn; intros H;
        repeat (destruct H as [H|H]; try discriminate; try contradiction);
        injection H as <-; eauto.
    + cbn; intros H;
        repeat (destruct H as [H|H]; try discriminate; try contradiction);
        injection H as <-; eauto.
    + cbn; intros H;
        repeat (destruct H as [H|H]; try discriminate; try contradiction);
        injection H as <-; eauto.
  - match goal with H : Fetch _ _ = Fetch _ _ |- _ => injection H as <- end.
    eauto.
  - match goal with H : Fetch _ _ = Fetch _ _ |- _ => injection H as <- end.
    eauto.
Qed.

(** C10.  The init request of a run leaves out what the session does not
    have: its body carries [stepMarkersSec] exactly when the marker list
    is not empty, and [durationSec] exactly when the duration is a number
    other than zero; when present, they are the markers and the rounded
    duration. *)
Theorem init_request_omits_empty_fields (s0 : Screen) (p : Props)
        (env : Environment) (req : Http.Request) :
  In (Fetch Http.Init req) (actions (final s0 p env)) ->
  exists fields,
    Http.body req = Some (JObj fields)
    /\ (get "stepMarkersSec" fields <> None <-> markers p <> [])
    /\ (get "durationSec" fields <> None
        <-> exists d, durationSec p = Some d /\ nonzero_number d)
    /\ (markers p <> [] ->
        get "stepMarkersSec" fields
        = Some (JArr (map json_of_number (markers p))))
    /\ (forall d, durationSec p = Some d -> nonzero_number d ->
                  get "durationSec" fields
                  = Some (json_of_number (Math_round d))).
Proof.
  intros Hin.
  destruct (init_request_of_run s0 p env req Hin) as (fileName & size & ->).
  destruct (stringify_optional (initPayload p fileName size))
    as (fields & Hs & Hd & Hm).
  exists fields. cbn [Http.body Http.request Client.initRecording].
  split; [now rewrite Hs|].
  rewrite Hd, Hm. unfold initPayload.
  cbn [Client.durationSec Client.stepMarkersSec].
  split; [|split; [|split]].
  - destruct (markers p); simpl; split; intros H; congruence.
  - destruct (durationSec p) as [d|]; simpl.
    + destruct (truthy_number d) eqn:T; simpl.
      * split; [|discriminate]. intros _. exists d.
        split; [reflexivity|now apply truthy_nonzero].
      * split; [congruence|]. intros (d' & E & Hn). injection E as <-.
        apply truthy_nonzero in Hn. congruence.
    + split; [congruence|]. intros (d' & E & _). discriminate.
  - intros H. destruct (markers p); [contradiction|reflexivity].
  - intros d E Hn. rewrite E. apply truthy_nonzero in Hn. now rewrite Hn.
Qed.

Lemma init_request_omits_empty_fields_witness :
  exists fields,
    get "stepMarkersSec" fields
    = Some (JArr [JNum (3 # 1); JNum (8 # 1)])
    /\ get "durationSec" fields <> None.
Proof.
  destruct (init_request_omits_empty_fields mounted sample_props env_success
              (Http.request
                 (Client.initRecording https_prefixed sample_settings
                    (initPayload sample_props "a.mp4" 1024))))
    as (fields & _ & _ & D & M & _).
  - vm_compute. auto.
  - exists fields. split.
    + rewrite M; [reflexivity|discriminate].
    + apply D. exists (Fin (12 # 1)). split; [reflexivity|].
      simpl. discriminate.
Defined.

(* ===================================================================== *)
(** ** Response validation *)
(* ===================================================================== *)

Lemma ap_valid {A B} (pf : Parsed (A -> B)) (pa : Parsed A) (b : B) :
  ap pf pa = Valid b ->
  exists f a, pf = Valid f /\ pa = Valid a /\ b = f a.
Proof.
  destruct pf as [f|], pa as [a|]; simpl; try discriminate.
  intros H. injection H as <-. now exists f, a.
Qed.

Lemma pmap_valid {A B} (f : A -> B) (p : Parsed A) (b : B) :
  pmap f p = Valid b -> exists a, p = Valid a /\ b = f a.
Proof.
  destruct p as [a|]; simpl; try discriminate.
  intros H. injection H as <-. now exists a.
Qed.

Lemma is_valid_ap {A B} (pf : Parsed (A -> B)) (pa : Parsed A) :
  is_valid (ap pf pa) = is_valid pf && is_valid pa.
Proof. now destruct pf, pa. Qed.

Lemma is_valid_pmap {A B} (f : A -> B) (p : Parsed A) :
  is_valid (pmap f p) = is_valid p.
Proof. now destruct p. Qed.

Lemma is_valid_each {A B} (f : B -> Parsed A) (l : list B) :
  is_valid (each f l) = forallb (fun b => is_valid (f b)) l.
Proof.
  induction l as [|b l IH]; [reflexivity|].
  simpl. now rewrite is_valid_ap, is_valid_pmap, IH.
Qed.

Lemma reports_ap {A B} (pf : Parsed (A -> B)) (pa : Parsed A) :
  reports pf -> reports pa -> reports (ap pf pa).
Proof.
  unfold reports. destruct pf as [f|lf], pa as [a|la]; simpl;
    intros Hf Ha H; try discriminate.
  - now apply Ha.
  - rewrite app_nil_r. now apply Hf.
  - intros E. apply app_eq_nil in E. destruct E as [E _].
    now apply Hf.
Qed.

Lemma reports_pmap {A B} (f : A -> B) (p : Parsed A) :
  reports p -> reports (pmap f p).
Proof. unfold reports. now destruct p. Qed.

Lemma reports_each {A B} (f : B -> Parsed A) (l : list B) :
  (forall b, reports (f b)) -> reports (each f l).
Proof.
  intros Hf. induction l as [|b l IH]; [discriminate|].
  simpl. apply reports_ap; [apply reports_pmap, Hf|exact IH].
Qed.

Lemma reports_string p v : reports (z_string p v).
Proof. unfold reports. destruct v as [[]|]; simpl; congruence. Qed.

Lemma reports_number p v : reports (z_number p v).
Proof. unfold reports. destruct v as [[]|]; simpl; congruence. Qed.

Lemma reports_optional {A} (s : Schema A) p v :
  reports (s p v) -> reports (optional s p v).
Proof.
  destruct v; simpl; [apply reports_pmap|discriminate].
Qed.

Lemma reports_enum p v : reports (z_enum_status p v).
Proof.
  unfold reports. destruct v as [[]|]; simpl; try congruence.
  destruct (status_of_string s); simpl; congruence.
Qed.

Lemma reports_record p v : reports (z_record_string p v).
Proof.
  destruct v as [[]|]; try (unfold reports; simpl; congruence).
  apply reports_pmap, reports_each. intros kv.
  apply reports_pmap, reports_string.
Qed.

Lemma reports_array {A} (s : Schema A) p v :
  (forall q w, reports (s q w)) -> reports (z_array s p v).
Proof.
  intros Hs. destruct v as [[]|]; try (unfold reports; simpl; congruence).
  apply reports_each. intros ia. apply Hs.
Qed.

Lemma forallb_pointwise {A} (f g : A -> bool) (l : list A) :
  (forall a, f a = g a) -> forallb f l = forallb g l.
Proof.
  intros H. induction l as [|a l IH]; [reflexivity|].
  simpl. now rewrite H, IH.
Qed.

Lemma forallb_indexed {A} (g : A -> bool) (l : list A) :
  forall n, forallb (fun ia => g (snd ia)) (indexed n l) = forallb g l.
Proof.
  induction l as [|a l IH]; intros n; [reflexivity|].
  simpl. now rewrite IH.
Qed.

Lemma valid_string p v : is_valid (z_string p v) = is_string v.
Proof. now destruct v as [[]|]. Qed.

Lemma valid_number p v : is_valid (z_number p v) = is_number v.
Proof. now destruct v as [[]|]. Qed.

Lemma valid_enum p v : is_valid (z_enum_status p v) = is_status v.
Proof.
  destruct v as [[]|]; try reflexivity. simpl.
  unfold status_of_string.
  repeat match goal with
         | |- context [String.eqb s ?c] => destruct (String.eqb s c)
         end; reflexivity.
Qed.

Lemma valid_optional {A} (s : Schema A) (shape : option Json -> bool) p v :
  is_valid (s p v) = shape v ->
  is_valid (optional s p v) = absent_or shape v.
Proof.
  destruct v; simpl; [|reflexivity]. now rewrite is_valid_pmap.
Qed.

Lemma valid_record p v : is_valid (z_record_string p v) = is_header_map v.
Proof.
  destruct v as [[]|]; try reflexivity.
  unfold z_record_string, is_header_map.
  rewrite is_valid_pmap, is_valid_each. apply forallb_pointwise. intros kv.
  now rewrite is_valid_pmap, valid_string.
Qed.

Lemma issues_ap_right {A B} (pf : Parsed (A -> B)) (pa : Parsed A) i :
  In i (issues_of pa) -> In i (issues_of (ap pf pa)).
Proof.
  destruct pf, pa; simpl; try contradiction; intros H;
    try assumption; apply in_or_app; now right.
Qed.

Lemma issues_ap_left {A B} (pf : Parsed (A -> B)) (pa : Parsed A) i :
  In i (issues_of pf) -> In i (issues_of (ap pf pa)).
Proof.
  destruct pf, pa; simpl; try contradiction; intros H;
    apply in_or_app; now left.
Qed.

Lemma issues_ap_inv {A B} (pf : Parsed (A -> B)) (pa : Parsed A) i :
  In i (issues_of (ap pf pa)) -> In i (issues_of pf) \/ In i (issues_of pa).
Proof.
  intros H. destruct pf, pa; simpl in *; try contradiction;
    try apply in_app_or in H; tauto.
Qed.

Lemma issues_each_inv {A B} (f : B -> Parsed A) (l : list B) i :
  In i (issues_of (each f l)) -> exists b, In b l /\ In i (issues_of (f b)).
Proof.
  induction l as [|b l IH]; simpl; [contradiction|].
  intros H. apply issues_ap_inv in H. destruct H as [H|H].
  - exists b. split; [now left|]. now destruct (f b).
  - destruct (IH H) as (c & Hc & Hi). exists c. split; [now right|exact Hi].
Qed.

Lemma issues_pmap {A B} (f : A -> B) (p : Parsed A) :
  issues_of (pmap f p) = issues_of p.
Proof. now destruct p. Qed.

Lemma issue_invalid {A} (p : Parsed A) i :
  In i (issues_of p) -> is_valid p = false.
Proof. destruct p; [contradiction|reflexivity]. Qed.

Lemma invalid_issue {A} (p : Parsed A) :
  reports p -> is_valid p = false -> exists i, In i (issues_of p).
Proof.
  intros R H. specialize (R H). destruct (issues_of p) as [|i l];
    [now destruct R|]. exists i. now left.
Qed.

Lemma extends_here {A} (expected : string) p v i :
  In i (issues_of (@wrong_type A expected p v)) -> exists q, path i = p ++ q.
Proof.
  intros [<-|[]]. exists []. simpl. now rewrite app_nil_r.
Qed.

Lemma extends_string : extends z_string.
Proof.
  intros p v i. destruct v as [[| | |s| |]|];
    try apply (@extends_here string "string" p).
  simpl. contradiction.
Qed.

Lemma extends_number : extends z_number.
Proof.
  intros p v i. destruct v as [[| |q| | |]|];
    try apply (@extends_here Q "number" p).
  simpl. contradiction.
Qed.

Lemma extends_enum : extends z_enum_status.
Proof.
  intros p v i. destruct v as [[| | |s| |]|]; simpl;
    try (intros [<-|[]]; exists []; simpl; now rewrite app_nil_r).
  destruct (status_of_string s); simpl; [contradiction|].
  intros [<-|[]]. exists []. simpl. now rewrite app_nil_r.
Qed.

Lemma extends_optional {A} (s : Schema A) : extends s -> extends (optional s).
Proof.
  intros Hs p v i. destruct v; simpl; [|contradiction].
  rewrite issues_pmap. apply Hs.
Qed.

Lemma extends_below {A} (s : Schema A) (p : list PathSeg) (seg : PathSeg) v i :
  extends s -> In i (issues_of (s (p ++ [seg]) v)) ->
  exists q, path i = p ++ q.
Proof.
  intros Hs H. destruct (Hs _ _ _ H) as [q ->].
  exists (seg :: q). now rewrite <- app_assoc.
Qed.

Lemma extends_array {A} (s : Schema A) : extends s -> extends (z_array s).
Proof.
  intros Hs p v i. destruct v as [[| | | |items|]|];
    try apply (@extends_here (list A) "array" p).
  unfold z_array. intros H. apply issues_each_inv in H.
  destruct H as (ia & _ & H). exact (extends_below s p _ _ i Hs H).
Qed.

Lemma extends_record : extends z_record_string.
Proof.
  intros p v i. destruct v as [[| | | | |fields]|];
    try apply (@extends_here (list (string * string)) "object" p).
  unfold z_record_string. rewrite issues_pmap. intros H.
  apply issues_each_inv in H. destruct H as (kv & _ & H).
  rewrite issues_pmap in H.
  exact (extends_below z_string p _ _ i extends_string H).
Qed.

Lemma field_extends {A} (k : string) (s : Schema A) p o i :
  extends s -> In i (issues_of (field k s p o)) -> exists q, path i = p ++ q.
Proof. intros Hs H. exact (extends_below s p _ _ i Hs H). Qed.

Lemma field_under {A} (k : string) (s : Schema A) o i :
  extends s -> In i (issues_of (field k s [] o)) -> under k i.
Proof.
  intros Hs H. destruct (Hs _ _ _ H) as [q E]. unfold under. now rewrite E.
Qed.

Lemma string_issue p v :
  is_string v = false -> z_string p v = Invalid [type_issue "string" v p].
Proof. destruct v as [[]|]; simpl; try reflexivity. discriminate. Qed.

Section Validation.

Variable parsesAsUrl : string -> bool.

Lemma reports_url p v : reports (z_string_url parsesAsUrl p v).
Proof.
  unfold reports, z_string_url. destruct v as [[]|]; simpl; try congruence.
  destruct (parsesAsUrl s); simpl; congruence.
Qed.

Lemma valid_url p v :
  is_valid (z_string_url parsesAsUrl p v) = is_url parsesAsUrl v.
Proof.
  unfold z_string_url. destruct v as [[]|]; try reflexivity. simpl.
  now destruct (parsesAsUrl s).
Qed.

Lemma reports_init p v : reports (initRecordingResponseSchema parsesAsUrl p v).
Proof.
  destruct v as [[]|]; try (unfold reports; simpl; congruence).
  unfold initRecordingResponseSchema, field.
  repeat apply reports_ap; try discriminate.
  - apply reports_string.
  - apply reports_url.
  - apply reports_optional, reports_record.
Qed.

Lemma valid_init p j :
  is_valid (initRecordingResponseSchema parsesAsUrl p (Some j))
  = init_response_shape parsesAsUrl j.
Proof.
  destruct j; try reflexivity.
  unfold initRecordingResponseSchema, init_response_shape, field.
  rewrite !is_valid_ap, valid_string, valid_url.
  rewrite (valid_optional _ is_header_map) by apply valid_record.
  reflexivity.
Qed.

Lemma reports_evidence p v : reports (evidenceSchema parsesAsUrl p v).
Proof.
  unfold evidenceSchema. apply reports_optional.
  destruct v as [[]|]; try (unfold reports; simpl; congruence).
  unfold field. repeat apply reports_ap; try discriminate.
  - apply reports_optional, reports_string.
  - apply reports_optional, reports_url.
Qed.

Lemma valid_evidence p v :
  is_valid (evidenceSchema parsesAsUrl p v)
  = absent_or (evidence_shape parsesAsUrl) v.
Proof.
  unfold evidenceSchema. apply valid_optional.
  destruct v as [[]|]; try reflexivity.
  unfold evidence_shape, field. rewrite !is_valid_ap.
  rewrite (valid_optional _ is_string) by apply valid_string.
  rewrite (valid_optional _ (is_url parsesAsUrl)) by apply valid_url.
  reflexivity.
Qed.

Lemma reports_step p v : reports (recordingStepSchema parsesAsUrl p v).
Proof.
  destruct v as [[]|]; try (unfold reports; simpl; congruence).
  unfold recordingStepSchema, field.
  repeat apply reports_ap; try discriminate;
    first [apply reports_number | apply reports_string
          | apply reports_evidence].
Qed.

Lemma valid_step p j :
  is_valid (recordingStepSchema parsesAsUrl p (Some j))
  = step_shape parsesAsUrl j.
Proof.
  destruct j; try reflexivity.
  unfold recordingStepSchema, step_shape, field.
  now rewrite !is_valid_ap, !valid_number, !valid_string, valid_evidence.
Qed.

Lemma valid_steps p v :
  is_valid (z_array (recordingStepSchema parsesAsUrl) p v)
  = is_step_list parsesAsUrl v.
Proof.
  destruct v as [[]|]; try reflexivity.
  unfold z_array, is_step_list.
  rewrite is_valid_each.
  rewrite <- (forallb_indexed (step_shape parsesAsUrl) items 0).
  apply forallb_pointwise. intros ia. apply valid_step.
Qed.

Lemma reports_status p v : reports (recordingStatusSchema parsesAsUrl p v).
Proof.
  destruct v as [[]|]; try (unfold reports; simpl; congruence).
  unfold recordingStatusSchema, field.
  repeat apply reports_ap; try discriminate.
  - apply reports_string.
  - apply reports_enum.
  - apply reports_optional, reports_string.
  - apply reports_optional, reports_array. intros q w. apply reports_step.
Qed.

Lemma valid_status p j :
  is_valid (recordingStatusSchema parsesAsUrl p (Some j))
  = status_response_shape parsesAsUrl j.
Proof.
  destruct j; try reflexivity.
  unfold recordingStatusSchema, status_response_shape, field.
  rewrite !is_valid_ap, valid_string, valid_enum.
  rewrite (valid_optional _ is_string) by apply valid_string.
  rewrite (valid_optional _ (is_step_list parsesAsUrl)) by apply valid_steps.
  reflexivity.
Qed.

Lemma extends_url : extends (z_string_url parsesAsUrl).
Proof.
  intros p v i. unfold z_string_url.
  destruct (z_string p v) as [s|l] eqn:E.
  - destruct (parsesAsUrl s); simpl; [contradiction|].
    intros [<-|[]]. exists []. simpl. now rewrite app_nil_r.
  - intros H. apply (extends_string p v). now rewrite E.
Qed.

Lemma extends_evidence : extends (evidenceSchema parsesAsUrl).
Proof.
  unfold evidenceSchema. apply extends_optional. intros p v i.
  destruct v as [[| | | | |o]|]; try apply (@extends_here Evidence "object" p).
  intros H. apply issues_ap_inv in H. destruct H as [H|H].
  - apply issues_ap_inv in H. destruct H as [[]|H].
    exact (field_extends _ _ p o i (extends_optional _ extends_string) H).
  - exact (field_extends _ _ p o i (extends_optional _ extends_url) H).
Qed.

Lemma extends_step : extends (recordingStepSchema parsesAsUrl).
Proof.
  intros p v i.
  destruct v as [[| | | | |o]|];
    try apply (@extends_here RecordingStep "object" p).
  unfold recordingStepSchema. intros H.
  repeat (apply issues_ap_inv in H; destruct H as [H|H]);
    try contradiction;
    first [ exact (field_extends _ _ p o i extends_number H)
          | exact (field_extends _ _ p o i extends_string H)
          | exact (field_extends _ _ p o i extends_evidence H) ].
Qed.

(** The issues of a rejected init response locate its defects. *)
Lemma init_locates (o : list (string * Json)) :
  locates (init_properties parsesAsUrl) o
    (issues_of (initRecordingResponseSchema parsesAsUrl [] (Some (JObj o)))).
Proof.
  unfold initRecordingResponseSchema. split.
  - intros k (shape & Hin & Hs). simpl in Hin.
    destruct Hin as [E|[E|[E|[]]]]; injection E as <- <-.
    + destruct (invalid_issue (field "recordingId" z_string [] o)) as [i Hi];
        [apply reports_string|unfold field; now rewrite valid_string|].
      exists i. split; [|exact (field_under _ _ o i extends_string Hi)].
      now apply issues_ap_left, issues_ap_left, issues_ap_right.
    + destruct (invalid_issue
                  (field "uploadUrl" (z_string_url parsesAsUrl) [] o))
        as [i Hi]; [apply reports_url|unfold field; now rewrite valid_url|].
      exists i. split; [|exact (field_under _ _ o i extends_url Hi)].
      now apply issues_ap_left, issues_ap_right.
    + destruct (invalid_issue
                  (field "headers" (optional z_record_string) [] o))
        as [i Hi];
        [apply reports_optional, reports_record
        |unfold field;
         now rewrite (valid_optional _ is_header_map) by apply valid_record|].
      exists i. split;
        [|exact (field_under _ _ o i (extends_optional _ extends_record) Hi)].
      now apply issues_ap_right.
  - intros i H.
    apply issues_ap_inv in H. destruct H as [H|H];
      [apply issues_ap_inv in H; destruct H as [H|H];
       [apply issues_ap_inv in H; destruct H as [[]|H]|]|].
    + exists "recordingId"%string. split.
      * exists is_string. split; [simpl; auto|].
        rewrite <- (valid_string ([] ++ [Key "recordingId"])).
        exact (issue_invalid _ i H).
      * exact (field_under _ _ o i extends_string H).
    + exists "uploadUrl"%string. split.
      * exists (is_url parsesAsUrl). split; [simpl; auto|].
        rewrite <- (valid_url ([] ++ [Key "uploadUrl"])).
        exact (issue_invalid _ i H).
      * exact (field_under _ _ o i extends_url H).
    + exists "headers"%string. split.
      * exists (absent_or is_header_map). split; [simpl; auto|].
        rewrite <- (valid_optional z_record_string is_header_map
                      ([] ++ [Key "headers"]))
          by apply valid_record.
        exact (issue_invalid _ i H).
      * exact (field_under _ _ o i (extends_optional _ extends_record) H).
Qed.

(** The issues of a rejected status response locate its defects. *)
Lemma status_locates (o : list (string * Json)) :
  locates (status_properties parsesAsUrl) o
    (issues_of (recordingStatusSchema parsesAsUrl [] (Some (JObj o)))).
Proof.
  assert (Xs : extends (optional (z_array (recordingStepSchema parsesAsUrl))))
    by (apply extends_optional, extends_array, extends_step).
  unfold recordingStatusSchema. split.
  - intros k (shape & Hin & Hs). simpl in Hin.
    destruct Hin as [E|[E|[E|[E|[]]]]]; injection E as <- <-.
    + destruct (invalid_issue (field "recordingId" z_string [] o)) as [i Hi];
        [apply reports_string|unfold field; now rewrite valid_string|].
      exists i. split; [|exact (field_under _ _ o i extends_string Hi)].
      now apply issues_ap_left, issues_ap_left, issues_ap_left,
        issues_ap_right.
    + destruct (invalid_issue (field "status" z_enum_status [] o)) as [i Hi];
        [apply reports_enum|unfold field; now rewrite valid_enum|].
      exists i. split; [|exact (field_under _ _ o i extends_enum Hi)].
      now apply issues_ap_left, issues_ap_left, issues_ap_right.
    + destruct (invalid_issue (field "error" (optional z_string) [] o))
        as [i Hi];
        [apply reports_optional, reports_string
        |unfold field;
         now rewrite (valid_optional _ is_string) by apply valid_string|].
      exists i. split;
        [|exact (field_under _ _ o i (extends_optional _ extends_string) Hi)].
      now apply issues_ap_left, issues_ap_right.
    + destruct (invalid_issue
                  (field "steps"
                     (optional (z_array (recordingStepSchema parsesAsUrl)))
                     [] o)) as [i Hi];
        [apply reports_optional, reports_array; intros q w; apply reports_step
        |unfold field;
         now rewrite (valid_optional _ (is_step_list parsesAsUrl))
           by apply valid_steps|].
      exists i. split; [|exact (field_under _ _ o i Xs Hi)].
      now apply issues_ap_right.
  - intros i H.
    apply issues_ap_inv in H. destruct H as [H|H];
      [apply issues_ap_inv in H; destruct H as [H|H];
       [apply issues_ap_inv in H; destruct H as [H|H];
        [apply issues_ap_inv in H; destruct H as [[]|H]|]|]|].
    + exists "recordingId"%string. split.
      * exists is_string. split; [simpl; auto|].
        rewrite <- (valid_string ([] ++ [Key "recordingId"])).
        exact (issue_invalid _ i H).
      * exact (field_under _ _ o i extends_string H).
    + exists "status"%string. split.
      * exists is_status. split; [simpl; auto|].
        rewrite <- (valid_enum ([] ++ [Key "status"])).
        exact (issue_invalid _ i H).
      * exact (field_under _ _ o i extends_enum H).
    + exists "error"%string. split.
      * exists (absent_or is_string). split; [simpl; auto|].
        rewrite <- (valid_optional z_string is_string ([] ++ [Key "error"]))
          by apply valid_string.
        exact (issue_invalid _ i H).
      * exact (field_under _ _ o i (extends_optional _ extends_string) H).
    + exists "steps"%string. split.
      * exists (absent_or (is_step_list parsesAsUrl)).
        split; [simpl; auto 6|].
        rewrite <- (valid_optional (z_array (recordingStepSchema parsesAsUrl))
                      (is_step_list parsesAsUrl) ([] ++ [Key "steps"]))
          by apply valid_steps.
        exact (issue_invalid _ i H).
      * exact (field_under _ _ o i Xs H).
Qed.

(** What the error of a rejected init response tells. *)
Lemma init_issues (j : Json) :
  init_detail parsesAsUrl j
    (issues_of (initRecordingResponseSchema parsesAsUrl [] (Some j))).
Proof.
  destruct j as [| | | | |o]; try reflexivity.
  unfold init_detail. split; [apply init_locates|]. split.
  - intros k Hk Hs. unfold initRecordingResponseSchema.
    destruct Hk as [<-|[<-|[]]].
    + apply issues_ap_left, issues_ap_left, issues_ap_right.
      unfold field. rewrite (string_issue _ _ Hs). now left.
    + apply issues_ap_left, issues_ap_right.
      unfold field, z_string_url. rewrite (string_issue _ _ Hs). now left.
  - intros s Hg Hu. unfold initRecordingResponseSchema.
    apply issues_ap_left, issues_ap_right.
    unfold field, z_string_url. rewrite Hg. simpl. rewrite Hu. now left.
Qed.

(** What the error of a rejected status response tells. *)
Lemma status_issues (j : Json) :
  status_detail parsesAsUrl j
    (issues_of (recordingStatusSchema parsesAsUrl [] (Some j))).
Proof.
  destruct j as [| | | | |o]; try reflexivity.
  unfold status_detail. split; [apply status_locates|]. split.
  - intros Hs. unfold recordingStatusSchema.
    apply issues_ap_left, issues_ap_left, issues_ap_left, issues_ap_right.
    unfold field. rewrite (string_issue _ _ Hs). now left.
  - intros s Hg Hn. unfold recordingStatusSchema.
    apply issues_ap_left, issues_ap_left, issues_ap_right.
    unfold field, z_enum_status. rewrite Hg.
    assert (V := valid_enum [Key "status"] (Some (JStr s))).
    unfold is_status in V. rewrite Hn in V. unfold z_enum_status in V.
    destruct (status_of_string s); [discriminate|]. now left.
Qed.

(** A value that a schema does not accept makes [parse] throw a
    [ZodError] that carries the issues found, at least one. *)
Lemma parse_rejects {A} (schema : Schema A) (j : Json) :
  reports (schema [] (Some j)) ->
  is_valid (schema [] (Some j)) = false ->
  issues_of (schema [] (Some j)) <> []
  /\ parse schema j = Throw (ZodError (issues_of (schema [] (Some j)))).
Proof.
  unfold parse, reports. destruct (schema [] (Some j)) as [a|l]; simpl.
  - discriminate.
  - intros H E. split; [now apply H|reflexivity].
Qed.

Lemma string_valid p v s : z_string p v = Valid s -> v = Some (JStr s).
Proof. destruct v as [[]|]; simpl; try discriminate. now intros [= ->]. Qed.

Lemma url_valid p v s :
  z_string_url parsesAsUrl p v = Valid s ->
  v = Some (JStr s) /\ parsesAsUrl s = true.
Proof.
  unfold z_string_url. destruct v as [[]|]; simpl; try discriminate.
  destruct (parsesAsUrl s0) eqn:U; [|discriminate]. now intros [= <-].
Qed.

Lemma init_valid p j r :
  initRecordingResponseSchema parsesAsUrl p (Some j) = Valid r ->
  exists o,
    j = JObj o
    /\ get "recordingId" o = Some (JStr (Schemas.recordingId r))
    /\ get "uploadUrl" o = Some (JStr (Schemas.uploadUrl r))
    /\ parsesAsUrl (Schemas.uploadUrl r) = true
    /\ (Schemas.headers r = None <-> get "headers" o = None).
Proof.
  destruct j; try discriminate. unfold initRecordingResponseSchema, field.
  intros H. exists fields. split; [reflexivity|].
  apply ap_valid in H. destruct H as (f3 & h & H & Hh & ->).
  apply ap_valid in H. destruct H as (f2 & u & H & Hu & ->).
  apply ap_valid in H. destruct H as (f1 & i & H & Hi & ->).
  injection H as <-. simpl.
  apply string_valid in Hi. apply url_valid in Hu. destruct Hu as [Hu Hp].
  repeat split; try assumption.
  - intros ->. destruct (get "headers" fields); [|reflexivity].
    simpl in Hh. apply pmap_valid in Hh. destruct Hh as (? & _ & ?).
    discriminate.
  - intros E. rewrite E in Hh. simpl in Hh. now injection Hh as <-.
Qed.

Lemma enum_valid p v st :
  z_enum_status p v = Valid st ->
  exists s, v = Some (JStr s) /\ status_of_string s = Some st.
Proof.
  destruct v as [[]|]; simpl; try discriminate.
  destruct (status_of_string s) eqn:E; [|discriminate].
  intros [= <-]. now exists s.
Qed.

Lemma status_valid p j r :
  recordingStatusSchema parsesAsUrl p (Some j) = Valid r ->
  exists o s,
    j = JObj o
    /\ get "recordingId" o = Some (JStr (status_recordingId r))
    /\ get "status" o = Some (JStr s)
    /\ status_of_string s = Some (status r)
    /\ get "error" o = option_map JStr (Schemas.error r).
Proof.
  destruct j; try discriminate. unfold recordingStatusSchema, field.
  intros H.
  apply ap_valid in H. destruct H as (f4 & l & H & Hl & ->).
  apply ap_valid in H. destruct H as (f3 & e & H & He & ->).
  apply ap_valid in H. destruct H as (f2 & st & H & Hst & ->).
  apply ap_valid in H. destruct H as (f1 & i & H & Hi & ->).
  injection H as <-. simpl.
  apply string_valid in Hi. apply enum_valid in Hst.
  destruct Hst as (s & Hs & Hst).
  exists fields, s. repeat split; try assumption.
  destruct (get "error" fields) as [je|]; cbn [optional] in He.
  - apply pmap_valid in He. destruct He as (t & He & ->).
    apply string_valid in He. now injection He as ->.
  - now injection He as <-.
Qed.

(** C7, as the code has it.  A payload that does not have the shape
    that the schema declares (an object with the declared properties,
    each of its type, the optional ones absent or of their type) makes
    validation throw a [ZodError], and the client function that received
    it throws the same error; validation never returns a value for it.
    The error carries the issues found, at least one, and they locate the
    defects: every property that lacks its shape has an issue at or under
    it, every issue lies at or under such a property, a property that is
    no string where one is required has the issue that names the expected
    and the received type, and a payload that is no object has that one
    issue at the root.  A value that validation returns has the required
    fields exactly as the payload has them.  What section 3 asks beyond
    the declared shape is not checked. *)
Theorem malformed_response_is_rejected (j : Json) :
  (init_response_shape parsesAsUrl j = false ->
   exists issues,
     issues <> []
     /\ parse (initRecordingResponseSchema parsesAsUrl) j
        = Throw (ZodError issues)
     /\ init_detail parsesAsUrl j issues
     /\ forall (settings : Client.Settings)
               (payload : Client.InitRecordingRequest)
               (st : Z) (text : JsResult string),
         Http.ok (Http.mkResponse st text (Return j)) = true ->
         Http.complete (Client.initRecording parsesAsUrl settings payload)
           (Http.Responded (Http.mkResponse st text (Return j)))
         = Throw (ZodError issues))
  /\ (status_response_shape parsesAsUrl j = false ->
      exists issues,
        issues <> []
        /\ parse (recordingStatusSchema parsesAsUrl) j
           = Throw (ZodError issues)
        /\ status_detail parsesAsUrl j issues
        /\ forall (settings : Client.Settings) (id : string)
                  (st : Z) (text : JsResult string),
            Http.ok (Http.mkResponse st text (Return j)) = true ->
            Http.complete
              (Client.fetchRecordingStatus parsesAsUrl settings id)
              (Http.Responded (Http.mkResponse st text (Return j)))
            = Throw (ZodError issues))
  /\ (forall r,
         parse (initRecordingResponseSchema parsesAsUrl) j = Return r ->
         init_response_shape parsesAsUrl j = true
         /\ exists o,
             j = JObj o
             /\ get "recordingId" o = Some (JStr (Schemas.recordingId r))
             /\ get "uploadUrl" o = Some (JStr (Schemas.uploadUrl r))
             /\ (Schemas.headers r = None <-> get "headers" o = None))
  /\ (forall r,
         parse (recordingStatusSchema parsesAsUrl) j = Return r ->
         status_response_shape parsesAsUrl j = true
         /\ exists o s,
             j = JObj o
             /\ get "recordingId" o = Some (JStr (status_recordingId r))
             /\ get "status" o = Some (JStr s)
             /\ status_of_string s = Some (status r)
             /\ get "error" o = option_map JStr (Schemas.error r)).
Proof.
  split; [|split; [|split]].
  - intros H.
    destruct (parse_rejects (initRecordingResponseSchema parsesAsUrl) j)
      as [Hn Hp]; [apply reports_init|now rewrite valid_init|].
    eexists. split; [exact Hn|]. split; [exact Hp|].
    split; [apply init_issues|].
    intros settings payload st text Hok.
    unfold Http.complete, Client.initRecording. cbn [Http.onResponse].
    rewrite Hok. cbn [negb]. unfold Client.parseJson. simpl. exact Hp.
  - intros H.
    destruct (parse_rejects (recordingStatusSchema parsesAsUrl) j)
      as [Hn Hp]; [apply reports_status|now rewrite valid_status|].
    eexists. split; [exact Hn|]. split; [exact Hp|].
    split; [apply status_issues|].
    intros settings id st text Hok.
    unfold Http.complete, Client.fetchRecordingStatus. cbn [Http.onResponse].
    rewrite Hok. cbn [negb]. unfold Client.parseJson. simpl. exact Hp.
  - intros r H. unfold parse in H.
    destruct (initRecordingResponseSchema parsesAsUrl [] (Some j))
      as [a|l] eqn:E; [|discriminate].
    injection H as ->. split.
    + rewrite <- (valid_init []), E. reflexivity.
    + destruct (init_valid [] j r E) as (o & -> & Hi & Hu & _ & Hh).
      now exists o.
  - intros r H. unfold parse in H.
    destruct (recordingStatusSchema parsesAsUrl [] (Some j)) as [a|l] eqn:E;
      [|discriminate].
    injection H as ->. split.
    + rewrite <- (valid_status []), E. reflexivity.
    + exact (status_valid [] j r E).
Qed.

(** C6, as the code has it.  A successful init, for a request of any
    size, yields the [recordingId] and the [uploadUrl] that the backend
    sent in a 2xx response: the [recordingId] is a string, which the schema
    does not require to be non-empty, and the [uploadUrl] is a string that
    parses as an absolute URL. *)
Theorem init_success_yields_sent_fields
        (settings : Client.Settings) (payload : Client.InitRecordingRequest)
        (o : Http.FetchOutcome) (r : InitRecordingResponse) :
  0 < Client.sizeBytes payload ->
  Http.complete (Client.initRecording parsesAsUrl settings payload) o
  = Return r ->
  parsesAsUrl (Schemas.uploadUrl r) = true
  /\ exists response fields,
      o = Http.Responded response
      /\ Http.ok response = true
      /\ Http.json response = Return (JObj fields)
      /\ get "recordingId" fields = Some (JStr (Schemas.recordingId r))
      /\ get "uploadUrl" fields = Some (JStr (Schemas.uploadUrl r)).
Proof.
  intros _ H. destruct o as [response|e]; [|discriminate].
  unfold Http.complete, Client.initRecording in H. cbn [Http.onResponse] in H.
  destruct (Http.ok response) eqn:Hok; cbn [negb] in H;
    [|unfold Client.handleError in H; discriminate].
  unfold Client.parseJson in H.
  destruct (Http.json response) as [data|e] eqn:Hj; simpl in H;
    [|discriminate].
  unfold parse in H.
  destruct (initRecordingResponseSchema parsesAsUrl [] (Some data))
    as [a|l] eqn:E; [|discriminate].
  injection H as ->.
  destruct (init_valid [] data r E) as (fields & -> & Hi & Hu & Hp & _).
  split; [exact Hp|]. now exists response, fields.
Qed.

End Validation.

(** C6, as worded, fails: the backend answers the init request with an
    empty [recordingId]; the response passes validation and the init
    succeeds with that empty identifier. *)
Lemma init_as_stated_fails :
  ~ init_as_stated https_prefixed sample_settings sample_payload
      (json_response 200 empty_id_body).
Proof.
  intros H.
  destruct (H eq_refl
              (mkInitRecordingResponse "" "https://x/r1" None) eq_refl)
    as [N _].
  now apply N.
Qed.

Lemma init_success_yields_sent_fields_witness :
  https_prefixed "https://x/r1" = true
  /\ exists response fields,
      json_response 200 sample_init_body = Http.Responded response
      /\ Http.ok response = true
      /\ Http.json response = Return (JObj fields)
      /\ get "recordingId" fields = Some (JStr "r1")
      /\ get "uploadUrl" fields = Some (JStr "https://x/r1").
Proof.
  exact (init_success_yields_sent_fields https_prefixed sample_settings
           sample_payload (json_response 200 sample_init_body)
           (mkInitRecordingResponse "r1" "https://x/r1" None)
           eq_refl eq_refl).
Defined.

(** C7, as worded, fails: a status response that says [COMPLETED] and
    carries no steps does not fit section 3, where the steps are present
    exactly when the status is [COMPLETED]; the schema declares the steps
    optional, and the response is returned as valid. *)
Lemma malformed_as_stated_fails :
  ~ malformed_as_stated https_prefixed sample_settings completed_without_steps.
Proof.
  intros [_ H]. destruct (H eq_refl "r1"%string) as [issues E].
  vm_compute in E. discriminate.
Qed.

Lemma malformed_response_is_rejected_witness :
  Http.complete
    (Client.initRecording https_prefixed sample_settings sample_payload)
    (json_response 200 missing_url_body)
  = Throw (ZodError [type_issue "string" None [Key "uploadUrl"]]).
Proof.
  destruct (malformed_response_is_rejected https_prefixed missing_url_body)
    as (H & _).
  destruct (H eq_refl) as (issues & _ & P & _ & C).
  specialize (C sample_settings sample_payload 200 (Return ""%string)
                eq_refl).
  vm_compute in P. injection P as <-. exact C.
Defined.

(* ===================================================================== *)
(** ** The markers parameter *)
(* ===================================================================== *)

Section Markers.

Variable JSON_parse : string -> JsResult Json.
Variable ToNumber : Json -> number.

Local Abbreviation Number := (Params.Number ToNumber).

Lemma plain_converts (item : Json) :
  converts_plainly item -> Number item = Return (ToNumber item).
Proof.
  unfold Params.Number. destruct item; simpl; try contradiction;
    try reflexivity.
  now intros ->.
Qed.

Lemma Array_map_plain (items : list Json) :
  Forall converts_plainly items ->
  Array_map Number items = Return (map ToNumber items).
Proof.
  induction 1 as [|item items H _ IH]; [reflexivity|].
  simpl. rewrite (plain_converts item H). simpl. now rewrite IH.
Qed.

Lemma Array_map_throws (items : list Json) (item : Json) :
  In item items -> Params.unconvertible item = true ->
  exists e, Array_map Number items = Throw e.
Proof.
  induction items as [|a items IH]; intros Hin Hu; [contradiction|].
  simpl. destruct Hin as [->|Hin].
  - unfold Params.Number at 1. rewrite Hu. simpl. eauto.
  - destruct (Number a) as [n|e]; simpl; [|eauto].
    destruct (IH Hin Hu) as [e ->]. simpl. eauto.
Qed.

Lemma Array_map_returns (items : list Json) (numbers : list number) :
  Array_map Number items = Return numbers -> numbers = map ToNumber items.
Proof.
  revert numbers. induction items as [|a items IH]; intros numbers; simpl.
  - now intros [= <-].
  - unfold Params.Number at 1. destruct (Params.unconvertible a); simpl;
      [discriminate|].
    destruct (Array_map Number items) as [l|e]; simpl; [|discriminate].
    intros [= <-]. now rewrite (IH l eq_refl).
Qed.

Lemma filter_not_NaN (l : list number) :
  Forall (fun n => isNaN n = false) (filter (fun n => negb (isNaN n)) l).
Proof.
  apply Forall_forall. intros n Hn. apply filter_In in Hn.
  destruct Hn as [_ Hn]. now destruct (isNaN n).
Qed.

(** What [parseMarkersParam] returns, by the text it parses. *)
Lemma parseMarkersParam_cases (raw : Params.RawParam) :
  match parsed_text raw with
  | None => Params.parseMarkersParam JSON_parse ToNumber raw = Return []
  | Some text =>
      Params.parseMarkersParam JSON_parse ToNumber raw
      = Return
          match JSON_parse text with
          | Return (JArr items) =>
              match Array_map Number items with
              | Return numbers => filter (fun n => negb (isNaN n)) numbers
              | Throw _ => []
              end
          | _ => []
          end
  end.
Proof.
  unfold Params.parseMarkersParam, Params.parse_attempt.
  destruct raw as [|s|l]; simpl.
  - reflexivity.
  - destruct s as [|c s]; simpl; [reflexivity|].
    destruct (JSON_parse (String c s)) as [[| | | |items|]|e]; simpl;
      try reflexivity.
    destruct (Array_map Number items); reflexivity.
  - destruct l as [|s l]; simpl.
    + destruct (JSON_parse "undefined") as [[| | | |items|]|e]; simpl;
        try reflexivity.
      destruct (Array_map Number items); reflexivity.
    + destruct (JSON_parse s) as [[| | | |items|]|e]; simpl;
        try reflexivity.
      destruct (Array_map Number items); reflexivity.
Qed.

(** C9.  [parseMarkersParam] returns for every input and never throws;
    what it returns holds no [NaN].  It returns the empty array for
    [undefined] and for the empty string, for a text that [JSON.parse]
    rejects, and for a parsed value that is not an array.  For an array
    whose elements are primitives or objects without a [toString] of their
    own it returns the numbers of the elements without those that convert
    to [NaN]; for an array with an element whose conversion throws (an
    object that has a property [toString], or an array that holds one)
    the error is caught and the empty array is returned. *)
Theorem parseMarkersParam_total (raw : Params.RawParam) :
  exists markers,
    Params.parseMarkersParam JSON_parse ToNumber raw = Return markers
    /\ Forall (fun n => isNaN n = false) markers
    /\ (parsed_text raw = None -> markers = [])
    /\ (forall text,
           parsed_text raw = Some text ->
           (forall e, JSON_parse text = Throw e -> markers = [])
           /\ (forall j, JSON_parse text = Return j ->
                         (forall items, j <> JArr items) -> markers = [])
           /\ (forall items,
                  JSON_parse text = Return (JArr items) ->
                  (Forall converts_plainly items ->
                   markers = filter not_NaN (map ToNumber items))
                  /\ (forall fields v,
                         In (JObj fields) items ->
                         get "toString" fields = Some v ->
                         markers = [])
                  /\ markers
                     = if existsb Params.unconvertible items then []
                       else filter not_NaN (map ToNumber items))).
Proof.
  assert (C := parseMarkersParam_cases raw).
  destruct (parsed_text raw) as [text|].
  - eexists. split; [exact C|]. split.
    + destruct (JSON_parse text) as [[| | | |items|]|e]; try constructor.
      destruct (Array_map Number items); [apply filter_not_NaN|constructor].
    + split; [discriminate|]. intros text' [= <-].
      split; [|split].
      * intros e ->. reflexivity.
      * intros j -> Hj. destruct j; try reflexivity. now destruct (Hj items).
      * intros items ->. split; [|split].
        -- intros Hp. now rewrite Array_map_plain.
        -- intros fields v Hin Hg.
           destruct (Array_map_throws items (JObj fields) Hin) as [e ->];
             [simpl; now rewrite Hg|reflexivity].
        -- destruct (existsb Params.unconvertible items) eqn:X.
           ++ apply existsb_exists in X. destruct X as (item & Hin & Hu).
              now destruct (Array_map_throws items item Hin Hu) as [e ->].
           ++ destruct (Array_map Number items) as [numbers|e] eqn:M.
              ** now rewrite (Array_map_returns items numbers M).
              ** exfalso. clear - M X.
                 induction items as [|a items IH]; [discriminate|].
                 simpl in X. apply orb_false_elim in X.
                 destruct X as [Xa Xi]. simpl in M.
                 unfold Params.Number at 1 in M. rewrite Xa in M.
                 simpl in M.
                 destruct (Array_map Number items); [discriminate|].
                 now apply IH.
  - exists []. split; [exact C|]. split; [constructor|].
    split; [reflexivity|discriminate].
Qed.

End Markers.

Lemma parseMarkersParam_total_witness :
  Params.parseMarkersParam sample_JSON_parse sample_ToNumber
    (Params.Many ["[3,{},8]"%string; "ignored"%string])
  = Return [Fin (3 # 1); Fin (8 # 1)]
  /\ Params.parseMarkersParam sample_JSON_parse sample_ToNumber
       (Params.Single "[3,{},8]")
     = Return [Fin (3 # 1); Fin (8 # 1)]
  /\ Params.parseMarkersParam sample_JSON_parse sample_ToNumber
       (Params.Single shadowed_toString_text)
     = Return [].
Proof.
  split; [|split].
  - destruct (parseMarkersParam_total sample_JSON_parse sample_ToNumber
                (Params.Many ["[3,{},8]"%string; "ignored"%string]))
      as (markers & -> & _ & _ & H).
    destruct (H _ eq_refl) as (_ & _ & A).
    destruct (A _ eq_refl) as (P & _).
    f_equal. apply P. repeat constructor.
  - destruct (parseMarkersParam_total sample_JSON_parse sample_ToNumber
                (Params.Single "[3,{},8]"))
      as (markers & -> & _ & _ & H).
    destruct (H _ eq_refl) as (_ & _ & A).
    destruct (A _ eq_refl) as (P & _).
    f_equal. apply P. repeat constructor.
  - destruct (parseMarkersParam_total sample_JSON_parse sample_ToNumber
                (Params.Single shadowed_toString_text))
      as (markers & -> & _ & _ & H).
    destruct (H _ eq_refl) as (_ & _ & A).
    destruct (A _ eq_refl) as (_ & T & _).
    f_equal. apply (T [("toString"%string, JNum (1 # 1))] (JNum (1 # 1))).
    + right. left. reflexivity.
    + reflexivity.
Defined.

(* ===================================================================== *)
(** ** Status polling *)
(* ===================================================================== *)

Section Polling.

Import ResultScreen.

Variable parsesAsUrl : string -> bool.
Variable SETTINGS : Client.Settings.
Variable recordingId : string.

Local Abbreviation queryFn := (queryFn parsesAsUrl SETTINGS recordingId).
Local Abbreviation mounted := (mounted parsesAsUrl SETTINGS recordingId).
Local Abbreviation going := (goes_on parsesAsUrl SETTINGS recordingId).

Lemma polling_idle (library : Library) (outcomes : list Http.FetchOutcome)
      (q : Query) :
  scheduled q = false ->
  polling parsesAsUrl SETTINGS recordingId library outcomes q = q.
Proof. intros H. destruct outcomes; simpl; [reflexivity|now rewrite H]. Qed.

Lemma polling_app (library : Library) (a b : list Http.FetchOutcome) :
  forall q,
    polling parsesAsUrl SETTINGS recordingId library (a ++ b) q
    = polling parsesAsUrl SETTINGS recordingId library b
        (polling parsesAsUrl SETTINGS recordingId library a q).
Proof.
  induction a as [|o a IH]; intros q; [reflexivity|].
  simpl. destruct (scheduled q) eqn:S; [apply IH|].
  now rewrite polling_idle.
Qed.

Local Abbreviation received :=
  (received parsesAsUrl SETTINGS recordingId PassesData).
Local Abbreviation polling :=
  (polling parsesAsUrl SETTINGS recordingId PassesData).
Local Abbreviation poll := (poll parsesAsUrl SETTINGS recordingId PassesData).

Lemma intermediate_not_terminal (d : RecordingStatusResponse) :
  intermediate_status (status d) -> terminal d = false.
Proof.
  unfold terminal. intros [H|[H|[H|H]]]; now rewrite H.
Qed.

Lemma terminal_status_terminal (d : RecordingStatusResponse) :
  terminal_status (status d) -> terminal d = true.
Proof. unfold terminal. intros [H|H]; now rewrite H. Qed.

Lemma received_terminal (o : Http.FetchOutcome) (q : Query)
      (d : RecordingStatusResponse) :
  Http.complete queryFn o = Return d -> terminal_status (status d) ->
  scheduled (received o q) = false /\ data (received o q) = Some d
  /\ List.length (issued (received o q)) = List.length (issued q).
Proof.
  intros Hd Ht. unfold ResultScreen.received. rewrite Hd. simpl.
  rewrite (terminal_status_terminal d Ht). simpl.
  now rewrite app_nil_r.
Qed.

Lemma received_live (o : Http.FetchOutcome) (q : Query) :
  0 < Client.pollIntervalMs SETTINGS ->
  live q -> going o ->
  live (received o q)
  /\ List.length (issued (received o q)) = S (List.length (issued q))
  /\ (forall e, Http.complete queryFn o = Throw e ->
                data (received o q) = data q
                /\ isError (received o q) = true).
Proof.
  intros Hms [Hs Hd] Hg.
  assert (P : (0 <? Client.pollIntervalMs SETTINGS) = true)
    by now apply Z.ltb_lt.
  unfold goes_on in Hg.
  unfold ResultScreen.received, live.
  destruct (Http.complete _ o) as [d|e]; simpl.
  - rewrite (intermediate_not_terminal d Hg). simpl. rewrite P.
    rewrite length_app. simpl. repeat split; try assumption;
      try discriminate; try lia;
      try now apply intermediate_not_terminal.
  - destruct (data q) as [d|]; [rewrite Hd|]; simpl; rewrite P;
      rewrite length_app; simpl; repeat split; try assumption; lia.
Qed.

Lemma polling_live (before : list Http.FetchOutcome) :
  0 < Client.pollIntervalMs SETTINGS ->
  Forall going before ->
  forall q, live q ->
    live (polling before q)
    /\ List.length (issued (polling before q))
       = (List.length (issued q) + List.length before)%nat.
Proof.
  intros Hms. induction 1 as [|o before Ho _ IH]; intros q Hq.
  - simpl. split; [assumption|lia].
  - destruct (received_live o q Hms Hq Ho) as (L & N & _).
    simpl. destruct Hq as [Hs Hd]. rewrite Hs.
    destruct (IH _ L) as [L' N']. split; [assumption|].
    rewrite N', N. simpl. lia.
Qed.

(** With a library that hands the query object to the callback, the
    callback never answers [false]: the polling goes on after every
    status, terminal or not. *)
Lemma polling_goes_on_with_query_argument
      (outcomes : list Http.FetchOutcome) :
  0 < Client.pollIntervalMs SETTINGS ->
  enabled recordingId = true ->
  scheduled (ResultScreen.poll parsesAsUrl SETTINGS recordingId PassesQuery
               outcomes) = true.
Proof.
  intros Hms Hen.
  assert (P : (0 <? Client.pollIntervalMs SETTINGS) = true)
    by now apply Z.ltb_lt.
  unfold ResultScreen.poll.
  assert (M : scheduled mounted = true).
  { unfold ResultScreen.mounted. now rewrite Hen. }
  revert M. generalize mounted as q.
  induction outcomes as [|o outcomes IH]; intros q M; [exact M|].
  simpl. rewrite M. apply IH. unfold ResultScreen.received. simpl.
  exact P.
Qed.


End Polling.


(* ===================================================================== *)
(** ** The scenarios of the specification, run on the model *)
(* ===================================================================== *)

(** Init answers [r1], the upload reports 0.3, 0.7 and 1.0 and succeeds,
    the completion call succeeds: the run is done with the three requests
    made. *)
Example scenario_success :
  fst (run mounted sample_props env_success) = Done tt
  /\ state (screen (final mounted sample_props env_success)) = S_done
  /\ UploadScreen.recordingId (screen (final mounted sample_props env_success))
     = Some "r1"%string
  /\ requests (actions (final mounted sample_props env_success))
     = [InitRequest; UploadTransfer; CompleteCall].
Proof. repeat split. Qed.

(** An init response without [uploadUrl]: the issue names the property. *)
Example scenario_missing_uploadUrl :
  parse (initRecordingResponseSchema https_prefixed) missing_url_body
  = Throw (ZodError [mkIssue (invalid_type "string" "undefined")
                             [Key "uploadUrl"]]).
Proof. reflexivity. Qed.

(** The statuses CREATED, PROCESSING, PROCESSING, COMPLETED arrive: four
    requests are issued and the polling has stopped, also when more
    outcomes would be at hand. *)
Example scenario_poll :
  List.length
    (ResultScreen.issued
       (ResultScreen.poll https_prefixed sample_settings "r1"
          ResultScreen.PassesData
          [json_response 200 (status_body "CREATED");
           json_response 200 (status_body "PROCESSING");
           json_response 200 (status_body "PROCESSING");
           json_response 200 (status_body "COMPLETED");
           json_response 200 (status_body "PROCESSING")])) = 4%nat
  /\ ResultScreen.scheduled
       (ResultScreen.poll https_prefixed sample_settings "r1"
          ResultScreen.PassesData
          [json_response 200 (status_body "CREATED");
           json_response 200 (status_body "PROCESSING");
           json_response 200 (status_body "PROCESSING");
           json_response 200 (status_body "COMPLETED");
           json_response 200 (status_body "PROCESSING")]) = false.
Proof. split; reflexivity. Qed.

(* ===================================================================== *)
(** ** Further properties of the client and of the schemas *)
(* ===================================================================== *)

Lemma string_app_assoc (a b c : string) :
  ((a ++ b) ++ c = a ++ (b ++ c))%string.
Proof. induction a as [|x a IH]; simpl; [reflexivity|now rewrite IH]. Qed.

Section ClientGate.

Variable parsesAsUrl : string -> bool.
Variable settings : Client.Settings.

Lemma handleError_throws {T} (response : Http.Response) :
  exists message,
    @Client.handleError T response = Throw (Error message)
    /\ (forall text,
           Http.text response = Return text -> text <> "" ->
           message = "Request failed ("
                       ++ string_of_Z (Http.status response) ++ "): " ++ text)%string
    /\ ((Http.text response = Return ""%string
         \/ exists e, Http.text response = Throw e) ->
        message = "Request failed ("
                    ++ string_of_Z (Http.status response) ++ ")")%string.
Proof.
  unfold Client.handleError. eexists. split; [reflexivity|]. split.
  - intros text -> Hne. destruct text; [contradiction|].
    cbn [truthy_string]. rewrite !string_app_assoc. reflexivity.
  - intros [->|[e ->]]; reflexivity.
Qed.

(** X1.  A response outside 200..299 makes each function of the client throw
    an [Error] whose text is ["Request failed (N)"], followed by [": "] and
    the body text when there is one; the body is not parsed, so this holds
    also for a body that has the expected shape.  A 2xx response to the
    completion call is a success whatever its body. *)
Theorem client_fails_outside_2xx (response : Http.Response) :
  (Http.ok response = false ->
   forall (payload : Client.InitRecordingRequest) (id : string),
   exists message,
     Http.complete (Client.initRecording parsesAsUrl settings payload)
                   (Http.Responded response) = Throw (Error message)
     /\ Http.complete (Client.markUploadComplete settings id)
                      (Http.Responded response) = Throw (Error message)
     /\ Http.complete (Client.fetchRecordingStatus parsesAsUrl settings id)
                      (Http.Responded response) = Throw (Error message)
     /\ (forall text,
            Http.text response = Return text -> text <> "" ->
            message = "Request failed ("
                        ++ string_of_Z (Http.status response)
                        ++ "): " ++ text)%string
     /\ ((Http.text response = Return ""%string
          \/ exists e, Http.text response = Throw e) ->
         message = "Request failed ("
                     ++ string_of_Z (Http.status response) ++ ")")%string)
  /\ (Http.ok response = true ->
      forall id : string,
        Http.complete (Client.markUploadComplete settings id)
                      (Http.Responded response) = Return tt).
Proof.
  split.
  - intros Hok payload id.
    destruct (@handleError_throws unit response) as (message & H & Ht & He).
    exists message. unfold Http.complete, Client.initRecording,
      Client.markUploadComplete, Client.fetchRecordingStatus.
    cbn [Http.onResponse]. rewrite Hok. cbn [negb].
    unfold Client.handleError in *. repeat split; try assumption.
    + now injection H as <-.
    + now injection H as <-.
  - intros Hok id. unfold Http.complete, Client.markUploadComplete.
    cbn [Http.onResponse]. now rewrite Hok.
Qed.

End ClientGate.

Lemma client_fails_outside_2xx_witness :
  Http.complete (Client.fetchRecordingStatus https_prefixed sample_settings "r1")
    (Http.Responded
       (Http.mkResponse 404 (Return "no such recording"%string)
                        (Return (status_body "COMPLETED"))))
  = Throw (Error "Request failed (404): no such recording").
Proof.
  destruct (client_fails_outside_2xx https_prefixed sample_settings
              (Http.mkResponse 404 (Return "no such recording"%string)
                               (Return (status_body "COMPLETED"))))
    as [H _].
  destruct (H eq_refl sample_payload "r1"%string)
    as (message & _ & _ & S & T & _).
  rewrite S. f_equal. f_equal. apply T; [reflexivity|discriminate].
Defined.

Lemma each_valid {A B} (f : B -> Parsed A) (l : list B) (l' : list A) :
  each f l = Valid l' -> Forall2 (fun b a => f b = Valid a) l l'.
Proof.
  revert l'. induction l as [|b l IH]; intros l' H.
  - simpl in H. injection H as <-. constructor.
  - simpl in H. apply ap_valid in H. destruct H as (g & t & Hg & Ht & ->).
    apply pmap_valid in Hg. destruct Hg as (a & Ha & ->).
    constructor; [assumption|now apply IH].
Qed.

Lemma kept_entry_key (k : string) (j : Json) :
  kept_entry (k, j) = negb (String.eqb k "__proto__").
Proof.
  unfold kept_entry. simpl.
  destruct (String.eqb k "__proto__") eqn:E.
  - apply String.eqb_eq in E. now subst.
  - apply String.eqb_neq in E.
    repeat (destruct k as [|[[] [] [] [] [] [] [] []] k];
            try reflexivity).
    now destruct E.
Qed.

Lemma record_entries p (entries : list (string * Json))
      (all : list (string * string)) :
  Forall2 (fun kv a =>
             pmap (pair (fst kv))
                  (z_string (p ++ [Key (fst kv)]) (Some (snd kv)))
             = Valid a) entries all ->
  Forall text_entry entries
  /\ header_entries
       (filter (fun kv => negb (String.eqb (fst kv) "__proto__")) all)
     = filter kept_entry entries.
Proof.
  induction 1 as [|kv a entries all Hkv _ [IHt IHh]]; [now split|].
  apply pmap_valid in Hkv. destruct Hkv as (s & Hs & ->).
  apply string_valid in Hs. injection Hs as Hs.
  destruct kv as [k j]. simpl in Hs. subst j. split.
  - constructor; [now exists s|assumption].
  - cbn [filter fst]. rewrite (kept_entry_key k (JStr s)).
    destruct (negb (String.eqb k "__proto__")); simpl; now rewrite IHh.
Qed.

Lemma record_valid p v h :
  z_record_string p v = Valid h ->
  exists entries,
    v = Some (JObj entries)
    /\ Forall text_entry entries
    /\ header_entries h = filter kept_entry entries.
Proof.
  destruct v as [[| | | | |entries]|]; try discriminate.
  unfold z_record_string. intros H.
  apply pmap_valid in H. destruct H as (all & H & ->).
  apply each_valid in H. exists entries. split; [reflexivity|].
  exact (record_entries p entries all H).
Qed.

Lemma number_valid p v q : z_number p v = Valid q -> v = Some (JNum q).
Proof. destruct v as [[]|]; simpl; try discriminate. now intros [= ->]. Qed.

Lemma indexed_Forall2 {A B} (P : A -> B -> Prop) (l : list A) (l' : list B) :
  forall n,
    Forall2 (fun ia b => P (snd ia) b) (indexed n l) l' -> Forall2 P l l'.
Proof.
  revert l'. induction l as [|a l IH]; intros l' n H; inversion H; subst.
  - constructor.
  - constructor; [assumption|]. eapply IH. eassumption.
Qed.

Lemma parse_issue {A} (schema : Schema A) (j : Json) i :
  In i (issues_of (schema [] (Some j))) ->
  exists issues, In i issues /\ parse schema j = Throw (ZodError issues).
Proof.
  unfold parse. destruct (schema [] (Some j)) as [a|l]; simpl;
    [contradiction|]. intros H. now exists l.
Qed.

Section SchemaProperties.

Variable parsesAsUrl : string -> bool.

Lemma step_valid p j s :
  recordingStepSchema parsesAsUrl p (Some j) = Valid s -> step_matches j s.
Proof.
  destruct j; try discriminate. unfold recordingStepSchema, field.
  intros H.
  apply ap_valid in H. destruct H as (f6 & ev & H & _ & ->).
  apply ap_valid in H. destruct H as (f5 & d & H & Hd & ->).
  apply ap_valid in H. destruct H as (f4 & t & H & Ht & ->).
  apply ap_valid in H. destruct H as (f3 & e & H & He & ->).
  apply ap_valid in H. destruct H as (f2 & b & H & Hb & ->).
  apply ap_valid in H. destruct H as (f1 & i & H & Hi & ->).
  injection H as <-. exists fields. simpl.
  apply number_valid in Hi, Hb, He. apply string_valid in Ht, Hd.
  repeat split; assumption.
Qed.

(** X2.  A payload that has the structural shape of its response is accepted:
    with a 2xx status, [initRecording] and [fetchRecordingStatus] return a
    value for it. *)
Theorem well_shaped_response_is_accepted
        (settings : Client.Settings) (response : Http.Response) (j : Json) :
  Http.ok response = true ->
  Http.json response = Return j ->
  (init_response_shape parsesAsUrl j = true ->
   forall payload,
   exists r,
     Http.complete (Client.initRecording parsesAsUrl settings payload)
                   (Http.Responded response) = Return r)
  /\ (status_response_shape parsesAsUrl j = true ->
      forall id,
      exists r,
        Http.complete (Client.fetchRecordingStatus parsesAsUrl settings id)
                      (Http.Responded response) = Return r).
Proof.
  intros Hok Hj. split.
  - intros Hs payload.
    unfold Http.complete, Client.initRecording. cbn [Http.onResponse].
    rewrite Hok. cbn [negb]. unfold Client.parseJson. rewrite Hj.
    cbn [Js.bind]. unfold parse. rewrite <- (valid_init parsesAsUrl []) in Hs.
    destruct (initRecordingResponseSchema parsesAsUrl [] (Some j)) as [r|];
      [now exists r|discriminate].
  - intros Hs id.
    unfold Http.complete, Client.fetchRecordingStatus. cbn [Http.onResponse].
    rewrite Hok. cbn [negb]. unfold Client.parseJson. rewrite Hj.
    cbn [Js.bind]. unfold parse.
    rewrite <- (valid_status parsesAsUrl []) in Hs.
    destruct (recordingStatusSchema parsesAsUrl [] (Some j)) as [r|];
      [now exists r|discriminate].
Qed.

(** X3.  Validation reads only the properties that the schema names: two
    objects that agree on them validate alike, whatever else they carry. *)
Theorem validation_ignores_other_properties (o1 o2 : list (string * Json)) :
  (agree_on init_keys o1 o2 ->
   parse (initRecordingResponseSchema parsesAsUrl) (JObj o1)
   = parse (initRecordingResponseSchema parsesAsUrl) (JObj o2))
  /\ (agree_on status_keys o1 o2 ->
      parse (recordingStatusSchema parsesAsUrl) (JObj o1)
      = parse (recordingStatusSchema parsesAsUrl) (JObj o2)).
Proof.
  split; intros H; unfold parse, initRecordingResponseSchema,
    recordingStatusSchema, field.
  - rewrite (H "recordingId"%string), (H "uploadUrl"%string),
      (H "headers"%string); try reflexivity; simpl; auto.
  - rewrite (H "recordingId"%string), (H "status"%string),
      (H "error"%string), (H "steps"%string); try reflexivity; simpl; auto 6.
Qed.

(** X4.  An optional property must be absent, not [null]: an init response
    with [headers: null] and a status response with [error: null] or
    [steps: null] are rejected, with an issue at that property. *)
Theorem null_is_not_absent (o : list (string * Json)) :
  (get "headers" o = Some JNull ->
   exists issues,
     In (mkIssue (invalid_type "object" "null") [Key "headers"]) issues
     /\ parse (initRecordingResponseSchema parsesAsUrl) (JObj o)
        = Throw (ZodError issues))
  /\ (get "error" o = Some JNull ->
      exists issues,
        In (mkIssue (invalid_type "string" "null") [Key "error"]) issues
        /\ parse (recordingStatusSchema parsesAsUrl) (JObj o)
           = Throw (ZodError issues))
  /\ (get "steps" o = Some JNull ->
      exists issues,
        In (mkIssue (invalid_type "array" "null") [Key "steps"]) issues
        /\ parse (recordingStatusSchema parsesAsUrl) (JObj o)
           = Throw (ZodError issues)).
Proof.
  split; [|split]; intros H; apply parse_issue.
  - unfold initRecordingResponseSchema, field. rewrite H.
    apply issues_ap_right. simpl. now left.
  - unfold recordingStatusSchema, field. rewrite H.
    apply issues_ap_left, issues_ap_right. simpl. now left.
  - unfold recordingStatusSchema, field. rewrite H.
    apply issues_ap_right. simpl. now left.
Qed.

(** X5.  The headers and the steps of a validated response are those of the
    payload, in the same order: every header entry of the payload has a
    text as its value and is kept, but for an entry under the key
    ["__proto__"], which is left out; and every step is kept with its
    required fields. *)
Theorem validated_collections_are_preserved (o : list (string * Json)) :
  (forall r h,
      parse (initRecordingResponseSchema parsesAsUrl) (JObj o) = Return r ->
      Schemas.headers r = Some h ->
      exists entries,
        get "headers" o = Some (JObj entries)
        /\ Forall text_entry entries
        /\ header_entries h = filter kept_entry entries)
  /\ (forall r l,
         parse (recordingStatusSchema parsesAsUrl) (JObj o) = Return r ->
         steps r = Some l ->
         exists items,
           get "steps" o = Some (JArr items)
           /\ Forall2 step_matches items l).
Proof.
  split.
  - intros r h H Hh. unfold parse in H.
    destruct (initRecordingResponseSchema parsesAsUrl [] (Some (JObj o)))
      as [a|] eqn:E; [|discriminate].
    injection H as ->. unfold initRecordingResponseSchema, field in E.
    apply ap_valid in E. destruct E as (f3 & h' & E & Hv & ->).
    apply ap_valid in E. destruct E as (f2 & u & E & _ & ->).
    apply ap_valid in E. destruct E as (f1 & i & E & _ & ->).
    injection E as <-. simpl in Hh. subst h'.
    destruct (get "headers" o) as [jh|]; cbn [optional] in Hv;
      [|discriminate].
    apply pmap_valid in Hv. destruct Hv as (h' & Hv & [= ->]).
    apply record_valid in Hv. destruct Hv as (entries & [= ->] & Ht & Hk).
    now exists entries.
  - intros r l H Hl. unfold parse in H.
    destruct (recordingStatusSchema parsesAsUrl [] (Some (JObj o)))
      as [a|] eqn:E; [|discriminate].
    injection H as ->. unfold recordingStatusSchema, field in E.
    apply ap_valid in E. destruct E as (f4 & l' & E & Hv & ->).
    apply ap_valid in E. destruct E as (f3 & e & E & _ & ->).
    apply ap_valid in E. destruct E as (f2 & st & E & _ & ->).
    apply ap_valid in E. destruct E as (f1 & i & E & _ & ->).
    injection E as <-. simpl in Hl. subst l'.
    destruct (get "steps" o) as [js|]; cbn [optional] in Hv; [|discriminate].
    apply pmap_valid in Hv. destruct Hv as (l' & Hv & [= ->]).
    destruct js; try discriminate. exists items. split; [reflexivity|].
    unfold z_array in Hv. apply each_valid in Hv.
    apply (indexed_Forall2 step_matches items _ 0).
    eapply Forall2_impl; [|exact Hv].
    intros ia s Hs. exact (step_valid _ _ _ Hs).
Qed.

End SchemaProperties.

Lemma well_shaped_response_is_accepted_witness :
  exists r,
    Http.complete
      (Client.fetchRecordingStatus https_prefixed sample_settings "r1")
      (json_response 200 completed_body) = Return r.
Proof.
  destruct (well_shaped_response_is_accepted https_prefixed sample_settings
              (Http.mkResponse 200 (Return ""%string) (Return completed_body))
              completed_body eq_refl eq_refl) as [_ H].
  exact (H eq_refl "r1"%string).
Defined.

Lemma validation_ignores_other_properties_witness :
  parse (initRecordingResponseSchema https_prefixed)
        (JObj [("expiresIn", JNum (60 # 1)); ("recordingId", JStr "r1");
               ("uploadUrl", JStr "https://x/r1")])
  = parse (initRecordingResponseSchema https_prefixed) sample_init_body.
Proof.
  destruct (validation_ignores_other_properties https_prefixed
              [("expiresIn", JNum (60 # 1)); ("recordingId", JStr "r1");
               ("uploadUrl", JStr "https://x/r1")]
              [("recordingId", JStr "r1"); ("uploadUrl", JStr "https://x/r1")])
    as [H _].
  apply H. intros key Hk. simpl in Hk.
  destruct Hk as [<-|[<-|[<-|[]]]]; reflexivity.
Defined.

Lemma null_is_not_absent_witness :
  exists issues,
    In (mkIssue (invalid_type "string" "null") [Key "error"]) issues
    /\ parse (recordingStatusSchema https_prefixed)
             (JObj [("recordingId", JStr "r1"); ("status", JStr "PROCESSING");
                    ("error", JNull)])
       = Throw (ZodError issues).
Proof.
  destruct (null_is_not_absent https_prefixed
              [("recordingId", JStr "r1"); ("status", JStr "PROCESSING");
               ("error", JNull)]) as (_ & H & _).
  exact (H eq_refl).
Defined.

Lemma validated_collections_are_preserved_witness :
  (exists items,
      get "steps" [("recordingId", JStr "r1"); ("status", JStr "COMPLETED");
                   ("steps", JArr [sample_step])] = Some (JArr items)
      /\ Forall2 step_matches items
           [mkRecordingStep 0 0 (4 # 1) "Open the valve" "Turn left" None])
  /\ header_entries [("x-amz-acl", "private")]
     = filter kept_entry
         [("__proto__", JStr "x"); ("x-amz-acl", JStr "private")].
Proof.
  split.
  - destruct (validated_collections_are_preserved https_prefixed
                [("recordingId", JStr "r1"); ("status", JStr "COMPLETED");
                 ("steps", JArr [sample_step])]) as [_ H].
    exact (H (mkRecordingStatusResponse "r1" COMPLETED None
                (Some [mkRecordingStep 0 0 (4 # 1) "Open the valve"
                                       "Turn left" None]))
             _ eq_refl eq_refl).
  - destruct (validated_collections_are_preserved https_prefixed
                [("recordingId", JStr "r1"); ("uploadUrl", JStr "https://x/r1");
                 ("headers", JObj [("__proto__", JStr "x");
                                   ("x-amz-acl", JStr "private")])])
      as [H _].
    destruct (H (mkInitRecordingResponse "r1" "https://x/r1"
                   (Some [("x-amz-acl", "private")]))
                _ eq_refl eq_refl) as (entries & E & _ & K).
    injection E as <-. exact K.
Defined.

(* ===================================================================== *)
(** ** Further properties of the transport *)
(* ===================================================================== *)

Section TransportEdges.

Variable params : UploadParams.

Lemma progress_prefix (events : list XhrEvent) :
  forallb is_progress events = true
  \/ exists pre ev post,
      events = map Progress pre ++ ev :: post /\ is_progress ev = false.
Proof.
  induction events as [|ev events IH]; [now left|].
  destruct ev as [st| |e|].
  - right. now exists [], (Load st), events.
  - right. now exists [], NetworkError, events.
  - destruct IH as [IH|(pre & ev & post & -> & H)].
    + now left.
    + right. now exists (e :: pre), ev, post.
  - right. now exists [], SignalAbort, events.
Qed.

Lemma all_progress (events : list XhrEvent) :
  forallb is_progress events = true ->
  exists pre, events = map Progress pre.
Proof.
  induction events as [|ev events IH]; intros H; [now exists []|].
  simpl in H. apply andb_prop in H. destruct H as [He H].
  destruct ev; try discriminate. destruct (IH H) as [pre ->].
  now exists (event :: pre).
Qed.

(** X6.  A transfer has no time limit of its own: with a signal passed, its
    promise is pending exactly as long as nothing but progress has
    arrived; the first load, error or abort settles it. *)
Theorem transfer_pending_iff_only_progress (events : list XhrEvent) :
  signal params = true ->
  (outcome (uploadVideo params None events) = None
   <-> forallb is_progress events = true).
Proof.
  intros Hsig. unfold outcome, promise, uploadVideo.
  fold (deliver_all params events (started params None)). split.
  - intros H. destruct (progress_prefix events)
      as [P|(pre & ev & post & -> & Hev)]; [exact P|].
    exfalso. revert H.
    assert (S : exists cb,
               settles cb = true
               /\ forall y, readyState y = readyState (started params None) ->
                    closure (deliver params ev y)
                    = invoke params cb (closure y)).
    { destruct ev as [st| |e|]; try discriminate.
      - exists (OnLoad st). split; [reflexivity|]. intros y _. reflexivity.
      - exists OnError. split; [reflexivity|]. intros y _. reflexivity.
      - exists OnAbort. split; [reflexivity|]. intros y Hy. simpl.
        now rewrite Hsig, Hy. }
    destruct S as (cb & Hcb & Hd).
    rewrite (first_decides params pre ev post cb); try reflexivity;
      try assumption.
    destruct (settlement_single params cb Hcb) as [s ->]. discriminate.
  - intros H. destruct (all_progress events H) as [pre ->].
    destruct (deliver_progress params pre (started params None))
      as (_ & -> & _).
    reflexivity.
Qed.

(** X7.  When [xhr.send] throws, the promise is rejected with what was thrown,
    whatever the request reports afterwards. *)
Theorem send_throw_rejects (err : Exn) (events : list XhrEvent) :
  outcome (uploadVideo params (Some err) events) = Some (Rejected err).
Proof.
  unfold outcome, promise, uploadVideo.
  fold (deliver_all params events (started params (Some err))).
  now rewrite deliver_all_settled.
Qed.

Lemma deliver_done (ev : XhrEvent) (x : Xhr) :
  readyState x = DONE ->
  readyState (deliver params ev x) = DONE
  /\ (is_abort ev = true -> deliver params ev x = x).
Proof.
  intros H. destruct ev as [st| |e|]; simpl.
  - split; [reflexivity|discriminate].
  - split; [reflexivity|discriminate].
  - split; [assumption|discriminate].
  - rewrite H. simpl. rewrite andb_false_r. split; [assumption|reflexivity].
Qed.

(** X8.  Once the request is done (a response or a transport failure has been
    reported), an abort of the signal does nothing: the request is not
    aborted and the state of the transfer is as if the abort had not
    happened. *)
Theorem abort_after_done_is_ignored (events : list XhrEvent) (x : Xhr) :
  readyState x = DONE ->
  deliver_all params events x
  = deliver_all params (filter (fun ev => negb (is_abort ev)) events) x.
Proof.
  revert x. induction events as [|ev events IH]; intros x H; [reflexivity|].
  destruct (deliver_done ev x H) as [Hd Ha].
  change (deliver_all params (ev :: events) x)
    with (deliver_all params events (deliver params ev x)).
  simpl filter. destruct (is_abort ev) eqn:A; simpl negb; cbv iota.
  - rewrite (Ha eq_refl). now apply IH.
  - change (deliver_all params
              (ev :: filter (fun ev => negb (is_abort ev)) events) x)
      with (deliver_all params
              (filter (fun ev => negb (is_abort ev)) events)
              (deliver params ev x)).
    now apply IH.
Qed.

End TransportEdges.

Lemma transfer_pending_iff_only_progress_witness :
  outcome (uploadVideo sample_params None
             [Progress (mkProgressEvent true 1 4);
              Progress (mkProgressEvent true 2 4)]) = None.
Proof.
  apply (transfer_pending_iff_only_progress sample_params
           [Progress (mkProgressEvent true 1 4);
            Progress (mkProgressEvent true 2 4)] eq_refl).
  reflexivity.
Defined.

Lemma abort_after_done_is_ignored_witness :
  deliver_all sample_params [SignalAbort; NetworkError; SignalAbort]
              (uploadVideo sample_params None [Load 204])
  = deliver_all sample_params [NetworkError]
                (uploadVideo sample_params None [Load 204]).
Proof.
  exact (abort_after_done_is_ignored sample_params
           [SignalAbort; NetworkError; SignalAbort]
           (uploadVideo sample_params None [Load 204]) eq_refl).
Defined.

(* ===================================================================== *)
(** ** Further properties of the upload flow *)
(* ===================================================================== *)

Lemma awaiting_screen (params : UploadParams) (events : list UploadEvent) :
  signal params = true ->
  forall x w,
    settled (closure x) = false -> settlements (closure x) = [] ->
    readyState x = OPENED -> abortRef (screen w) = true ->
    snd (awaiting params events x w)
    = mkWorld (screen_after_wait params events (screen w)) (actions w).
Proof.
  intros Hsig.
  induction events as [|ev rest IH]; intros x w Hs He Hr Ha.
  - simpl. unfold promise. rewrite He. now destruct w.
  - cbn [awaiting]. unfold promise at 1. rewrite He. cbn [hd_error].
    destruct x as [r [flag calls reps]]. simpl in Hs, He, Hr. subst.
    destruct ev as [[st| |pe|]|]; cbn [receive screen_after_wait].
    + cbn [deliver invoke closure]. unfold onload. cbn [settled].
      destruct ((200 <=? st) && (st <? 300));
        erewrite awaiting_settled by reflexivity; now destruct w.
    + erewrite awaiting_settled by reflexivity. now destruct w.
    + rewrite IH; simpl; try reflexivity;
        try (unfold onprogress; destruct (emitted params pe); reflexivity).
      destruct (emitted params pe); simpl; assumption.
    + cbn [deliver readyState is_done negb]. rewrite Hsig.
      cbn [andb]. erewrite awaiting_settled by reflexivity. now destruct w.
    + unfold handleCancel. rewrite Ha.
      cbn [deliver readyState is_done negb]. rewrite Hsig.
      cbn [andb]. erewrite awaiting_settled by reflexivity. reflexivity.
Qed.

(** The wait of the flow, in full: how it ends and what it leaves on the
    screen. *)
Lemma awaiting_started_screen (params : UploadParams) (env : Environment)
      (w : World) :
  signal params = true -> abortRef (screen w) = true ->
  awaiting params (uploadEvents env) (started params (sendThrows env)) w
  = (transfer_result env, mkWorld (waited params env (screen w)) (actions w)).
Proof.
  intros Hsig Ha.
  destruct (awaiting_started params env w Hsig Ha) as [s' H].
  rewrite H. f_equal. unfold waited.
  destruct (sendThrows env) as [err|] eqn:S.
  - unfold started in H. simpl in H.
    erewrite awaiting_settled in H by reflexivity.
    injection H as _ H. now rewrite <- H; destruct w.
  - rewrite <- (awaiting_screen params (uploadEvents env) Hsig
                  (started params None) w); try reflexivity; try assumption.
    now rewrite H.
Qed.

Lemma wait_keeps (params : UploadParams) (events : list UploadEvent) :
  forall s,
    UploadScreen.recordingId (screen_after_wait params events s)
    = UploadScreen.recordingId s
    /\ (find decisive events <> Some CancelPressed ->
        state (screen_after_wait params events s) = state s
        /\ UploadScreen.error (screen_after_wait params events s)
           = UploadScreen.error s).
Proof.
  induction events as [|ev rest IH]; intros s; [now simpl|].
  destruct ev as [[st| |pe|]|]; simpl; try (split; [reflexivity|now intros _]).
  - destruct (IH (match emitted params pe with
                  | Some v => with_progress v s
                  | None => s
                  end)) as [Hr Hs].
    rewrite Hr. split; [now destruct (emitted params pe)|].
    intros H. destruct (Hs H) as [-> ->].
    now destruct (emitted params pe).
  - split; [reflexivity|]. intros H. now contradiction H.
Qed.

Lemma last_cons {A} (a d : A) (l : list A) : last (a :: l) d = last l a.
Proof.
  revert a d. induction l as [|b l IH]; intros a d; [reflexivity|].
  change (last (a :: b :: l) d) with (last (b :: l) d).
  now rewrite (IH b d), (IH b a).
Qed.

Lemma wait_progress (params : UploadParams) (events : list UploadEvent) :
  onProgress params = true ->
  forall s,
    progress (screen_after_wait params events s)
    = last (map fraction (filter lengthComputable (before_decision events)))
           (progress s).
Proof.
  intros Hp. induction events as [|ev rest IH]; intros s; [reflexivity|].
  destruct ev as [[st| |pe|]|]; try reflexivity.
  cbn [screen_after_wait before_decision filter]. rewrite IH.
  unfold emitted. rewrite Hp.
  destruct (lengthComputable pe); simpl andb; cbv iota; [|reflexivity].
  cbn [map]. now rewrite last_cons.
Qed.

Lemma pending_result (env : Environment) :
  transfer_result env = Pending ->
  sendThrows env = None /\ find decisive (uploadEvents env) = None.
Proof.
  unfold transfer_result. destruct (sendThrows env); [discriminate|].
  destruct (find decisive (uploadEvents env)) as [ev|] eqn:F; [|now split].
  apply find_some in F. destruct F as [_ F].
  destruct ev as [[st| |pe|]|]; simpl; try discriminate.
  now destruct (success_status st).
Qed.

Lemma uncancelled_result (env : Environment) (params : UploadParams)
      (s : Screen) :
  transfer_result env <> Raised cancelled ->
  state (waited params env s) = state s.
Proof.
  unfold transfer_result, waited. destruct (sendThrows env); [reflexivity|].
  intros H. apply wait_keeps.
  intros F. rewrite F in H. now apply H.
Qed.

(** The walk through [startUploadFlow] with the screen after the wait made
    explicit. *)
Ltac walk_with_screen p env early :=
  unfold final, run, startUploadFlow;
  destruct (truthy_string (videoUri p)) eqn:Huri; unfold_flow;
  [ destruct (fileInfo env) as [[info|einfo]|] eqn:Hinfo; unfold_flow;
    [ destruct (readable_size info) as [size|] eqn:Hsize; unfold_flow;
      [ match goal with
        | |- context [call_result ?c (initOutcome env)] =>
            destruct (call_result c (initOutcome env)) as [[r|einit]|]
              eqn:Hinit
        end; unfold_flow;
        [ match goal with
          | |- context [awaiting ?ps (uploadEvents env) ?x ?w] =>
              rewrite (awaiting_started_screen ps env w eq_refl eq_refl)
          end
        | early
        | early ]
      | early ]
    | early
    | early ]
  | early ].

Lemma call_unsettled {T} (c : Http.Call T) (o : option Http.FetchOutcome) :
  call_result c o = Unsettled -> o = None.
Proof. destruct o; [discriminate|reflexivity]. Qed.

(** X9.  No exception escapes [startUploadFlow].  A run that returns has left
    the screen in ['done'] or in ['error'].  A run that does not return is
    suspended at one of its four awaits, each of which has no time limit:
    at the file inspection, in ['init'] with no request made; at the init
    call, in ['init'] with the init request made; at the transfer, in
    ['uploading'] with nothing but progress received; or at the completion
    call, in ['notifying'] after a transfer that succeeded.  The screen is
    in ['done'] exactly when the run has navigated to the result screen. *)
Theorem startUploadFlow_ends (s0 : Screen) (p : Props) (env : Environment) :
  (forall e, fst (run s0 p env) <> Raised e)
  /\ (fst (run s0 p env) = Done tt ->
      state (screen (final s0 p env)) = S_done
      \/ state (screen (final s0 p env)) = S_error)
  /\ (fst (run s0 p env) = Pending ->
      (state (screen (final s0 p env)) = S_init
       /\ requests (actions (final s0 p env)) = []
       /\ fileInfo env = Unsettled)
      \/ (state (screen (final s0 p env)) = S_init
          /\ requests (actions (final s0 p env)) = [InitRequest]
          /\ initOutcome env = None)
      \/ (state (screen (final s0 p env)) = S_uploading
          /\ requests (actions (final s0 p env))
             = [InitRequest; UploadTransfer]
          /\ transfer_result env = Pending)
      \/ (state (screen (final s0 p env)) = S_notifying
          /\ requests (actions (final s0 p env))
             = [InitRequest; UploadTransfer; CompleteCall]
          /\ transfer_result env = Done tt
          /\ completeOutcome env = None))
  /\ (state (screen (final s0 p env)) = S_done
      <-> exists id, In (RouterReplace "/result" id)
                        (actions (final s0 p env))).
Proof.
  split; [|split; [|split]].
  - intros e. walk_with_screen p env ltac:(cbn; discriminate).
    destruct (transfer_result env) as [[]|e'|]; unfold_flow;
      try (cbn; discriminate).
    split_completion C; cbn; discriminate.
  - walk_with_screen p env ltac:(cbn; auto; discriminate).
    destruct (transfer_result env) as [[]|e'|]; unfold_flow;
      try (cbn; auto; discriminate).
    split_completion C; cbn; auto; discriminate.
  - walk_with_screen p env ltac:(try (cbn; discriminate)).
    + destruct (transfer_result env) as [[]|e'|] eqn:R; unfold_flow;
        try (cbn; discriminate).
      * split_completion C; try (cbn; discriminate).
        intros _. do 3 right. cbn. apply call_unsettled in C. auto.
      * intros _. do 2 right. left. cbn [fst snd screen actions].
        rewrite uncancelled_result by (rewrite R; discriminate).
        repeat split.
    + intros _. right. left. cbn. apply call_unsettled in Hinit. auto.
    + intros _. left. cbn. auto.
  - walk_with_screen p env
      ltac:(cbn; split; [discriminate|];
            intros [id H]; try contradiction;
            repeat (destruct H as [H|H]; try discriminate;
                    try contradiction)).
    destruct (transfer_result env) as [[]|e'|] eqn:R; unfold_flow.
    + split_completion C; cbn.
      * split; [intros _|reflexivity]. eexists. do 4 right. now left.
      * split; [discriminate|]. intros [id H].
        repeat (destruct H as [H|H]; try discriminate; try contradiction).
      * split; [discriminate|]. intros [id H].
        repeat (destruct H as [H|H]; try discriminate; try contradiction).
    + cbn. split; [discriminate|]. intros [id H].
      repeat (destruct H as [H|H]; try discriminate; try contradiction).
    + cbn [fst snd screen actions].
      rewrite uncancelled_result by (rewrite R; discriminate).
      cbn. split; [discriminate|]. intros [id H].
      repeat (destruct H as [H|H]; try discriminate; try contradiction).
Qed.

Lemma startUploadFlow_ends_witness :
  (state (screen (final mounted sample_props env_init_unanswered)) = S_init
   /\ requests (actions (final mounted sample_props env_init_unanswered))
      = [InitRequest])
  /\ (state (screen (final mounted sample_props env_complete_unanswered))
      = S_notifying
      /\ requests
           (actions (final mounted sample_props env_complete_unanswered))
         = [InitRequest; UploadTransfer; CompleteCall]).
Proof.
  split.
  - destruct (startUploadFlow_ends mounted sample_props env_init_unanswered)
      as (_ & _ & P & _).
    destruct (P eq_refl) as [(_ & _ & F)|[(S & R & _)|[(S & _)|(S & _)]]];
      [vm_compute in F; discriminate F
      |now split
      |vm_compute in S; discriminate S
      |vm_compute in S; discriminate S].
  - destruct (startUploadFlow_ends mounted sample_props
                env_complete_unanswered) as (_ & _ & P & _).
    destruct (P eq_refl)
      as [(S & _)|[(S & _)|[(S & _)|(S & R & _)]]];
      [vm_compute in S; discriminate S
      |vm_compute in S; discriminate S
      |vm_compute in S; discriminate S
      |now split].
Defined.

Lemma has_slash_app (a b : string) :
  has_slash (a ++ b) = has_slash a || has_slash b.
Proof.
  induction a as [|c a IH]; [reflexivity|].
  simpl. now rewrite IH, orb_assoc.
Qed.

Lemma last_segment_app (a b : string) :
  forall acc, last_segment (a ++ b) acc = last_segment b (last_segment a acc).
Proof.
  induction a as [|c a IH]; intros acc; [reflexivity|].
  simpl. destruct (Ascii.eqb c "/"); apply IH.
Qed.

Lemma last_segment_plain (s : string) :
  has_slash s = false ->
  forall acc, last_segment s acc = (acc ++ s)%string.
Proof.
  induction s as [|c s IH]; intros H acc.
  - simpl. clear H. induction acc as [|x acc IHa]; [reflexivity|].
    simpl. now rewrite <- IHa.
  - simpl in H. apply orb_false_iff in H. destruct H as [Hc Hs].
    simpl. rewrite Hc, (IH Hs). now rewrite string_app_assoc.
Qed.

Lemma last_segment_no_slash (s : string) :
  forall acc, has_slash acc = false -> has_slash (last_segment s acc) = false.
Proof.
  induction s as [|c s IH]; intros acc H; [exact H|].
  simpl. destruct (Ascii.eqb c "/") eqn:E; apply IH; [reflexivity|].
  rewrite has_slash_app, H. simpl. now rewrite E.
Qed.

(** X10.  The file name sent with the upload is the part of the URI after its
    last ["/"], and ["recording.mp4"] when that part is empty: it is never
    empty and never contains a ["/"]. *)
Theorem fileName_is_last_segment (uri dir name : string) :
  fileName_of uri <> ""%string
  /\ has_slash (fileName_of uri) = false
  /\ (has_slash name = false -> name <> ""%string ->
      fileName_of (dir ++ "/" ++ name) = name)
  /\ fileName_of (dir ++ "/") = "recording.mp4"%string.
Proof.
  unfold fileName_of, or_else. split; [|split; [|split]].
  - destruct (last_segment uri "") eqn:E; simpl; discriminate.
  - destruct (truthy_string (last_segment uri "")); [|reflexivity].
    now apply last_segment_no_slash.
  - intros Hs Hn. rewrite !last_segment_app. simpl.
    rewrite (last_segment_plain name Hs). simpl.
    destruct name; [contradiction|reflexivity].
  - rewrite last_segment_app. reflexivity.
Qed.

Lemma fileName_is_last_segment_parts (uri : string) :
  fileName_of uri <> ""%string /\ has_slash (fileName_of uri) = false.
Proof.
  unfold fileName_of, or_else. split.
  - destruct (last_segment uri "") eqn:E; simpl; discriminate.
  - destruct (truthy_string (last_segment uri "")); [|reflexivity].
    now apply last_segment_no_slash.
Qed.

Lemma fileName_is_last_segment_witness :
  fileName_of ("file:///var/cache" ++ "/" ++ "clip-01.mp4") = "clip-01.mp4"%string.
Proof.
  destruct (fileName_is_last_segment ""%string "file:///var/cache"%string
              "clip-01.mp4"%string) as (_ & _ & H & _).
  apply H; [reflexivity|discriminate].
Defined.

Lemma waited_recordingId (params : UploadParams) (env : Environment)
      (s : Screen) :
  UploadScreen.recordingId (waited params env s) = UploadScreen.recordingId s.
Proof.
  unfold waited. destruct (sendThrows env); [reflexivity|]. apply wait_keeps.
Qed.

Lemma readable_size_none (info : FileInfo) :
  readable_size info = None
  <-> exists_ info = false \/ size info = None \/ size info = Some 0.
Proof.
  unfold readable_size. destruct (exists_ info).
  - destruct (size info) as [n|].
    + destruct (n =? 0) eqn:E.
      * apply Z.eqb_eq in E. subst. split; auto.
      * apply Z.eqb_neq in E. split; [discriminate|].
        intros [H|[H|H]]; try discriminate. injection H as H. contradiction.
    + split; auto.
  - split; auto.
Qed.

Lemma readable_size_some (info : FileInfo) (sz : Z) :
  readable_size info = Some sz ->
  exists_ info = true /\ size info = Some sz /\ sz <> 0.
Proof.
  unfold readable_size. destruct (exists_ info); [|discriminate].
  destruct (size info) as [n|]; [|discriminate].
  destruct (n =? 0) eqn:E; [discriminate|]. apply Z.eqb_neq in E.
  intros [= <-]. auto.
Qed.

Ltac no_member H :=
  try contradiction;
  repeat (destruct H as [H|H]; try discriminate; try contradiction).

Lemma request_needs_file (s0 : Screen) (p : Props) (env : Environment) :
  requests (actions (final s0 p env)) <> [] ->
  videoUri p <> ""%string
  /\ exists info sz,
      fileInfo env = Settled (Return info)
      /\ exists_ info = true /\ size info = Some sz /\ sz <> 0.
Proof.
  walk_with_screen p env ltac:(try (cbn; intros H; now contradiction H)).
  - intros _. split; [now destruct (videoUri p)|].
    destruct (readable_size_some info size Hsize) as (He & Hs & Hn).
    now exists info, size.
  - intros _. split; [now destruct (videoUri p)|].
    destruct (readable_size_some info size Hsize) as (He & Hs & Hn).
    now exists info, size.
  - intros _. split; [now destruct (videoUri p)|].
    destruct (readable_size_some info size Hsize) as (He & Hs & Hn).
    now exists info, size.
Qed.

(** X11.  No request is made for a missing or unreadable video.  Without a URI
    the run only sets the error; with a file that does not exist or whose
    size is missing or zero it inspects the file and stops with the error
    ["Could not read video file."].  Every run that makes a request had a
    URI and a file with a size other than zero. *)
Theorem startUploadFlow_needs_readable_file (s0 : Screen) (p : Props)
        (env : Environment) :
  (videoUri p = ""%string ->
   run s0 p env
   = (Done tt,
      mkWorld (with_state S_error
                 (with_error (Some "Missing video to upload."%string) s0)) []))
  /\ (forall info,
         videoUri p <> ""%string ->
         fileInfo env = Settled (Return info) ->
         exists_ info = false \/ size info = None \/ size info = Some 0 ->
         actions (final s0 p env)
         = [GetInfoAsync (videoUri p);
            ConsoleError (Error "Could not read video file.")]
         /\ state (screen (final s0 p env)) = S_error
         /\ UploadScreen.error (screen (final s0 p env))
            = Some "Could not read video file."%string)
  /\ (requests (actions (final s0 p env)) <> [] ->
      videoUri p <> ""%string
      /\ exists info sz,
          fileInfo env = Settled (Return info)
          /\ exists_ info = true /\ size info = Some sz /\ sz <> 0).
Proof.
  split; [|split].
  - intros H. unfold run, startUploadFlow. rewrite H. reflexivity.
  - intros info Hu Hi Hr. apply readable_size_none in Hr.
    unfold final, run, startUploadFlow.
    destruct (videoUri p) eqn:U; [contradiction|]. cbn [truthy_string negb].
    unfold_flow. rewrite Hi. unfold_flow. rewrite Hr. unfold_flow.
    cbn. repeat split.
  - apply request_needs_file.
Qed.

Lemma startUploadFlow_needs_readable_file_witness :
  actions (final mounted sample_props
             (mkEnvironment (Settled (Return (mkFileInfo true (Some 0))))
                (Some (json_response 200 sample_init_body)) None []
                (Some (json_response 200 JNull))))
  = [GetInfoAsync "file:///clips/a.mp4";
     ConsoleError (Error "Could not read video file.")].
Proof.
  destruct (startUploadFlow_needs_readable_file mounted sample_props
              (mkEnvironment (Settled (Return (mkFileInfo true (Some 0))))
                 (Some (json_response 200 sample_init_body)) None []
                 (Some (json_response 200 JNull)))) as (_ & H & _).
  destruct (H (mkFileInfo true (Some 0))) as (A & _).
  - discriminate.
  - reflexivity.
  - right. right. reflexivity.
  - exact A.
Defined.

Lemma completion_succeeded (settings : Client.Settings) (id : string)
      (o : option Http.FetchOutcome) :
  call_result (Client.markUploadComplete settings id) o = Settled (Return tt)
  -> exists response,
      o = Some (Http.Responded response) /\ Http.ok response = true.
Proof.
  destruct o as [[response|e]|]; try discriminate.
  unfold call_result, Http.complete, Client.markUploadComplete.
  cbn [Http.onResponse]. destruct (Http.ok response) eqn:K.
  - intros _. now exists response.
  - unfold Client.handleError. discriminate.
Qed.

(** X12.  The run navigates to the result screen only after the completion call
    has succeeded: then the init request, the transfer and the completion
    call were all made and all succeeded, the route is ["/result"], and the
    identifier handed over is the one of the init response, which is also
    the one on the screen and the one that the completion request names:
    the only completion request of the run is the [POST] to
    [/api/recordings/<id>/complete], without a body, and it was answered
    with a status in 2xx. *)
Theorem navigation_follows_completion (s0 : Screen) (p : Props)
        (env : Environment) (path id : string) :
  In (RouterReplace path id) (actions (final s0 p env)) ->
  path = "/result"%string
  /\ fst (run s0 p env) = Done tt
  /\ requests (actions (final s0 p env))
     = [InitRequest; UploadTransfer; CompleteCall]
  /\ transfer_result env = Done tt
  /\ UploadScreen.recordingId (screen (final s0 p env)) = Some id
  /\ (forall req,
         In (Fetch Http.Complete req) (actions (final s0 p env))
         <-> req = Http.mkRequest "POST"
                     (Client.apiBaseUrl (SETTINGS p) ++ "/api/recordings/"
                        ++ id ++ "/complete")
                     [] None)
  /\ (exists response,
         completeOutcome env = Some (Http.Responded response)
         /\ Http.ok response = true)
  /\ exists sz r,
      call_result (init_call p sz) (initOutcome env) = Settled (Return r)
      /\ id = Schemas.recordingId r.
Proof.
  walk_with_screen p env ltac:(cbn; intros H; no_member H).
  destruct (transfer_result env) as [[]|e'|] eqn:R; unfold_flow;
    try solve [cbn; intros H; no_member H].
  split_completion C; cbn; intros H; no_member H.
  injection H as <- <-.
  rewrite waited_recordingId. repeat split; try assumption.
  - intros H. no_member H. now injection H as <-.
  - intros ->. do 3 right. now left.
  - exact (completion_succeeded _ _ _ C).
  - exists size, r. split; [exact Hinit|reflexivity].
Qed.

Lemma navigation_follows_completion_witness :
  requests (actions (final mounted sample_props env_success))
  = [InitRequest; UploadTransfer; CompleteCall]
  /\ UploadScreen.recordingId (screen (final mounted sample_props env_success))
     = Some "r1"%string
  /\ In (Fetch Http.Complete
           (Http.mkRequest "POST"
              "https://api.example/api/recordings/r1/complete" [] None))
        (actions (final mounted sample_props env_success)).
Proof.
  destruct (navigation_follows_completion mounted sample_props env_success
              "/result"%string "r1"%string) as (_ & _ & R & _ & I & Q & _).
  - vm_compute. auto 10.
  - split; [exact R|]. split; [exact I|]. apply Q. reflexivity.
Defined.

(** X13.  The transfer is made with what the init response carries: a [PUT] to
    its [uploadUrl], with its headers in their order followed by the
    [Content-Type] of the settings; the identifier of that response is the
    one shown on the screen from then on. *)
Theorem transfer_uses_init_response (s0 : Screen) (p : Props)
        (env : Environment) (req : XhrRequest) :
  In (XhrSend req) (actions (final s0 p env)) ->
  exists sz r,
    call_result (init_call p sz) (initOutcome env) = Settled (Return r)
    /\ req = request_of (transfer_params p r)
    /\ xhr_method req = "PUT"%string
    /\ xhr_url req = Schemas.uploadUrl r
    /\ xhr_headers req
       = match Schemas.headers r with Some h => h | None => [] end
         ++ [("Content-Type"%string, Client.uploadContentType (SETTINGS p))]
    /\ xhr_body req
       = (videoUri p, Client.uploadContentType (SETTINGS p),
          fileName_of (videoUri p))
    /\ UploadScreen.recordingId (screen (final s0 p env))
       = Some (Schemas.recordingId r).
Proof.
  walk_with_screen p env ltac:(cbn; intros H; no_member H).
  assert (G : forall s',
             UploadScreen.recordingId s' = Some (Schemas.recordingId r) ->
             exists sz r0,
               call_result (init_call p sz) (initOutcome env)
               = Settled (Return r0)
               /\ request_of (transfer_params p r)
                  = request_of (transfer_params p r0)
               /\ xhr_method (request_of (transfer_params p r))
                  = "PUT"%string
               /\ xhr_url (request_of (transfer_params p r))
                  = Schemas.uploadUrl r0
               /\ xhr_headers (request_of (transfer_params p r))
                  = match Schemas.headers r0 with Some h => h | None => [] end
                    ++ [("Content-Type"%string,
                         Client.uploadContentType (SETTINGS p))]
               /\ xhr_body (request_of (transfer_params p r))
                  = (videoUri p, Client.uploadContentType (SETTINGS p),
                     fileName_of (videoUri p))
               /\ UploadScreen.recordingId s'
                  = Some (Schemas.recordingId r0)).
  { intros s' Hid. exists size, r. repeat split; assumption. }
  destruct (transfer_result env) as [[]|e'|] eqn:R; unfold_flow.
  - split_completion C; cbn [fst snd screen actions app]; intros H;
      cbn in H; no_member H; injection H as <-; apply G; cbn;
      now rewrite waited_recordingId.
  - cbn [fst snd screen actions app]. intros H.
    cbn in H; no_member H; injection H as <-; apply G; cbn;
      now rewrite waited_recordingId.
  - cbn [fst snd screen actions app]. intros H.
    cbn in H; no_member H; injection H as <-; apply G; cbn;
      now rewrite waited_recordingId.
Qed.

Lemma transfer_uses_init_response_witness :
  exists req,
    In (XhrSend req) (actions (final mounted sample_props env_with_headers))
    /\ xhr_url req = "https://x/r7"%string
    /\ xhr_headers req
       = [("x-amz-acl", "private"); ("Content-Type", "video/mp4")]%string.
Proof.
  exists (request_of
            (transfer_params sample_props
               (mkInitRecordingResponse "r7" "https://x/r7"
                  (Some [("x-amz-acl", "private")]%string)))).
  assert (M : In (XhrSend
                    (request_of
                       (transfer_params sample_props
                          (mkInitRecordingResponse "r7" "https://x/r7"
                             (Some [("x-amz-acl", "private")]%string)))))
                 (actions (final mounted sample_props env_with_headers))).
  { vm_compute. auto. }
  split; [exact M|].
  destruct (transfer_uses_init_response mounted sample_props env_with_headers
              _ M) as (sz & r & _ & E & _).
  split; reflexivity.
Defined.

(** X14.  The init request describes the file that was inspected: a [POST] to
    the init endpoint whose body carries the size that the file inspection
    reported (never zero), the content type of the settings, and the file
    name derived from the URI, which is neither empty nor contains a
    ["/"]. *)
Theorem init_request_describes_file (s0 : Screen) (p : Props)
        (env : Environment) (req : Http.Request) :
  In (Fetch Http.Init req) (actions (final s0 p env)) ->
  exists info sz fields,
    fileInfo env = Settled (Return info)
    /\ exists_ info = true /\ size info = Some sz /\ sz <> 0
    /\ Http.method req = "POST"%string
    /\ Http.url req
       = (Client.apiBaseUrl (SETTINGS p) ++ "/api/recordings/init")%string
    /\ Http.body req = Some (JObj fields)
    /\ get "sizeBytes" fields = Some (JNum (inject_Z sz))
    /\ get "contentType" fields
       = Some (JStr (Client.uploadContentType (SETTINGS p)))
    /\ get "fileName" fields = Some (JStr (fileName_of (videoUri p)))
    /\ fileName_of (videoUri p) <> ""%string
    /\ has_slash (fileName_of (videoUri p)) = false.
Proof.
  assert (G : forall info sz,
             fileInfo env = Settled (Return info) ->
             readable_size info = Some sz ->
             req = Http.request (init_call p sz) ->
             exists info sz fields,
               fileInfo env = Settled (Return info)
               /\ exists_ info = true /\ size info = Some sz /\ sz <> 0
               /\ Http.method req = "POST"%string
               /\ Http.url req
                  = (Client.apiBaseUrl (SETTINGS p)
                       ++ "/api/recordings/init")%string
               /\ Http.body req = Some (JObj fields)
               /\ get "sizeBytes" fields = Some (JNum (inject_Z sz))
               /\ get "contentType" fields
                  = Some (JStr (Client.uploadContentType (SETTINGS p)))
               /\ get "fileName" fields
                  = Some (JStr (fileName_of (videoUri p)))
               /\ fileName_of (videoUri p) <> ""%string
               /\ has_slash (fileName_of (videoUri p)) = false).
  { intros info sz Hi Hr ->.
    destruct (readable_size_some info sz Hr) as (He & Hs & Hn).
    destruct (fileName_is_last_segment_parts (videoUri p)) as [F1 F2].
    exists info, sz. eexists. repeat split; try eassumption; reflexivity. }
  walk_with_screen p env ltac:(cbn; intros H; no_member H).
  - destruct (transfer_result env) as [[]|e'|] eqn:R; unfold_flow.
    + split_completion C; cbn; intros H; no_member H; injection H as <-;
        now apply (G info size).
    + cbn; intros H; no_member H; injection H as <-; now apply (G info size).
    + cbn [fst snd screen actions app]. cbn; intros H; no_member H;
        injection H as <-; now apply (G info size).
  - injection H as <-. now apply (G info size).
  - injection H as <-. now apply (G info size).
Qed.

Lemma init_request_describes_file_witness :
  exists fields,
    get "sizeBytes" fields = Some (JNum (inject_Z 1024))
    /\ get "fileName" fields = Some (JStr "a.mp4").
Proof.
  destruct (init_request_describes_file mounted sample_props env_success
              (Http.request (init_call sample_props 1024)))
    as (info & sz & fields & Hi & _ & Hs & _ & _ & _ & _ & S & _ & F & _).
  - vm_compute. auto.
  - exists fields. injection Hi as <-. injection Hs as <-. now split.
Defined.

Lemma waited_progress (params : UploadParams) (env : Environment)
      (s : Screen) :
  onProgress params = true ->
  progress (waited params env s) = last (shown_fractions env) (progress s).
Proof.
  intros Hp. unfold waited, shown_fractions.
  destruct (sendThrows env); [reflexivity|]. now apply wait_progress.
Qed.

(** X15.  What a run leaves on the screen.  The identifier shown is replaced
    only by a successful init: a run that does not get to the transfer
    leaves the identifier of the run before in place.  The progress is
    reset when the run starts: a run with a URI that does not get to the
    transfer leaves it at 0, and one that does leaves the last fraction
    that the transfer reported before it was decided, 0 when there was
    none. *)
Theorem screen_after_run (s0 : Screen) (p : Props) (env : Environment) :
  ((forall req, ~ In (XhrSend req) (actions (final s0 p env))) ->
   UploadScreen.recordingId (screen (final s0 p env))
   = UploadScreen.recordingId s0)
  /\ (videoUri p <> ""%string ->
      (forall req, ~ In (XhrSend req) (actions (final s0 p env))) ->
      progress (screen (final s0 p env)) = 0%Q)
  /\ (forall req,
         In (XhrSend req) (actions (final s0 p env)) ->
         progress (screen (final s0 p env))
         = last (shown_fractions env) 0%Q).
Proof.
  split; [|split].
  - walk_with_screen p env ltac:(cbn; reflexivity).
    intros H. exfalso.
    destruct (transfer_result env) as [[]|e'|]; unfold_flow;
      [split_completion C|..];
      eapply H; cbn; auto 10.
  - intros Hu.
    walk_with_screen p env ltac:(try (cbn; reflexivity)).
    + intros H. exfalso.
      destruct (transfer_result env) as [[]|e'|]; unfold_flow;
        [split_completion C|..];
        eapply H; cbn; auto 10.
    + destruct (videoUri p); [contradiction|discriminate].
  - intros req.
    walk_with_screen p env ltac:(cbn; intros H; no_member H).
    destruct (transfer_result env) as [[]|e'|]; unfold_flow;
      [split_completion C|..];
      intros _; cbn; now rewrite waited_progress.
Qed.

Lemma screen_after_run_witness :
  progress (screen (final mounted sample_props env_with_headers))
  = (inject_Z 5 / inject_Z 10)%Q.
Proof.
  destruct (screen_after_run mounted sample_props env_with_headers)
    as (_ & _ & H).
  rewrite (H (request_of
                (transfer_params sample_props
                   (mkInitRecordingResponse "r7" "https://x/r7"
                      (Some [("x-amz-acl", "private")]%string))))).
  - reflexivity.
  - vm_compute. auto.
Defined.

(* ===================================================================== *)
(** ** From the route parameters to the init request *)
(* ===================================================================== *)

Lemma fetch_is_request (l : list Action) (req : Http.Request) :
  In (Fetch Http.Init req) l -> requests l <> [].
Proof.
  induction l as [|a l IH]; intros H; [contradiction|].
  destruct H as [->|H]; simpl; [discriminate|].
  destruct (request_kind a); [discriminate|now apply IH].
Qed.

Section RouteToRequest.

Variable JSON_parse : string -> JsResult Json.
Variable ToNumber : Json -> number.
Variable settings : Client.Settings.
Variable parsesAsUrl : string -> bool.
Variable zodMessage : list ZodIssue -> string.

(** A route parameter, a string or an array of strings, converts to a
    number without throwing. *)
Lemma route_value_converts (raw : Params.RawParam) (v : Json) :
  Route.value_of raw = Some v ->
  Params.Number ToNumber v = Return (ToNumber v).
Proof.
  unfold Params.Number. destruct raw as [|s|l]; intros [= <-];
    [reflexivity|].
  replace (Params.unconvertible (JArr (map JStr l))) with false;
    [reflexivity|].
  simpl. induction l as [|s l IH]; [reflexivity|exact IH].
Qed.

(** X16.  The upload screen makes requests only when its [uri] parameter is a
    single non-empty string.  Its init request then carries [durationSec]
    exactly when the [duration] parameter is present, not empty, and
    converts to a number other than zero, and [stepMarkersSec] only when
    the [markers] parameter parses as an array; the markers sent are the
    numbers of its elements without those that convert to [NaN]. *)
Theorem route_decides_init_request (route : Route.UploadRoute)
        (s0 : Screen) (env : Environment) (req : Http.Request) :
  In (Fetch Http.Init req)
     (actions (final s0 (Route.upload_props JSON_parse ToNumber settings
                           parsesAsUrl zodMessage route) env)) ->
  (exists u, Route.uri route = Params.Single u /\ u <> ""%string)
  /\ exists fields,
      Http.body req = Some (JObj fields)
      /\ (get "durationSec" fields <> None
          <-> Params.falsy (Route.duration route) = false
              /\ exists v, Route.value_of (Route.duration route) = Some v
                           /\ nonzero_number (ToNumber v))
      /\ (forall v,
             get "stepMarkersSec" fields = Some v ->
             exists items,
               JSON_parse (Params.value_text (Route.markers route))
               = Return (JArr items)
               /\ v = JArr (map json_of_number
                                (filter not_NaN (map ToNumber items)))).
Proof.
  intros Hin. split.
  - destruct (request_needs_file s0
                (Route.upload_props JSON_parse ToNumber settings parsesAsUrl
                   zodMessage route) env (fetch_is_request _ _ Hin)) as [Hu _].
    simpl in Hu. destruct (Route.uri route) as [|u|l]; try contradiction.
    exists u. now split.
  - destruct (init_request_of_run s0 _ env req Hin) as (fileName & sz & ->).
    destruct (stringify_optional
                (initPayload (Route.upload_props JSON_parse ToNumber settings
                                parsesAsUrl zodMessage route) fileName sz))
      as (fields & Hs & Hd & Hm).
    exists fields. cbn [Http.body Http.request Client.initRecording].
    split; [now rewrite Hs|].
    rewrite Hd, Hm. unfold initPayload.
    cbn [Client.durationSec Client.stepMarkersSec Route.upload_props
         durationSec markers].
    split.
    + unfold Route.durationSec_of.
      destruct (Params.falsy (Route.duration route)); simpl.
      * split; [congruence|]. intros [H _]. discriminate.
      * destruct (Route.value_of (Route.duration route)) as [v|] eqn:V;
          simpl.
        -- rewrite (route_value_converts _ v V).
           destruct (truthy_number (ToNumber v)) eqn:T; simpl.
           ++ split; [|discriminate]. intros _. split; [reflexivity|].
              exists v. split; [reflexivity|now apply truthy_nonzero].
           ++ split; [congruence|]. intros (_ & v' & E & Hn).
              injection E as <-. apply truthy_nonzero in Hn. congruence.
        -- split; [congruence|]. intros (_ & v' & E & _). discriminate.
    + intros v. unfold Route.markers_of, Params.parseMarkersParam,
        Params.parse_attempt.
      destruct (Params.falsy (Route.markers route)); [discriminate|].
      destruct (JSON_parse (Params.value_text (Route.markers route)))
        as [j|e]; simpl; [|discriminate].
      destruct j as [| | | |items|]; simpl; try discriminate.
      destruct (Array_map (Params.Number ToNumber) items) as [numbers|e]
        eqn:M; simpl; [|discriminate].
      rewrite (Array_map_returns ToNumber items numbers M).
      fold not_NaN.
      destruct (filter _ (map ToNumber items)) eqn:F; cbv beta iota;
        unfold option_map; [discriminate|].
      intros [= <-]. exists items. split; [reflexivity|].
      rewrite F. reflexivity.
Qed.

End RouteToRequest.

Lemma route_decides_init_request_witness :
  exists fields,
    get "durationSec" fields = None
    /\ get "stepMarkersSec" fields = Some (JArr [JNum (3 # 1); JNum (8 # 1)]).
Proof.
  assert (M : In (Fetch Http.Init
                    (Http.request
                       (init_call
                          (Route.upload_props sample_JSON_parse sample_ToNumber
                             sample_settings https_prefixed counted_issues
                             sample_route)
                          1024)))
                 (actions (final mounted
                             (Route.upload_props sample_JSON_parse
                                sample_ToNumber sample_settings https_prefixed
                                counted_issues sample_route) env_success))).
  { vm_compute. auto. }
  destruct (route_decides_init_request sample_JSON_parse sample_ToNumber
              sample_settings https_prefixed counted_issues sample_route
              mounted env_success _ M) as (_ & fields & B & _).
  exists fields. vm_compute in B. injection B as <-. split; reflexivity.
Defined.

(* ===================================================================== *)
(** ** The record screen *)
(* ===================================================================== *)

Lemma pad_two_digits (n : Z) :
  0 <= n < 100 ->
  RecordScreen.padStart 2 "0" (string_of_Z n) = two_digits n.
Proof.
  intros H.
  assert (C : forallb
                (fun k => String.eqb
                            (RecordScreen.padStart 2 "0"
                               (string_of_Z (Z.of_nat k)))
                            (two_digits (Z.of_nat k)))
                (seq 0 100) = true) by (vm_compute; reflexivity).
  rewrite forallb_forall in C.
  specialize (C (Z.to_nat n)). rewrite Z2Nat.id in C by lia.
  apply String.eqb_eq, C, in_seq. lia.
Qed.

(** X17.  For an elapsed time below a hundred minutes [formatTime] writes
    [mm:ss]: the two digits of the minutes, a colon, and the two digits of
    the seconds within the minute. *)
Theorem formatTime_is_mm_ss (seconds : Z) :
  0 <= seconds < 6000 ->
  RecordScreen.formatTime seconds
  = (two_digits (seconds / 60) ++ ":" ++ two_digits (seconds mod 60))%string
  /\ String.length (RecordScreen.formatTime seconds) = 5%nat.
Proof.
  intros H. unfold RecordScreen.formatTime.
  rewrite Z.rem_mod_nonneg by lia.
  assert (M : 0 <= seconds / 60 < 100).
  { split; [apply Z.div_pos; lia|apply Z.div_lt_upper_bound; lia]. }
  assert (S : 0 <= seconds mod 60 < 100).
  { pose proof (Z.mod_pos_bound seconds 60). lia. }
  rewrite (pad_two_digits _ M), (pad_two_digits _ S).
  split; reflexivity.
Qed.

Lemma formatTime_is_mm_ss_witness :
  RecordScreen.formatTime 125 = "02:05"%string.
Proof.
  destruct (formatTime_is_mm_ss 125) as [H _]; [lia|].
  rewrite H. reflexivity.
Defined.

Section Recording.

Variable maxDurationSec : Z.

Lemma marks_append (t0 : Z) (nows : list Z) :
  t0 <> 0 ->
  forall s,
    RecordScreen.isRecording s = true ->
    RecordScreen.startTimeRef s = Some t0 ->
    RecordScreen.markers (marked maxDurationSec nows s)
    = RecordScreen.markers s
      ++ map (fun now => RecordScreen.elapsed maxDurationSec now t0) nows
    /\ RecordScreen.isRecording (marked maxDurationSec nows s) = true
    /\ RecordScreen.startTimeRef (marked maxDurationSec nows s) = Some t0.
Proof.
  intros Ht. induction nows as [|now nows IH]; intros s Hr Hs.
  - simpl. now rewrite app_nil_r.
  - change (marked maxDurationSec (now :: nows) s)
      with (marked maxDurationSec nows
              (RecordScreen.markStep maxDurationSec now s)).
    assert (E : RecordScreen.markStep maxDurationSec now s
                = RecordScreen.mkScreen
                    (RecordScreen.isRecording s) (RecordScreen.elapsedSec s)
                    (RecordScreen.markers s
                       ++ [RecordScreen.elapsed maxDurationSec now t0])
                    (RecordScreen.permissionError s)
                    (RecordScreen.recordingError s)
                    (RecordScreen.startTimeRef s)).
    { unfold RecordScreen.markStep, RecordScreen.started_at.
      rewrite Hr, Hs. apply Z.eqb_neq in Ht. now rewrite Ht. }
    rewrite E. clear E.
    set (s1 := RecordScreen.mkScreen _ _ _ _ _ _).
    destruct (IH s1 Hr Hs) as (Hm & Hr' & Hs').
    rewrite Hm. unfold s1. cbn [RecordScreen.markers map].
    rewrite <- app_assoc. auto.
Qed.

Lemma elapsed_monotone (a b t0 : Z) :
  a <= b ->
  RecordScreen.elapsed maxDurationSec a t0
  <= RecordScreen.elapsed maxDurationSec b t0.
Proof.
  intros H. unfold RecordScreen.elapsed.
  apply Z.min_le_compat_l, Z.div_le_mono; lia.
Qed.

Lemma ascending_elapsed (t0 : Z) (nows : list Z) :
  forall t, clock_from t nows ->
    ascending (map (fun now => RecordScreen.elapsed maxDurationSec now t0) nows)
    /\ Forall (fun m => RecordScreen.elapsed maxDurationSec t t0 <= m)
              (map (fun now => RecordScreen.elapsed maxDurationSec now t0)
                   nows).
Proof.
  induction nows as [|now nows IH]; intros t H; [now split|].
  destruct H as [Ht H]. destruct (IH now H) as [IA IF].
  pose proof (elapsed_monotone t now t0 Ht) as Hm. split.
  - cbn [map]. destruct nows as [|b nows]; [exact I|].
    split; [|exact IA]. cbn [map] in IF. now inversion IF.
  - constructor; [exact Hm|].
    eapply Forall_impl; [|exact IF]. intros m. cbv beta. lia.
Qed.

(** X18.  The markers of a recording are the whole seconds elapsed at each
    press, capped at the maximal duration, in the order of the presses.
    None exceeds the maximal duration; with a clock that does not go back
    they never decrease and, for a maximal duration that is not negative,
    none is negative.  (The recording starts at a clock reading other than
    0; markers of an earlier recording are dropped at the start.) *)
Theorem markers_follow_clock (s0 : RecordScreen.Screen) (t0 : Z)
        (nows : list Z) :
  t0 <> 0 ->
  RecordScreen.markers (recording maxDurationSec s0 t0 nows)
  = map (fun now => RecordScreen.elapsed maxDurationSec now t0) nows
  /\ Forall (fun m => m <= maxDurationSec)
            (RecordScreen.markers (recording maxDurationSec s0 t0 nows))
  /\ (clock_from t0 nows ->
      ascending (RecordScreen.markers (recording maxDurationSec s0 t0 nows))
      /\ (0 <= maxDurationSec ->
          Forall (fun m => 0 <= m)
                 (RecordScreen.markers
                    (recording maxDurationSec s0 t0 nows)))).
Proof.
  intros Ht. unfold recording.
  destruct (marks_append t0 nows Ht
              (RecordScreen.startRecording true true t0 s0) eq_refl eq_refl)
    as (Hm & _). rewrite Hm. cbn [app RecordScreen.markers
      RecordScreen.startRecording negb].
  split; [reflexivity|]. split.
  - apply Forall_forall. intros m Hin. apply in_map_iff in Hin.
    destruct Hin as (now & <- & _). unfold RecordScreen.elapsed. lia.
  - intros Hc. destruct (ascending_elapsed t0 nows t0 Hc) as [HA HF].
    split; [exact HA|]. intros Hmax.
    eapply Forall_impl; [|exact HF]. intros m Hle. cbv beta in Hle.
    unfold RecordScreen.elapsed in Hle. rewrite Z.sub_diag in Hle.
    change (0 / 1000) with 0 in Hle. lia.
Qed.

(** X19.  When the camera hands over the video at clock reading [tf], the
    preview is opened with the duration in whole seconds, rounded and
    capped at the maximal duration, written in decimal; no marker of the
    recording pressed up to [tf] exceeds that duration.  The markers handed
    over are those of the handler that the camera was given.  Without a
    video nothing is opened and the error is shown.  Either way the
    recording is over. *)
Theorem finished_recording_opens_preview (s0 : RecordScreen.Screen)
        (t0 tf : Z) (nows : list Z) (closed : list Z) (video : option string) :
  t0 <> 0 ->
  Forall (fun now => now <= tf) nows ->
  let s := recording maxDurationSec s0 t0 nows in
  let d := RecordScreen.rounded maxDurationSec tf t0 in
  RecordScreen.isRecording
    (fst (RecordScreen.handleRecordingFinished maxDurationSec closed video tf s))
  = false
  /\ RecordScreen.startTimeRef
       (fst (RecordScreen.handleRecordingFinished maxDurationSec closed video
               tf s)) = None
  /\ d <= maxDurationSec
  /\ Forall (fun m => m <= d) (RecordScreen.markers s)
  /\ (forall u, video = Some u -> u <> ""%string ->
        snd (RecordScreen.handleRecordingFinished maxDurationSec closed video
               tf s)
        = Some (RecordScreen.mkPreviewParams u (string_of_Z d)
                  (JArr (map (fun m => JNum (inject_Z m)) closed))))
  /\ (video = None \/ video = Some ""%string ->
      snd (RecordScreen.handleRecordingFinished maxDurationSec closed video
             tf s) = None
      /\ RecordScreen.recordingError
           (fst (RecordScreen.handleRecordingFinished maxDurationSec closed
                   video tf s))
         = Some "No video captured. Please try again."%string).
Proof.
  intros Ht Hf s d.
  destruct (marks_append t0 nows Ht
              (RecordScreen.startRecording true true t0 s0) eq_refl eq_refl)
    as (Hm & Hr & Hs).
  fold (recording maxDurationSec s0 t0 nows) in Hm, Hr, Hs.
  fold s in Hm, Hr, Hs.
  split; [|split; [|split; [|split; [|split]]]].
  - unfold RecordScreen.handleRecordingFinished.
    destruct video as [u|]; [destruct (truthy_string u)|]; reflexivity.
  - unfold RecordScreen.handleRecordingFinished.
    destruct video as [u|]; [destruct (truthy_string u)|]; reflexivity.
  - unfold d, RecordScreen.rounded. lia.
  - rewrite Hm. cbn [app RecordScreen.markers RecordScreen.startRecording
      negb]. apply Forall_forall. intros m Hin. apply in_map_iff in Hin.
    destruct Hin as (now & <- & Hin).
    rewrite Forall_forall in Hf. specialize (Hf now Hin).
    unfold d, RecordScreen.elapsed, RecordScreen.rounded.
    apply Z.min_le_compat_l, Z.div_le_mono; lia.
  - intros u -> Hu. unfold RecordScreen.handleRecordingFinished.
    rewrite Hs. destruct u; [contradiction|reflexivity].
  - intros [->| ->]; unfold RecordScreen.handleRecordingFinished;
      now split.
Qed.

End Recording.

Lemma markers_follow_clock_witness :
  RecordScreen.markers
    (recording 300
       (RecordScreen.mkScreen false 0 [7; 9] None None None)
       1000 [4200; 9999; 400000])
  = [3; 8; 300].
Proof.
  destruct (markers_follow_clock 300
              (RecordScreen.mkScreen false 0 [7; 9] None None None)
              1000 [4200; 9999; 400000]) as (H & _); [lia|].
  rewrite H. reflexivity.
Defined.

Lemma finished_recording_opens_preview_witness :
  snd (RecordScreen.handleRecordingFinished 300 [] (Some "file:///v.mp4"%string)
         13600
         (recording 300 (RecordScreen.mkScreen false 0 [] None None None)
                    1000 [4200; 9999]))
  = Some (RecordScreen.mkPreviewParams "file:///v.mp4" "13" (JArr [])).
Proof.
  destruct (finished_recording_opens_preview 300
              (RecordScreen.mkScreen false 0 [] None None None)
              1000 13600 [4200; 9999] [] (Some "file:///v.mp4"%string))
    as (_ & _ & _ & _ & H & _).
  - lia.
  - repeat constructor; lia.
  - rewrite (H "file:///v.mp4"%string eq_refl); [reflexivity|discriminate].
Defined.

(* ===================================================================== *)
(** ** The query of the result screen *)
(* ===================================================================== *)

Section ResultQuery.

Variable parsesAsUrl : string -> bool.
Variable SETTINGS : Client.Settings.
Variable library : ResultScreen.Library.

Lemma polling_issued (id : string) (outcomes : list Http.FetchOutcome) :
  forall q,
    (List.length (ResultScreen.issued
                    (ResultScreen.polling parsesAsUrl SETTINGS id library outcomes q))
     <= List.length (ResultScreen.issued q) + List.length outcomes)%nat
    /\ (Forall (eq (Http.request (ResultScreen.queryFn parsesAsUrl SETTINGS id)))
               (ResultScreen.issued q) ->
        Forall (eq (Http.request (ResultScreen.queryFn parsesAsUrl SETTINGS id)))
               (ResultScreen.issued
                  (ResultScreen.polling parsesAsUrl SETTINGS id library outcomes q))).
Proof.
  induction outcomes as [|o outcomes IH]; intros q.
  - simpl. split; [lia|auto].
  - simpl. destruct (ResultScreen.scheduled q); [|split; [lia|auto]].
    destruct (IH (ResultScreen.received parsesAsUrl SETTINGS id library o q))
      as [IL IF].
    assert (L : (List.length
                   (ResultScreen.issued
                      (ResultScreen.received parsesAsUrl SETTINGS id library o q))
                 <= S (List.length (ResultScreen.issued q)))%nat).
    { unfold ResultScreen.received. cbn [ResultScreen.issued].
      rewrite length_app. destruct (ResultScreen.schedules _); simpl; lia. }
    split; [lia|]. intros H. apply IF.
    unfold ResultScreen.received. cbn [ResultScreen.issued].
    apply Forall_app. split; [exact H|].
    destruct (ResultScreen.schedules _); repeat constructor.
Qed.

(** X20.  The result screen asks for the status of the recording named by its
    route parameter and of no other: when the parameter is not a non-empty
    string no request is made at all; otherwise every request is the same
    [GET] of that recording, and at most one more request is made than
    answers have arrived.  While a fetch is outstanding, a status that
    arrives replaces the data shown and clears the error. *)
Theorem result_query_requests (raw : Params.RawParam)
        (outcomes : list Http.FetchOutcome) :
  let id := Route.string_or_empty raw in
  (id = ""%string ->
   ResultScreen.poll parsesAsUrl SETTINGS id library outcomes
   = ResultScreen.mkQuery None false [] false)
  /\ Forall (eq (Http.mkRequest "GET"
                   (Client.apiBaseUrl SETTINGS ++ "/api/recordings/" ++ id)
                   [] None))
            (ResultScreen.issued
               (ResultScreen.poll parsesAsUrl SETTINGS id library outcomes))
  /\ (List.length (ResultScreen.issued
                     (ResultScreen.poll parsesAsUrl SETTINGS id library outcomes))
      <= List.length outcomes + 1)%nat
  /\ (forall before o d,
         ResultScreen.scheduled
           (ResultScreen.poll parsesAsUrl SETTINGS id library before) = true ->
         Http.complete (ResultScreen.queryFn parsesAsUrl SETTINGS id) o
         = Return d ->
         ResultScreen.data
           (ResultScreen.poll parsesAsUrl SETTINGS id library (before ++ [o]))
         = Some d
         /\ ResultScreen.isError
              (ResultScreen.poll parsesAsUrl SETTINGS id library (before ++ [o]))
            = false).
Proof.
  intros id. split; [|split; [|split]].
  - intros E. unfold ResultScreen.poll, ResultScreen.mounted,
      ResultScreen.enabled. rewrite E. simpl.
    now destruct outcomes.
  - unfold ResultScreen.poll.
    apply (polling_issued id outcomes).
    unfold ResultScreen.mounted.
    destruct (ResultScreen.enabled id); repeat constructor.
  - unfold ResultScreen.poll.
    destruct (polling_issued id outcomes
                (ResultScreen.mounted parsesAsUrl SETTINGS id)) as [L _].
    assert (M : (List.length
                   (ResultScreen.issued
                      (ResultScreen.mounted parsesAsUrl SETTINGS id))
                 <= 1)%nat).
    { unfold ResultScreen.mounted.
      destruct (ResultScreen.enabled id); simpl; lia. }
    lia.
  - intros before o d Hs Hd. unfold ResultScreen.poll in *.
    rewrite polling_app. simpl. rewrite Hs.
    unfold ResultScreen.received. rewrite Hd. now split.
Qed.

End ResultQuery.

Lemma result_query_requests_witness :
  ResultScreen.data
    (ResultScreen.poll https_prefixed sample_settings "r1"
       ResultScreen.PassesQuery
       ([Http.Failed (TypeError "Network request failed")]
          ++ [json_response 200 (status_body "PROCESSING")]))
  = Some (mkRecordingStatusResponse "r1" PROCESSING None None).
Proof.
  destruct (result_query_requests https_prefixed sample_settings
              ResultScreen.PassesQuery
              (Params.Single "r1") []) as (_ & _ & _ & H).
  destruct (H [Http.Failed (TypeError "Network request failed")]
              (json_response 200 (status_body "PROCESSING"))
              (mkRecordingStatusResponse "r1" PROCESSING None None)
              eq_refl eq_refl) as [D _].
  exact D.
Defined.

(* ===================================================================== *)
(** ** Failures of the flow, and where a step fails validation *)
(* ===================================================================== *)

Ltac pick_before :=
  match goal with
  | |- exists before text, ?l = before ++ [_] /\ _ => exists (removelast l)
  end.

Lemma shows_caught (zodMessage : list ZodIssue -> string) (e : Exn) :
  shows zodMessage e
        (if instanceofError e then message_of zodMessage e
         else "Upload failed.").
Proof. destruct e; reflexivity. Qed.



Lemma each_issue {A B} (f : B -> Parsed A) (l : list B) (b : B) i :
  In b l -> In i (issues_of (f b)) -> In i (issues_of (each f l)).
Proof.
  induction l as [|c l IH]; intros Hb Hi; [contradiction|].
  simpl. destruct Hb as [->|Hb].
  - apply issues_ap_left. now destruct (f b).
  - apply issues_ap_right. now apply IH.
Qed.

Lemma indexed_nth {A} (l : list A) (a : A) :
  forall i n, nth_error l i = Some a -> In ((n + i)%nat, a) (indexed n l).
Proof.
  induction l as [|c l IH]; intros i n H; [now destruct i|].
  destruct i as [|i]; simpl in *.
  - injection H as ->. left. f_equal. lia.
  - right. replace (n + S i)%nat with (S n + i)%nat by lia. now apply IH.
Qed.

Section StepIssues.

Variable parsesAsUrl : string -> bool.

(** X22.  A status response is rejected as a whole when one of its steps lacks
    a required text, and the issue says where: its path is [steps], the
    index of the step, and the name of the property. *)
Theorem missing_step_text_is_located
        (o : list (string * Json)) (items : list Json) (i : nat)
        (so : list (string * Json)) (key : string) :
  get "steps" o = Some (JArr items) ->
  nth_error items i = Some (JObj so) ->
  key = "title"%string \/ key = "description"%string ->
  get key so = None ->
  exists issues,
    In (mkIssue (invalid_type "string" "undefined")
                [Key "steps"; Idx i; Key key]) issues
    /\ parse (recordingStatusSchema parsesAsUrl) (JObj o)
       = Throw (ZodError issues).
Proof.
  intros Hs Hn Hk Hg. apply parse_issue.
  unfold recordingStatusSchema, field. rewrite Hs.
  apply issues_ap_right. cbn [optional z_array].
  assert (E : forall A B (g : A -> B) (q : Parsed A),
             issues_of (pmap g q) = issues_of q) by (now intros A B g []).
  rewrite E.
  apply (each_issue _ _ (i, JObj so)); [exact (indexed_nth items _ i 0 Hn)|].
  cbn [fst snd recordingStepSchema app]. unfold field.
  destruct Hk as [-> | ->].
  - apply issues_ap_left, issues_ap_left, issues_ap_right.
    rewrite Hg. simpl. now left.
  - apply issues_ap_left, issues_ap_right.
    rewrite Hg. simpl. now left.
Qed.

End StepIssues.

Lemma missing_step_text_is_located_witness :
  exists issues,
    In (mkIssue (invalid_type "string" "undefined")
                [Key "steps"; Idx 1; Key "title"]) issues
    /\ parse (recordingStatusSchema https_prefixed)
             (JObj [("recordingId", JStr "r1"); ("status", JStr "COMPLETED");
                    ("steps", JArr [sample_step;
                                    JObj [("index", JNum 1)]])])
       = Throw (ZodError issues).
Proof.
  exact (missing_step_text_is_located https_prefixed
           [("recordingId", JStr "r1"); ("status", JStr "COMPLETED");
            ("steps", JArr [sample_step; JObj [("index", JNum 1)]])]
           [sample_step; JObj [("index", JNum 1)]] 1
           [("index", JNum 1)] "title"%string
           eq_refl eq_refl (or_introl eq_refl) eq_refl).
Defined.
